(** * go3mf: the resource graph and its ID allocation, the spec registry,
      the extension attachment bags, the mesh builder, the validators of
      the materials extension and the streaming decoder, embedded from
      the Go sources, with the properties the specification states
      about them.

    Conventions of the embedding.
    - Go's [uint32] and [int] values are integers in [Z]; conversions that
      can wrap ([uint32(x)]) are written out with [uint32].
    - Slices are lists; a [nil] slice and an empty slice are both [[]]
      (every function embedded here only ranges over slices or takes
      their length, where Go does not distinguish the two).
    - An [error] result is [option error], [None] being Go's [nil]; an
      accumulated error list ([errors.List]) is a [list error], [[]]
      being [nil].
    - Go maps are [gmap]s.
    - A function that can panic returns an [outcome]. *)

From stdpp Require Import gmap strings list sorting.
From Stdlib Require Import ZArith Lia.

Local Open Scope Z_scope.

(** Go's [uint32(x)] conversion of an integer. *)
Definition uint32 (x : Z) : Z := x mod 2 ^ 32.

(** Go's [byte(x)] (or [uint8(x)]) conversion of an integer. *)
Definition uint8 (x : Z) : Z := x mod 2 ^ 8.

(** The value a Go function call leaves behind: it returns, or it panics. *)
Inductive outcome (A : Type) : Type :=
| Returns (a : A)
| Panics (msg : string).
Arguments Returns {A} a.
Arguments Panics {A} msg.

(** ** Package [errors] *)
Module Errors.

(** Modelled from the spec: package [errors] is not among the sources.
    Sentinel errors ([errors.New] variables such as [ErrMissingID] or
    [materials.ErrMultiBlend]) are identified by the name of their
    variable; [IndexedError] is what [WrapIndex] builds: the diagnostic
    together with the kind of the element it is positioned at and the
    index of that element in its parent's collection. *)
Inductive error : Type :=
| Sentinel (name : string)
| MissingFieldError (name : string)
| ParseAttrError (name : string) (required : bool)
| IndexedError (err : error) (element : string) (index : Z).

#[global] Instance error_eq_dec : EqDecision error.
Proof. solve_decision. Defined.

Definition ErrMissingID : error := Sentinel "ErrMissingID".
Definition ErrMissingResource : error := Sentinel "ErrMissingResource".
Definition ErrEmptyResourceProps : error := Sentinel "ErrEmptyResourceProps".
Definition ErrIndexOutOfBounds : error := Sentinel "ErrIndexOutOfBounds".

(** Modelled from the spec: [errors.NewMissingFieldError], the
    diagnostic of an absent required field. *)
Definition NewMissingFieldError (name : string) : error :=
  MissingFieldError name.

(** Modelled from the spec: [errors.Append] accumulates one more
    diagnostic at the end of the one error list. *)
Definition Append (errs : list error) (err : error) : list error :=
  errs ++ [err].

(** Modelled from the spec: [errors.WrapIndex] positions a diagnostic at
    an element of the given kind and index. *)
Definition WrapIndex (err : error) (element : string) (index : Z) : error :=
  IndexedError err element index.

(** Modelled from the spec: [errors.WrapIndex] given an accumulated
    list positions each diagnostic of the list. *)
Definition WrapIndexList (errs : list error) (element : string) (index : Z)
  : list error :=
  (fun err => WrapIndex err element index) <$> errs.

(** Modelled from the spec: [errors.NewParseAttrError], the diagnostic
    of an attribute value that does not parse; it records the name of
    the attribute and whether the attribute is required. *)
Definition NewParseAttrError (name : string) (required : bool) : error :=
  ParseAttrError name required.

End Errors.

(** ** Package [encoding/xml] (Go standard library): tokens *)
Module XML.

Module Name.
Record t : Type := mk { Space : string; Local : string }.
#[global] Instance Name_eq_dec : EqDecision t.
Proof. solve_decision. Defined.
(** The zero value [xml.Name{}]. *)
Definition zero : t := mk "" "".
End Name.

Module Attr.
Record t : Type := mk { Name : Name.t; Value : string }.
End Attr.

(** [xml.Token]: the decoder only distinguishes start tags, end tags
    and character data; comments, processing instructions and
    directives are the remaining kinds. *)
Inductive Token : Type :=
| StartElement (name : Name.t) (attr : list Attr.t)
| EndElement (name : Name.t)
| CharData (data : string)
| Comment (data : string)
| ProcInst (target : string) (inst : string)
| Directive (data : string).

End XML.

(** ** Package [go3mf]: the resource graph *)
Module Go3mf.
Import Errors.

(** [color.RGBA]: four 8-bit channels. *)
Module RGBA.
Record t : Type := mk { R : Z; G : Z; B : Z; A : Z }.
#[global] Instance RGBA_eq_dec : EqDecision t.
Proof. solve_decision. Defined.
(** The zero value [color.RGBA{}]. *)
Definition zero : t := mk 0 0 0 0.
End RGBA.

Module Base.
Record t : Type := mk { Name : string; Color : RGBA.t }.
End Base.

Module BaseMaterials.
Record t : Type := mk { ID : Z; Materials : list Base.t }.
Definition Len (r : t) : Z := Z.of_nat (length (Materials r)).
Definition Identify (r : t) : Z := ID r.
End BaseMaterials.

(** A 3D point, [Point3D = [3]float32]; each coordinate is carried as
    the integer encoding of its 32 bits, so equality is exact match. *)
Module Point3D.
Record t : Type := mk { X : Z; Y : Z; Z_ : Z }.
#[global] Instance Point3D_eq_dec : EqDecision t.
Proof. solve_decision. Defined.
#[global] Instance Point3D_countable : Countable t.
Proof.
  refine (inj_countable' (fun p => (X p, Y p, Z_ p))
            (fun '(x, y, z) => mk x y z) _).
  by intros [].
Defined.
End Point3D.

Module Triangle.
Record t : Type := mk {
  Indices : Z * Z * Z;
  PID : Z;
  PIndices : Z * Z * Z
}.
End Triangle.

Module Mesh.
Record t : Type := mk {
  Vertices : list Point3D.t;
  Triangles : list Triangle.t
}.
Definition empty : t := mk [] [].
End Mesh.

Module Object.
Record t : Type := mk {
  ID : Z;
  Name : string;
  DefaultPID : Z;
  DefaultPIndex : Z;
  Mesh : option Mesh.t
}.
End Object.

Module Item.
Record t : Type := mk { ObjectID : Z; PartNumber : string }.
End Item.

(** [Asset] is the Go interface [{ Identify() uint32 }]; every asset
    kind, of the core or of an extension, is an instance. *)
Class Asset (A : Type) : Type := Identify : A -> Z.

#[global] Instance BaseMaterials_Asset : Asset BaseMaterials.t :=
  BaseMaterials.Identify.

Module Resources.
Record t (A : Type) : Type := mk {
  Assets : list A;
  Objects : list Object.t
}.
Arguments mk {A} Assets Objects.
Arguments Assets {A} _.
Arguments Objects {A} _.
End Resources.

Module Build.
Record t : Type := mk { Items : list Item.t }.
End Build.

Module Attachment.
Record t : Type := mk { Path : string; ContentType : string }.
End Attachment.

Module ChildModel.
Record t (A : Type) : Type := mk { Resources : Resources.t A }.
Arguments mk {A} Resources.
Arguments Resources {A} _.
End ChildModel.

Module Model.
Record t (A : Type) : Type := mk {
  Path : string;
  Resources : Resources.t A;
  Build : Build.t;
  Attachments : list Attachment.t;
  Childs : gmap string (ChildModel.t A)
}.
Arguments mk {A} Path Resources Build Attachments Childs.
Arguments Path {A} _.
Arguments Resources {A} _.
Arguments Build {A} _.
Arguments Attachments {A} _.
Arguments Childs {A} _.
End Model.

Definition DefaultModelPath : string := "/3D/3dmodel.model".

(** [sort.Ints]: the ascending rearrangement of the slice. *)
Definition sort_Ints (ids : list Z) : list Z := merge_sort Z.le ids.

Section Graph.
Context {A : Type} `{!Asset A}.

(** The [ids] slice of [UnusedID] once both filling loops have run:
    [ids[0] = 0], then the asset IDs, then the object IDs. *)
Definition collectIDs (rs : Resources.t A) : list Z :=
  0 :: (Identify <$> Resources.Assets rs)
    ++ (Object.ID <$> Resources.Objects rs).

(** The scanning loop of [UnusedID],
    [for i, id := range ids { if id != i { lowest = i } }],
    from position [i] on. *)
Fixpoint lowestLoop (i : Z) (ids : list Z) (lowest : Z) : Z :=
  match ids with
  | [] => lowest
  | id :: rest =>
      lowestLoop (i + 1) rest (if bool_decide (id ≠ i) then i else lowest)
  end.

Definition UnusedID (rs : Resources.t A) : Z :=
  if bool_decide (length (Resources.Assets rs) = 0%nat
                  ∧ length (Resources.Objects rs) = 0%nat)
  then 1
  else
    let ids := sort_Ints (collectIDs rs) in
    let lowest := lowestLoop 0 ids 0 in
    let lowest :=
      if bool_decide (lowest = 0) then List.last ids 0 + 1 else lowest in
    uint32 lowest.

(** [Resources.FindObject]: linear scan for the first object with the ID. *)
Fixpoint findObject (objs : list Object.t) (id : Z) : option Object.t :=
  match objs with
  | [] => None
  | value :: rest =>
      if bool_decide (Object.ID value = id) then Some value
      else findObject rest id
  end.

(** [Resources.FindAsset]: linear scan for the first asset with the ID. *)
Fixpoint findAsset (assets : list A) (id : Z) : option A :=
  match assets with
  | [] => None
  | value :: rest =>
      if bool_decide (Identify value = id) then Some value
      else findAsset rest id
  end.

Definition FindResources (m : Model.t A) (path : string)
  : option (Resources.t A) :=
  if bool_decide (path = ""
                  ∨ path = Model.Path m
                  ∨ (Model.Path m = "" ∧ path = DefaultModelPath))
  then Some (Model.Resources m)
  else ChildModel.Resources <$> (Model.Childs m !! path).

Definition FindAsset (m : Model.t A) (path : string) (id : Z) : option A :=
  match FindResources m path with
  | Some rs => findAsset (Resources.Assets rs) id
  | None => None
  end.

Definition FindObject (m : Model.t A) (path : string) (id : Z)
  : option Object.t :=
  match FindResources m path with
  | Some rs => findObject (Resources.Objects rs) id
  | None => None
  end.

(** [Model.PathOrDefault]: [Path] if not empty, else [DefaultModelPath]. *)
Definition PathOrDefault (m : Model.t A) : string :=
  if bool_decide (Model.Path m = "") then DefaultModelPath else Model.Path m.

(** The algorithm of the specification, in its words: collect every
    ID in use, prepend 0, sort ascending; the result is the first
    index [i] whose value differs from [i], or one past the maximum. *)
Fixpoint firstGap (i : Z) (ids : list Z) : option Z :=
  match ids with
  | [] => None
  | id :: rest => if bool_decide (id ≠ i) then Some i else firstGap (i + 1) rest
  end.

Definition UnusedID_spec (rs : Resources.t A) : Z :=
  let ids := sort_Ints (collectIDs rs) in
  match firstGap 0 ids with
  | Some i => i
  | None => List.last ids 0 + 1
  end.

(** The IDs in use by the assets and objects of a collection. *)
Definition usedIDs (rs : Resources.t A) : list Z :=
  (Identify <$> Resources.Assets rs) ++ (Object.ID <$> Resources.Objects rs).

End Graph.

(** Modelled from the spec: [vectorTree] is not among the sources. It
    is the spatial index of previously added vertices, an exact-match
    lookup from a point to the index recorded for it. *)
Module vectorTree.
Abbreviation t := (gmap Point3D.t Z).
Definition FindVector (tree : t) (vec : Point3D.t) : option Z :=
  tree !! vec.
Definition AddVector (tree : t) (vec : Point3D.t) (value : Z) : t :=
  <[vec := value]> tree.
End vectorTree.

Module MeshBuilder.
Record t : Type := mk {
  CalculateConnectivity : bool;
  Mesh : Mesh.t;
  vectorTree : vectorTree.t
}.
End MeshBuilder.

Definition NewMeshBuilder (m : Mesh.t) : MeshBuilder.t :=
  MeshBuilder.mk true m ∅.

(** [AddVertex] returns the index and leaves the builder (its mesh and
    its spatial index) updated. *)
Definition AddVertex (mb : MeshBuilder.t) (node : Point3D.t)
  : Z * MeshBuilder.t :=
  let found :=
    if MeshBuilder.CalculateConnectivity mb
    then vectorTree.FindVector (MeshBuilder.vectorTree mb) node
    else None in
  match found with
  | Some index => (index, mb)
  | None =>
      let mesh := MeshBuilder.Mesh mb in
      let vertices := Mesh.Vertices mesh ++ [node] in
      let index := uint32 (uint32 (Z.of_nat (length vertices)) - 1) in
      let tree :=
        if MeshBuilder.CalculateConnectivity mb
        then vectorTree.AddVector (MeshBuilder.vectorTree mb) node index
        else MeshBuilder.vectorTree mb in
      (index,
       MeshBuilder.mk (MeshBuilder.CalculateConnectivity mb)
         (Mesh.mk vertices (Mesh.Triangles mesh)) tree)
  end.

(** A caller adding the nodes one after the other: the indices the
    calls return and the builder they leave. *)
Fixpoint AddVertices (mb : MeshBuilder.t) (nodes : list Point3D.t)
  : list Z * MeshBuilder.t :=
  match nodes with
  | [] => ([], mb)
  | node :: rest =>
      let '(index, mb1) := AddVertex mb node in
      let '(indices, mb2) := AddVertices mb1 rest in
      (index :: indices, mb2)
  end.

(** [Item.ObjectPath] and [Component.ObjectPath], which have the same
    body. An entry of [AnyAttr] is given by what the loop sees of it:
    [Some (Some path)] when the type assertion to [ObjectPather]
    succeeds, [path] being what the method [ObjectPath] of the entry
    returns (the method is taken to return, as the ones of the
    production extension do); [Some None] when the entry is of another
    type; [None] for a nil entry, on which the assertion fails as
    well. *)
Fixpoint ObjectPath (anyAttr : list (option (option string)))
    (defaultPath : string) : string :=
  match anyAttr with
  | [] => defaultPath
  | Some (Some path) :: rest =>
      if bool_decide (path ≠ "") then path else ObjectPath rest defaultPath
  | _ :: rest => ObjectPath rest defaultPath
  end.

(** An entry that gives no path: nil, not an [ObjectPather], or an
    [ObjectPather] whose path is empty. *)
Definition pathless (entry : option (option string)) : Prop :=
  entry ≠ None -> entry ≠ Some None -> entry = Some (Some "").

(** [Units] is a [uint8] and [ObjectType] an [int8], their constants
    numbered by [iota]. [String] and the [new...] functions index a map
    literal; indexing with an absent key gives the zero value of the
    element type, and [ok = false]. *)
Module Units.
Definition UnitMillimeter : Z := 0.
Definition UnitMicrometer : Z := 1.
Definition UnitCentimeter : Z := 2.
Definition UnitInch : Z := 3.
Definition UnitFoot : Z := 4.
Definition UnitMeter : Z := 5.
Definition names : gmap Z string :=
  list_to_map
    [(UnitMillimeter, "millimeter"); (UnitMicrometer, "micron");
     (UnitCentimeter, "centimeter"); (UnitInch, "inch");
     (UnitFoot, "foot"); (UnitMeter, "meter")].
Definition String (u : Z) : string := default "" (names !! u).
End Units.

Definition newUnits (s : string) : Z * bool :=
  let units : gmap string Z :=
    list_to_map
      [("millimeter", Units.UnitMillimeter); ("micron", Units.UnitMicrometer);
       ("centimeter", Units.UnitCentimeter); ("inch", Units.UnitInch);
       ("foot", Units.UnitFoot); ("meter", Units.UnitMeter)] in
  match units !! s with
  | Some u => (u, true)
  | None => (0, false)
  end.

Module ObjectType.
Definition ObjectTypeModel : Z := 0.
Definition ObjectTypeOther : Z := 1.
Definition ObjectTypeSupport : Z := 2.
Definition ObjectTypeSolidSupport : Z := 3.
Definition ObjectTypeSurface : Z := 4.
Definition names : gmap Z string :=
  list_to_map
    [(ObjectTypeModel, "model"); (ObjectTypeOther, "other");
     (ObjectTypeSupport, "support"); (ObjectTypeSolidSupport, "solidsupport");
     (ObjectTypeSurface, "surface")].
Definition String (o : Z) : string := default "" (names !! o).
End ObjectType.

Definition newObjectType (s : string) : Z * bool :=
  let types : gmap string Z :=
    list_to_map
      [("model", ObjectType.ObjectTypeModel); ("other", ObjectType.ObjectTypeOther);
       ("support", ObjectType.ObjectTypeSupport);
       ("solidsupport", ObjectType.ObjectTypeSolidSupport);
       ("surface", ObjectType.ObjectTypeSurface)] in
  match types !! s with
  | Some o => (o, true)
  | None => (0, false)
  end.

End Go3mf.

(** ** Package [beamlattice]: the clipping and capping modes *)
Module Beamlattice.

(** [ClipMode] and [CapMode] are [uint8]s numbered by [iota]. *)
Module ClipMode.
Definition ClipNone : Z := 0.
Definition ClipInside : Z := 1.
Definition ClipOutside : Z := 2.
Definition names : gmap Z string :=
  list_to_map [(ClipNone, "none"); (ClipInside, "inside"); (ClipOutside, "outside")].
Definition String (c : Z) : string := default "" (names !! c).
End ClipMode.

Definition newClipMode (s : string) : Z * bool :=
  let modes : gmap string Z :=
    list_to_map
      [("none", ClipMode.ClipNone); ("inside", ClipMode.ClipInside);
       ("outside", ClipMode.ClipOutside)] in
  match modes !! s with
  | Some c => (c, true)
  | None => (0, false)
  end.

Module CapMode.
Definition CapModeSphere : Z := 0.
Definition CapModeHemisphere : Z := 1.
Definition CapModeButt : Z := 2.
Definition names : gmap Z string :=
  list_to_map
    [(CapModeSphere, "sphere"); (CapModeHemisphere, "hemisphere");
     (CapModeButt, "butt")].
Definition String (b : Z) : string := default "" (names !! b).
End CapMode.

Definition newCapMode (s : string) : Z * bool :=
  let modes : gmap string Z :=
    list_to_map
      [("sphere", CapMode.CapModeSphere); ("hemisphere", CapMode.CapModeHemisphere);
       ("butt", CapMode.CapModeButt)] in
  match modes !! s with
  | Some t => (t, true)
  | None => (0, false)
  end.

End Beamlattice.

(** ** Package [go3mf]: the process-wide spec registry *)
Module Registry.

(** [UnknownSpec], an implementation declared next to the [Spec]
    interface in [extension.go]. *)
Module UnknownSpec.
Record t : Type := mk {
  SpaceName : string;
  LocalName : string;
  IsRequired : bool
}.
End UnknownSpec.

Section Specs.
(** [spec.Spec] is an interface declared in package [spec], which is not
    among the sources: [Spec] is the type of its non-nil values and
    [isValidateSpec] tells whether the dynamic type of one also
    implements [spec.ValidateSpec]. *)
Context {Spec : Type} (isValidateSpec : Spec -> bool).

(** The registry variable [specs] is a [gmap string (option Spec)]: an
    interface value stored in it may be [nil], which is [None]. The
    mutex [specMu] orders the accesses and has no other effect on a
    sequential run. *)

(** [Register]: the whole body is [specs[namespace] = spec] under the
    write lock. *)
Definition Register (namespace : string) (spec : option Spec)
    (specs : gmap string (option Spec)) : outcome (gmap string (option Spec)) :=
  Returns (<[namespace := spec]> specs).

(** [loadExtension] returns the stored value and whether the key is
    present. *)
Definition loadExtension (specs : gmap string (option Spec)) (ns : string)
  : option Spec * bool :=
  match specs !! ns with
  | Some ext => (ext, true)
  | None => (None, false)
  end.

(** [loadValidator]: present, and the dynamic type asserts to
    [spec.ValidateSpec] (an assertion on a nil interface fails). *)
Definition loadValidator (specs : gmap string (option Spec)) (ns : string)
  : option Spec * bool :=
  match specs !! ns with
  | Some (Some ext) =>
      if isValidateSpec ext then (Some ext, true) else (None, false)
  | Some None => (None, false)
  | None => (None, false)
  end.

(** What the documentation of [Register] promises: "If Register is
    called twice with the same name or if spec is nil, it panics." *)
Definition Register_documented (namespace : string) (spec : option Spec)
    (specs : gmap string (option Spec)) : outcome (gmap string (option Spec)) :=
  match spec, specs !! namespace with
  | None, _ => Panics "go3mf: Register spec is nil"
  | Some _, Some _ => Panics "go3mf: Register called twice for spec"
  | Some _, None => Returns (<[namespace := spec]> specs)
  end.

End Specs.

End Registry.

(** ** Package [reflect] (Go standard library), as far as [Get] uses it *)
Module Reflect.

Inductive Kind : Type := Interface | Ptr | Struct | Scalar.

#[global] Instance Kind_eq_dec : EqDecision Kind.
Proof. solve_decision. Defined.

(** A dynamic type: its identity is its name and kind; [Methods] is
    its method set (for an interface type, the methods it asks for). *)
Module Type_.
Record t : Type := mk { Name : string; Kind : Kind; Methods : list string }.
#[global] Instance Type_eq_dec : EqDecision t.
Proof. solve_decision. Defined.
End Type_.

(** [t.Implements(u)] for an interface type [u]. *)
Definition Implements (t u : Type_.t) : bool :=
  forallb (fun m => bool_decide (m ∈ Type_.Methods t)) (Type_.Methods u).

(** [v.AssignableTo(t)]: identical types, or [t] is an interface that
    [v] implements. *)
Definition AssignableTo (v t : Type_.t) : bool :=
  bool_decide (v = t)
  || (bool_decide (Type_.Kind t = Interface) && Implements v t).

(** The [target interface{}] argument of [Get] as reflection sees it. *)
Inductive Target : Type :=
| NilInterface
| NonPointer (typ : Type_.t)
| Pointer (elem : Type_.t) (isNil : bool).

End Reflect.

(** ** Package [go3mf]: the extension attachment bags ([extension.go]) *)
Module Attachments.
Import Errors Reflect.

(** The encoder a marshal hook writes to: the tokens emitted so far. *)
Module XMLEncoder.
Record t : Type := mk { tokens : list XML.Token }.
End XMLEncoder.

(** A non-nil [MarshalerAttr] interface value: its dynamic type and
    its [Marshal3MFAttr] method. *)
Module MarshalerAttr.
Record t : Type := mk {
  TypeOf : Type_.t;
  Marshal3MFAttr : XMLEncoder.t -> list XML.Attr.t * option error
}.
End MarshalerAttr.

(** A non-nil [Marshaler] interface value: its dynamic type and its
    [Marshal3MF] method, which writes to the encoder. *)
Module Marshaler.
Record t : Type := mk {
  TypeOf : Type_.t;
  Marshal3MF : XMLEncoder.t -> XMLEncoder.t * option error
}.
End Marshaler.

(** [marshalerAttrType] and [marshalerType]. *)
Definition marshalerAttrType : Type_.t :=
  Type_.mk "MarshalerAttr" Interface ["Marshal3MFAttr"].
Definition marshalerType : Type_.t :=
  Type_.mk "Marshaler" Interface ["Marshal3MF"].

(** The bags; an entry may be a nil interface value, [None]. *)
Abbreviation AnyAttr := (list (option MarshalerAttr.t)).
Abbreviation Extension := (list (option Marshaler.t)).

(** The scanning loop shared by both [Get] methods:
    [for _, v := range e { if v != nil && TypeOf(v).AssignableTo(targetType) {...; return true} }]. *)
Fixpoint firstAssignable {V : Type} (typeOf : V -> Type_.t)
    (e : list (option V)) (targetType : Type_.t) : option V :=
  match e with
  | [] => None
  | None :: rest => firstAssignable typeOf rest targetType
  | Some v :: rest =>
      if AssignableTo (typeOf v) targetType then Some v
      else firstAssignable typeOf rest targetType
  end.

(** [AnyAttr.Get]. The result pairs the returned boolean with the value
    stored through [target], if one was stored. *)
Definition AnyAttr_Get (e : AnyAttr) (target : Target)
  : outcome (bool * option MarshalerAttr.t) :=
  if bool_decide (length e = 0%nat) then Returns (false, None)
  else
    match target with
    | NilInterface => Panics "go3mf: target cannot be nil"
    | NonPointer _ => Panics "go3mf: target must be a non-nil pointer"
    | Pointer el isNil =>
        if isNil then Panics "go3mf: target must be a non-nil pointer"
        else if bool_decide (Type_.Kind el ≠ Interface)
                && negb (Implements el marshalerAttrType)
        then Panics "go3mf: *target must be interface or implement MarshalerAttr"
        else
          match firstAssignable MarshalerAttr.TypeOf e el with
          | Some v => Returns (true, Some v)
          | None => Returns (false, None)
          end
    end.

(** [Extension.Get]. *)
Definition Extension_Get (e : Extension) (target : Target)
  : outcome (bool * option Marshaler.t) :=
  if bool_decide (length e = 0%nat) then Returns (false, None)
  else
    match target with
    | NilInterface => Panics "go3mf: target cannot be nil"
    | NonPointer _ => Panics "go3mf: target must be a non-nil pointer"
    | Pointer el isNil =>
        if isNil then Panics "go3mf: target must be a non-nil pointer"
        else if bool_decide (Type_.Kind el ≠ Interface)
                && negb (Implements el marshalerType)
        then Panics "go3mf: *target must be interface or implement Marshaler"
        else
          match firstAssignable Marshaler.TypeOf e el with
          | Some v => Returns (true, Some v)
          | None => Returns (false, None)
          end
    end.

(** What [Get] returns once its target has passed the checks, for the
    statements about it: true with the first entry that is not nil and
    assignable to the target type, or false without any. *)
Definition scanned {V : Type} (typeOf : V -> Type_.t) (e : list (option V))
    (el : Type_.t) (result : outcome (bool * option V)) : Prop :=
  (∀ v, result = Returns (true, Some v)
        ↔ ∃ pre post,
            e = pre ++ Some v :: post
            ∧ AssignableTo (typeOf v) el = true
            ∧ Forall (fun entry => ∀ u, entry = Some u ->
                        AssignableTo (typeOf u) el = false) pre)
  ∧ (result = Returns (false, None)
     ↔ Forall (fun entry => ∀ u, entry = Some u ->
                 AssignableTo (typeOf u) el = false) e)
  ∧ (∃ found, result = Returns (bool_decide (is_Some found), found)).

(** [AnyAttr.encode]: every entry is asked for its attributes, which
    are appended to the start element when the hook succeeds. Calling
    the method of a nil interface value panics. *)
Fixpoint AnyAttr_encode (e : AnyAttr) (x : XMLEncoder.t)
    (startAttr : list XML.Attr.t) : outcome (list XML.Attr.t) :=
  match e with
  | [] => Returns startAttr
  | None :: _ =>
      Panics "runtime error: invalid memory address or nil pointer dereference"
  | Some ext :: rest =>
      match MarshalerAttr.Marshal3MFAttr ext x with
      | (att, None) => AnyAttr_encode rest x (startAttr ++ att)
      | (_, Some _) => AnyAttr_encode rest x startAttr
      end
  end.

(** [Extension.encode]:
    [for _, ext := range e { if err := ext.Marshal3MF(x); err == nil { return err } }; return nil]. *)
Fixpoint Extension_encode (e : Extension) (x : XMLEncoder.t)
  : outcome (XMLEncoder.t * option error) :=
  match e with
  | [] => Returns (x, None)
  | None :: _ =>
      Panics "runtime error: invalid memory address or nil pointer dereference"
  | Some ext :: rest =>
      match Marshaler.Marshal3MF ext x with
      | (x', None) => Returns (x', None)
      | (x', Some _) => Extension_encode rest x'
      end
  end.

End Attachments.

(** ** Package [materials]: the validators of the materials extension *)
Module Materials.
Import Errors Go3mf.

(** The asset types of this package are declared in a file that is not
    among the sources; their fields are the ones the validators read and
    the tests of the package fill. *)
Module ColorGroup.
Record t : Type := mk { ID : Z; Colors : list RGBA.t }.
End ColorGroup.

(** A texture coordinate, two [float32]s carried by their bits. *)
Module TextureCoord.
Record t : Type := mk { U : Z; V : Z }.
End TextureCoord.

Module Texture2DGroup.
Record t : Type := mk {
  ID : Z;
  TextureID : Z;
  Coords : list TextureCoord.t
}.
End Texture2DGroup.

Module Texture2D.
Record t : Type := mk { ID : Z; Path : string; ContentType : Z }.
End Texture2D.

Module Composite.
Record t : Type := mk { Values : list Z }.
End Composite.

Module CompositeMaterials.
Record t : Type := mk {
  ID : Z;
  MaterialID : Z;
  Indices : list Z;
  Composites : list Composite.t
}.
End CompositeMaterials.

Module Multi.
Record t : Type := mk { PIndices : list Z }.
End Multi.

Inductive BlendMethod : Type := BlendMix | BlendMultiply.

Module MultiProperties.
Record t : Type := mk {
  ID : Z;
  PIDs : list Z;
  BlendMethods : list BlendMethod;
  Multis : list Multi.t
}.
End MultiProperties.

(** The dynamic types an [Asset] interface value takes in the type
    switches of this package; [OtherAsset] stands for every kind the
    package does not know (such as [UnknownAsset]). *)
Inductive asset : Type :=
| BaseMaterialsAsset (r : BaseMaterials.t)
| ColorGroupAsset (r : ColorGroup.t)
| Texture2DGroupAsset (r : Texture2DGroup.t)
| Texture2DAsset (r : Texture2D.t)
| MultiPropertiesAsset (r : MultiProperties.t)
| CompositeMaterialsAsset (r : CompositeMaterials.t)
| OtherAsset (id : Z).

#[global] Instance asset_Asset : Asset asset := fun a =>
  match a with
  | BaseMaterialsAsset r => BaseMaterials.ID r
  | ColorGroupAsset r => ColorGroup.ID r
  | Texture2DGroupAsset r => Texture2DGroup.ID r
  | Texture2DAsset r => Texture2D.ID r
  | MultiPropertiesAsset r => MultiProperties.ID r
  | CompositeMaterialsAsset r => CompositeMaterials.ID r
  | OtherAsset id => id
  end.

Definition ErrMultiBlend : error := Sentinel "ErrMultiBlend".
Definition ErrMaterialMulti : error := Sentinel "ErrMaterialMulti".
Definition ErrMultiRefMulti : error := Sentinel "ErrMultiRefMulti".
Definition ErrMultiColors : error := Sentinel "ErrMultiColors".
Definition ErrCompositeBase : error := Sentinel "ErrCompositeBase".
Definition ErrTextureReference : error := Sentinel "ErrTextureReference".

Definition attrPIDs : string := "pids".
Definition attrMatID : string := "matid".
Definition attrMatIndices : string := "matindices".
Definition attrColor : string := "color".
Definition attrTexID : string := "texid".

Definition len {T : Type} (l : list T) : Z := Z.of_nat (length l).

(** The variables the first loop of [validateMultiProps] updates. *)
Module pidState.
Record t : Type := mk {
  errs : list error;
  colorCount : Z;
  resourceUndefined : bool;
  lengths : list Z
}.
End pidState.

(** One iteration [j, pid] of the loop over [r.PIDs]. *)
Definition pidStep (m : Model.t asset) (path : string) (j : nat) (pid : Z)
    (s : pidState.t) : pidState.t :=
  let '(pidState.mk errs colorCount resourceUndefined lengths) := s in
  match FindAsset m path pid with
  | Some (BaseMaterialsAsset pr) =>
      pidState.mk
        (if bool_decide (j ≠ 0%nat) then Append errs ErrMaterialMulti else errs)
        colorCount resourceUndefined
        (<[j := len (BaseMaterials.Materials pr)]> lengths)
  | Some (CompositeMaterialsAsset pr) =>
      pidState.mk
        (if bool_decide (j ≠ 0%nat) then Append errs ErrMaterialMulti else errs)
        colorCount resourceUndefined
        (<[j := len (CompositeMaterials.Composites pr)]> lengths)
  | Some (MultiPropertiesAsset _) =>
      pidState.mk (Append errs ErrMultiRefMulti)
        colorCount resourceUndefined lengths
  | Some (ColorGroupAsset pr) =>
      pidState.mk
        (if bool_decide (colorCount = 1) then Append errs ErrMultiColors else errs)
        (colorCount + 1) resourceUndefined
        (<[j := len (ColorGroup.Colors pr)]> lengths)
  | Some _ => s
  | None =>
      if negb resourceUndefined
      then pidState.mk (Append errs ErrMissingResource) colorCount true lengths
      else s
  end.

(** [for j, pid := range r.PIDs], from position [j] on. *)
Fixpoint pidLoop (m : Model.t asset) (path : string) (j : nat)
    (pids : list Z) (s : pidState.t) : pidState.t :=
  match pids with
  | [] => s
  | pid :: rest => pidLoop m path (S j) rest (pidStep m path j pid s)
  end.

(** The inner loop over [m.PIndices] from slot [k] on: does it reach
    the [break], that is, is there a slot [k < len(r.PIDs)] with
    [lengths[k] < int(index)]? ([lengths] has [len(r.PIDs)] entries,
    so the guarded read is in range.) *)
Fixpoint slotLoop (nPIDs : Z) (lengths : list Z) (k : nat)
    (pindices : list Z) : bool :=
  match pindices with
  | [] => false
  | index :: rest =>
      if bool_decide (Z.of_nat k < nPIDs)
         && bool_decide (lengths !!! k < index)
      then true
      else slotLoop nPIDs lengths (S k) rest
  end.

(** [for j, m := range r.Multis], from position [j] on. *)
Fixpoint multiLoop (nPIDs : Z) (lengths : list Z) (j : nat)
    (multis : list Multi.t) (errs : list error) : list error :=
  match multis with
  | [] => errs
  | mu :: rest =>
      multiLoop nPIDs lengths (S j) rest
        (if slotLoop nPIDs lengths 0 (Multi.PIndices mu)
         then Append errs (WrapIndex ErrIndexOutOfBounds "Multi" (Z.of_nat j))
         else errs)
  end.

(** The state of the first loop when it ends. *)
Definition pidScan (m : Model.t asset) (path : string)
    (r : MultiProperties.t) (errs : list error) : pidState.t :=
  pidLoop m path 0 (MultiProperties.PIDs r)
    (pidState.mk errs 0 false
       (replicate (length (MultiProperties.PIDs r)) 0)).

(** The four checks that precede the loops of [validateMultiProps]. *)
Definition multiPropsHead (r : MultiProperties.t) : list error :=
  let errs := [] in
  let errs :=
    if bool_decide (MultiProperties.ID r = 0)
    then Append errs ErrMissingID else errs in
  let errs :=
    if bool_decide (len (MultiProperties.PIDs r) = 0)
    then Append errs (NewMissingFieldError attrPIDs) else errs in
  let errs :=
    if bool_decide (len (MultiProperties.BlendMethods r)
                      > len (MultiProperties.PIDs r) - 1)
    then Append errs ErrMultiBlend else errs in
  let errs :=
    if bool_decide (len (MultiProperties.Multis r) = 0)
    then Append errs ErrEmptyResourceProps else errs in
  errs.

Definition validateMultiProps (m : Model.t asset) (path : string)
    (r : MultiProperties.t) : list error :=
  let s := pidScan m path r (multiPropsHead r) in
  multiLoop (len (MultiProperties.PIDs r)) (pidState.lengths s) 0
    (MultiProperties.Multis r) (pidState.errs s).

(** The loop of [validateCompositeMat] over [r.Indices]: does it reach
    the [break]? *)
Fixpoint indexLoop (nMaterials : Z) (indices : list Z) : bool :=
  match indices with
  | [] => false
  | index :: rest =>
      if bool_decide (index > nMaterials) then true
      else indexLoop nMaterials rest
  end.

Definition validateCompositeMat (m : Model.t asset) (path : string)
    (r : CompositeMaterials.t) : list error :=
  let errs := [] in
  let errs :=
    if bool_decide (CompositeMaterials.ID r = 0)
    then Append errs ErrMissingID else errs in
  let errs :=
    if bool_decide (CompositeMaterials.MaterialID r = 0)
    then Append errs (NewMissingFieldError attrMatID)
    else
      match FindAsset m path (CompositeMaterials.MaterialID r) with
      | Some (BaseMaterialsAsset bm) =>
          if indexLoop (len (BaseMaterials.Materials bm))
               (CompositeMaterials.Indices r)
          then Append errs ErrIndexOutOfBounds else errs
      | Some _ => Append errs ErrCompositeBase
      | None => Append errs ErrMissingResource
      end in
  let errs :=
    if bool_decide (len (CompositeMaterials.Indices r) = 0)
    then Append errs (NewMissingFieldError attrMatIndices) else errs in
  let errs :=
    if bool_decide (len (CompositeMaterials.Composites r) = 0)
    then Append errs ErrEmptyResourceProps else errs in
  errs.

(** [validateColorGroup]. *)
Fixpoint colorLoop (j : nat) (colors : list RGBA.t) (errs : list error)
  : list error :=
  match colors with
  | [] => errs
  | c :: rest =>
      colorLoop (S j) rest
        (if bool_decide (c = RGBA.zero)
         then Append errs
                (WrapIndex (NewMissingFieldError attrColor) "RGBA" (Z.of_nat j))
         else errs)
  end.

Definition validateColorGroup (path : string) (r : ColorGroup.t)
  : list error :=
  let errs := [] in
  let errs :=
    if bool_decide (ColorGroup.ID r = 0)
    then Append errs ErrMissingID else errs in
  let errs :=
    if bool_decide (len (ColorGroup.Colors r) = 0)
    then Append errs ErrEmptyResourceProps else errs in
  colorLoop 0 (ColorGroup.Colors r) errs.

(** [validateTexture2DGroup]. *)
Definition validateTexture2DGroup (m : Model.t asset) (path : string)
    (r : Texture2DGroup.t) : list error :=
  let errs := [] in
  let errs :=
    if bool_decide (Texture2DGroup.ID r = 0)
    then Append errs ErrMissingID else errs in
  let errs :=
    if bool_decide (Texture2DGroup.TextureID r = 0)
    then Append errs (NewMissingFieldError attrTexID)
    else
      match FindAsset m path (Texture2DGroup.TextureID r) with
      | Some (Texture2DAsset _) => errs
      | Some _ => Append errs ErrTextureReference
      | None => Append errs ErrTextureReference
      end in
  let errs :=
    if bool_decide (len (Texture2DGroup.Coords r) = 0)
    then Append errs ErrEmptyResourceProps else errs in
  errs.

Definition ErrMissingTexturePart : error := Sentinel "ErrMissingTexturePart".
Definition attrPath : string := "path".
Definition attrContentType : string := "contenttype".

Section Dispatch.
(** [strings.EqualFold] (Go standard library): equality of two UTF-8
    strings under Unicode case folding. *)
Context (EqualFold : string -> string -> bool).

(** The loop of [validateTexture2D] over [m.Attachments]: is there an
    attachment whose path is that of the texture, case folded? *)
Fixpoint hasTexture (attachments : list Attachment.t) (path : string) : bool :=
  match attachments with
  | [] => false
  | a :: rest =>
      if EqualFold (Attachment.Path a) path then true
      else hasTexture rest path
  end.

Definition validateTexture2D (m : Model.t asset) (path : string)
    (r : Texture2D.t) : list error :=
  let errs := [] in
  let errs :=
    if bool_decide (Texture2D.ID r = 0)
    then Append errs ErrMissingID else errs in
  let errs :=
    if bool_decide (Texture2D.Path r = "")
    then Append errs (NewMissingFieldError attrPath)
    else
      if negb (hasTexture (Model.Attachments m) (Texture2D.Path r))
      then Append errs ErrMissingTexturePart else errs in
  let errs :=
    if bool_decide (Texture2D.ContentType r = 0)
    then Append errs (NewMissingFieldError attrContentType) else errs in
  errs.

(** [validateAsset]: the type switch over the asset kinds of the
    package; every other kind gets no diagnostic. *)
Definition validateAsset (m : Model.t asset) (path : string) (r : asset)
  : list error :=
  match r with
  | ColorGroupAsset r => validateColorGroup path r
  | Texture2DGroupAsset r => validateTexture2DGroup m path r
  | Texture2DAsset r => validateTexture2D m path r
  | MultiPropertiesAsset r => validateMultiProps m path r
  | CompositeMaterialsAsset r => validateCompositeMat m path r
  | _ => []
  end.
End Dispatch.

(** The length of the list a property ID refers to, for the kinds
    that are property lists ([PropertyGroup], [Len() int]): base
    materials, composite materials, colors and texture coordinates. *)
Definition propertyListLen (a : asset) : option Z :=
  match a with
  | BaseMaterialsAsset r => Some (len (BaseMaterials.Materials r))
  | CompositeMaterialsAsset r => Some (len (CompositeMaterials.Composites r))
  | ColorGroupAsset r => Some (len (ColorGroup.Colors r))
  | Texture2DGroupAsset r => Some (len (Texture2DGroup.Coords r))
  | _ => None
  end.

(** *** Notions the statements about the validators use *)

(** The length the first loop of [validateMultiProps] records for a
    property ID: that of the base-material, composite or color list it
    resolves to, and 0, the initial value, in every other case. *)
Definition recordedLen (m : Model.t asset) (path : string) (pid : Z) : Z :=
  match FindAsset m path pid with
  | Some (BaseMaterialsAsset pr) => len (BaseMaterials.Materials pr)
  | Some (CompositeMaterialsAsset pr) => len (CompositeMaterials.Composites pr)
  | Some (ColorGroupAsset pr) => len (ColorGroup.Colors pr)
  | _ => 0
  end.

(** The asset kinds whose length that loop records. *)
Definition recordsLength (a : asset) : Prop :=
  match a with
  | BaseMaterialsAsset _ | CompositeMaterialsAsset _ | ColorGroupAsset _ => True
  | _ => False
  end.

(** A property ID that resolves to no asset. *)
Definition isDangling (m : Model.t asset) (path : string) (pid : Z) : bool :=
  bool_decide (FindAsset m path pid = None).

(** What one iteration of that loop adds for a reference of the wrong
    kind. *)
Definition wrongKind (m : Model.t asset) (path : string) (j : nat) (pid : Z)
  : option error :=
  match FindAsset m path pid with
  | Some (BaseMaterialsAsset _) | Some (CompositeMaterialsAsset _) =>
      if bool_decide (j ≠ 0%nat) then Some ErrMaterialMulti else None
  | Some (MultiPropertiesAsset _) => Some ErrMultiRefMulti
  | _ => None
  end.

(** Does a property ID resolve to a color group, and how many of a
    list do. *)
Definition isColorGroup (m : Model.t asset) (path : string) (pid : Z) : bool :=
  match FindAsset m path pid with
  | Some (ColorGroupAsset _) => true
  | _ => false
  end.

Definition colorGroupRefs (m : Model.t asset) (path : string) (pids : list Z)
  : Z :=
  len (filter (fun pid => isColorGroup m path pid = true) pids).

(** The diagnostics the first loop can add. *)
Definition pidDiag (e : error) : Prop :=
  e ∈ [ErrMaterialMulti; ErrMultiRefMulti; ErrMultiColors; ErrMissingResource].

(** The diagnostics the second loop adds, from position [j] on. *)
Fixpoint oobDiags (nPIDs : Z) (lengths : list Z) (j : nat)
    (multis : list Multi.t) : list error :=
  match multis with
  | [] => []
  | mu :: rest =>
      (if slotLoop nPIDs lengths 0 (Multi.PIndices mu)
       then [WrapIndex ErrIndexOutOfBounds "Multi" (Z.of_nat j)] else [])
      ++ oobDiags nPIDs lengths (S j) rest
  end.

(** A combination entry has a slot, within the property IDs, whose
    index is above the length recorded for that property ID. *)
Definition slotExceeds (m : Model.t asset) (path : string)
    (r : MultiProperties.t) (mu : Multi.t) : Prop :=
  ∃ k index pid,
    Multi.PIndices mu !! k = Some index
    ∧ MultiProperties.PIDs r !! k = Some pid
    ∧ recordedLen m path pid < index.

(** The indices of a composite-materials asset that are above the
    material count of the base materials it refers to. *)
Definition outOfBoundsIndices (m : Model.t asset) (path : string)
    (r : CompositeMaterials.t) : list Z :=
  if bool_decide (CompositeMaterials.MaterialID r = 0) then []
  else
    match FindAsset m path (CompositeMaterials.MaterialID r) with
    | Some (BaseMaterialsAsset bm) =>
        filter (fun index => index > len (BaseMaterials.Materials bm))
          (CompositeMaterials.Indices r)
    | _ => []
    end.

(** Does a property ID resolve to base materials or to composite
    materials, the kinds only the first property ID may refer to; does
    it resolve to another multi-properties asset. *)
Definition isMaterialRef (m : Model.t asset) (path : string) (pid : Z) : bool :=
  match FindAsset m path pid with
  | Some (BaseMaterialsAsset _) | Some (CompositeMaterialsAsset _) => true
  | _ => false
  end.

Definition isMultiRef (m : Model.t asset) (path : string) (pid : Z) : bool :=
  match FindAsset m path pid with
  | Some (MultiPropertiesAsset _) => true
  | _ => false
  end.

(** A multi-properties asset with every combination entry cut down to
    the slots that have a property ID. *)
Definition withoutExtraSlots (r : MultiProperties.t) : MultiProperties.t :=
  MultiProperties.mk (MultiProperties.ID r) (MultiProperties.PIDs r)
    (MultiProperties.BlendMethods r)
    ((fun mu => Multi.mk (take (length (MultiProperties.PIDs r)) (Multi.PIndices mu)))
       <$> MultiProperties.Multis r).

(** The asset kinds [validateAsset] has a case for. *)
Definition validated (a : asset) : bool :=
  match a with
  | ColorGroupAsset _ | Texture2DGroupAsset _ | Texture2DAsset _
  | MultiPropertiesAsset _ | CompositeMaterialsAsset _ => true
  | _ => false
  end.

(** How many times a diagnostic occurs in an error list. *)
Definition countOf (e : error) (l : list error) : nat :=
  count_occ error_eq_dec l e.

(** "Every problem is recorded", for the out-of-bounds indices of a
    composite-materials asset and for the dangling property IDs of a
    multi-properties asset: as many diagnostics as problems. *)
Definition recordsEveryOutOfBoundsIndex (m : Model.t asset) (path : string)
    (r : CompositeMaterials.t) : Prop :=
  (length (outOfBoundsIndices m path r)
   <= countOf ErrIndexOutOfBounds (validateCompositeMat m path r))%nat.

Definition recordsEveryDanglingPID (m : Model.t asset) (path : string)
    (r : MultiProperties.t) : Prop :=
  (length (filter (fun pid => isDangling m path pid) (MultiProperties.PIDs r))
   <= countOf ErrMissingResource (validateMultiProps m path r))%nat.

End Materials.

(** ** Package [slices]: the start hook of the [<segment>] decoder *)
Module Slices.
Import Errors XML.

Module Segment.
Record t : Type := mk { V2 : Z; PID : Z; P1 : Z; P2 : Z }.
(** The zero value [Segment{}]. *)
Definition zero : t := mk 0 0 0 0.
End Segment.

Module Polygon.
Record t : Type := mk { StartV : Z; Segments : list Segment.t }.
End Polygon.

(** The attribute names of [<segment>]; the constants of this package
    are not among the sources, these are the values of the constants of
    the same names in package [go3mf]. *)
Definition attrV2 : string := "v2".
Definition attrPID : string := "pid".
Definition attrP1 : string := "p1".
Definition attrP2 : string := "p2".

(** [strconv.ParseUint(s, 10, 32)] (Go standard library). The empty
    string is a syntax error. The bytes are read in order: a byte that
    is no decimal digit ends the call with the value 0 and a syntax
    error; a digit that takes the value past the largest 32-bit value
    ends it with that value and a range error, whatever follows. (The
    value never leaves 32 bits, so the overflow test of the 64-bit
    accumulator is never taken.) *)
Fixpoint parseLoop (s : string) (n : Z) : Z * option error :=
  match s with
  | EmptyString => (n, None)
  | String c rest =>
      let d := Z.of_nat (Ascii.nat_of_ascii c) - 48 in
      if bool_decide (0 <= d <= 9) then
        let n1 := 10 * n + d in
        if bool_decide (n1 > 2 ^ 32 - 1)
        then (2 ^ 32 - 1, Some (Sentinel "strconv.ErrRange"))
        else parseLoop rest n1
      else (0, Some (Sentinel "strconv.ErrSyntax"))
  end.

Definition ParseUint (s : string) : Z * option error :=
  match s with
  | EmptyString => (0, Some (Sentinel "strconv.ErrSyntax"))
  | _ => parseLoop s 0
  end.

(** The variables the loop of [polygonSegmentDecoder.Start] updates. *)
Module segmentState.
Record t : Type := mk {
  segment : Segment.t;
  hasP1 : bool;
  hasP2 : bool;
  errs : list error
}.
End segmentState.

(** One iteration of [for _, a := range attrs]: the value is parsed
    first, then the local name selects the field. *)
Definition segmentStep (st : segmentState.t) (a : Attr.t) : segmentState.t :=
  let '(segmentState.mk segment hasP1 hasP2 errs) := st in
  let '(val, err) := ParseUint (Attr.Value a) in
  let local := Name.Local (Attr.Name a) in
  let '(segment, required, hasP1, hasP2) :=
    if bool_decide (local = attrV2) then
      (Segment.mk (uint32 val) (Segment.PID segment) (Segment.P1 segment)
         (Segment.P2 segment), true, hasP1, hasP2)
    else if bool_decide (local = attrPID) then
      (Segment.mk (Segment.V2 segment) (uint32 val) (Segment.P1 segment)
         (Segment.P2 segment), false, hasP1, hasP2)
    else if bool_decide (local = attrP1) then
      (Segment.mk (Segment.V2 segment) (Segment.PID segment) (uint32 val)
         (Segment.P2 segment), false, true, hasP2)
    else if bool_decide (local = attrP2) then
      (Segment.mk (Segment.V2 segment) (Segment.PID segment)
         (Segment.P1 segment) (uint32 val), false, hasP1, true)
    else (segment, false, hasP1, hasP2) in
  let segment :=
    if hasP1 && negb hasP2
    then Segment.mk (Segment.V2 segment) (Segment.PID segment)
           (Segment.P1 segment) (Segment.P1 segment)
    else segment in
  let errs :=
    match err with
    | Some _ => Append errs (NewParseAttrError local required)
    | None => errs
    end in
  segmentState.mk segment hasP1 hasP2 errs.

(** [polygonSegmentDecoder.Start]: the polygon [d.polygon] points to is
    left with the segment appended, and the result is the accumulated
    diagnostics, positioned at the segment ([[]] is [nil]). *)
Definition polygonSegmentDecoder_Start (attrs : list Attr.t)
    (polygon : Polygon.t) : Polygon.t * list error :=
  let st :=
    fold_left segmentStep attrs (segmentState.mk Segment.zero false false []) in
  let segments := Polygon.Segments polygon ++ [segmentState.segment st] in
  (Polygon.mk (Polygon.StartV polygon) segments,
   WrapIndexList (segmentState.errs st) "Segment"
     (Z.of_nat (length segments) - 1)).

(** [Slice]: its height and its vertices are [float32] data, carried
    by their bits, and its polygons. *)
Module Slice.
Record t : Type := mk {
  TopZ : Z;
  Vertices : list (Z * Z);
  Polygons : list Polygon.t
}.
End Slice.

(** What [polygonDecoder] and the [polygonSegmentDecoder] inside it
    reach: the slice [d.slice] points to, and the pointer
    [d.polygonSegmentDecoder.polygon], which is nil or the address of an
    element of [d.slice.Polygons], given by its position. The pointer is
    set right after the only [append] to that slice of polygons, so it
    always designates an element of the current backing array. *)
Module polygonDecoder.
Record t : Type := mk {
  slice : Slice.t;
  polygon : option nat
}.
End polygonDecoder.

Section Polygon.
(** The name of the start-vertex attribute, a constant of the package
    that is not among the sources. *)
Context (attrStartV : string).

(** The loop of [polygonDecoder.Start]: the first attribute named
    [attrStartV] gives [StartV], with a diagnostic when its value does
    not parse, and ends the loop. *)
Fixpoint startVLoop (attrs : list Attr.t) : Z * list error :=
  match attrs with
  | [] => (0, [])
  | a :: rest =>
      if bool_decide (Name.Local (Attr.Name a) = attrStartV) then
        let '(val, err) := ParseUint (Attr.Value a) in
        (uint32 val,
         match err with
         | Some _ => Append [] (NewParseAttrError (Name.Local (Attr.Name a)) true)
         | None => []
         end)
      else startVLoop rest
  end.

(** [polygonDecoder.Start]: a new polygon is appended to the slice, the
    segment decoder is pointed at it, and its start vertex is read. *)
Definition polygonDecoder_Start (attrs : list Attr.t) (d : polygonDecoder.t)
  : polygonDecoder.t * list error :=
  let sl := polygonDecoder.slice d in
  let polygonIndex := length (Slice.Polygons sl) in
  let '(startV, errs) := startVLoop attrs in
  (polygonDecoder.mk
     (Slice.mk (Slice.TopZ sl) (Slice.Vertices sl)
        (Slice.Polygons sl ++ [Polygon.mk startV []]))
     (Some polygonIndex),
   WrapIndexList errs "Polygon" (Z.of_nat polygonIndex)).
End Polygon.

(** [polygonSegmentDecoder.Start] as it runs inside a [polygonDecoder]:
    on the polygon the pointer designates, written back in place. A nil
    pointer cannot be followed. *)
Definition segmentStart (attrs : list Attr.t) (d : polygonDecoder.t)
  : outcome (polygonDecoder.t * list error) :=
  let sl := polygonDecoder.slice d in
  match polygonDecoder.polygon d with
  | None =>
      Panics "runtime error: invalid memory address or nil pointer dereference"
  | Some i =>
      match Slice.Polygons sl !! i with
      | None =>
          Panics "runtime error: invalid memory address or nil pointer dereference"
      | Some polygon =>
          let '(polygon', errs) := polygonSegmentDecoder_Start attrs polygon in
          Returns
            (polygonDecoder.mk
               (Slice.mk (Slice.TopZ sl) (Slice.Vertices sl)
                  (<[i := polygon']> (Slice.Polygons sl)))
               (Some i),
             errs)
      end
  end.

(** [<segment>] start tags one after the other. *)
Fixpoint segmentStarts (tags : list (list Attr.t)) (d : polygonDecoder.t)
  : outcome (polygonDecoder.t * list error) :=
  match tags with
  | [] => Returns (d, [])
  | attrs :: rest =>
      match segmentStart attrs d with
      | Panics msg => Panics msg
      | Returns (d1, errs1) =>
          match segmentStarts rest d1 with
          | Panics msg => Panics msg
          | Returns (d2, errs2) => Returns (d2, errs1 ++ errs2)
          end
      end
  end.

(** The segment the loop of [polygonSegmentDecoder.Start] builds from
    the attributes of one start tag. *)
Definition segmentOf (attrs : list Attr.t) : Segment.t :=
  segmentState.segment
    (fold_left segmentStep attrs (segmentState.mk Segment.zero false false [])).

(** The value the hook keeps for a field: that of the last attribute
    with the field's local name, 0 (the zero value) without one. *)
Definition lastValue (local : string) (attrs : list Attr.t) : Z :=
  match last (filter (fun a => Name.Local (Attr.Name a) = local) attrs) with
  | Some a => uint32 (fst (ParseUint (Attr.Value a)))
  | None => 0
  end.

(** Is there an attribute with the local name. *)
Definition hasAttr (local : string) (attrs : list Attr.t) : bool :=
  bool_decide (Exists (fun a => Name.Local (Attr.Name a) = local) attrs).

(** The diagnostic the hook adds for an attribute: none when its value
    parses, else a parse diagnostic that is marked required for [v2]
    only. *)
Definition segmentDiag (a : Attr.t) : list error :=
  match snd (ParseUint (Attr.Value a)) with
  | Some _ =>
      [NewParseAttrError (Name.Local (Attr.Name a))
         (bool_decide (Name.Local (Attr.Name a) = attrV2))]
  | None => []
  end.

(** An attribute is without effect on the diagnostics of the hook:
    they are the same with it and without it. *)
Definition silentOn (attrs : list Attr.t) (a : Attr.t) (polygon : Polygon.t)
  : Prop :=
  snd (polygonSegmentDecoder_Start (attrs ++ [a]) polygon)
  = snd (polygonSegmentDecoder_Start attrs polygon).


End Slices.

(** ** Package [io3mf]: the streaming decoder ([modelFile.Decode]) *)
Module IO3mf.
Import Errors XML.

Definition nsCoreSpec : string :=
  "http://schemas.microsoft.com/3dmanufacturing/core/2015/02".
Definition attrModel : string := "model".


(** [xml.Decoder.Skip], on the tokens still to be read: it reads
    tokens until it has consumed the end element matching the most
    recent start element already consumed, skipping nested structures.
    [None] is the case where [Token] fails before that, in which case
    [Skip] returns the error of [Token]. *)
Fixpoint Skip (depth : nat) (x : list Token) : option (list Token) :=
  match x with
  | [] => None
  | StartElement _ _ :: rest => Skip (S depth) rest
  | EndElement _ :: rest =>
      match depth with
      | O => Some rest
      | S d => Skip d rest
      end
  | _ :: rest => Skip depth rest
  end.

(** [err = x.Skip()] followed by the rest of the caller's loop: [k]
    continues on the tokens [Skip] left, [onErr] is taken when [Skip]
    returns an error. ([skipThen_Skip] relates it to [Skip].) *)
Definition skipThen {R : Type} (k : list Token -> R) (onErr : R)
  : nat -> list Token -> R :=
  fix skip (depth : nat) (x : list Token) {struct x} : R :=
    match x with
    | [] => onErr
    | StartElement _ _ :: rest => skip (S depth) rest
    | EndElement _ :: rest =>
        match depth with
        | O => k rest
        | S d => skip d rest
        end
    | _ :: rest => skip depth rest
    end.

(** [modelFile]: what one document's decode accumulates.
    [Identifier] is the resource interface of this package. *)
Module modelFile.
Record t (Identifier : Type) : Type := mk {
  path : string;
  isRoot : bool;
  warnings : list error;
  resourcesMap : gmap Z Identifier;
  resources : list Identifier;
  namespaces : gmap string string
}.
Arguments mk {Identifier} _ _ _ _ _ _.
Arguments path {Identifier} _.
Arguments isRoot {Identifier} _.
Arguments warnings {Identifier} _.
Arguments resourcesMap {Identifier} _.
Arguments resources {Identifier} _.
Arguments namespaces {Identifier} _.
End modelFile.

Section Decoder.
(** [Heap] holds the fields of the element decoders, which their
    hooks update in place; together with the [modelFile] it is all a
    hook can reach. *)
Context {Identifier Heap : Type}.
Context (Identify : Identifier -> string * Z).

Record world : Type := mkWorld {
  file : modelFile.t Identifier;
  heap : Heap
}.

Definition AddWarning (d : modelFile.t Identifier) (err : error)
  : modelFile.t Identifier :=
  modelFile.mk (modelFile.path d) (modelFile.isRoot d)
    (modelFile.warnings d ++ [err])
    (modelFile.resourcesMap d) (modelFile.resources d)
    (modelFile.namespaces d).

Definition AddResource (d : modelFile.t Identifier) (r : Identifier)
  : modelFile.t Identifier :=
  let id := snd (Identify r) in
  modelFile.mk (modelFile.path d) (modelFile.isRoot d)
    (modelFile.warnings d)
    (<[id := r]> (modelFile.resourcesMap d))
    (modelFile.resources d ++ [r])
    (modelFile.namespaces d).

(** [modelFile.FindResource]. [modelPath] is [d.r.Model.Path] and
    [modelFind] is [d.r.Model.FindResource], the lookup in the model the
    reader fills; the [Model] of this version of the package is not among
    the sources. *)
Definition FindResource (modelPath : string)
    (modelFind : string -> Z -> option Identifier)
    (d : modelFile.t Identifier) (path : string) (id : Z)
  : option Identifier :=
  let path := if bool_decide (path = "") then modelPath else path in
  if bool_decide (path = modelFile.path d)
  then modelFile.resourcesMap d !! id
  else modelFind path id.

#[local] Unset Elimination Schemes.
(** The [nodeDecoder] interface. Each hook runs on the world and
    leaves it updated; [SetModelFile] and [ModelFile] only hand the
    decoder the pointer to the file, which here is part of the
    world every hook receives. *)
Inductive nodeDecoder : Type := mkNodeDecoder {
  Open : world -> world * option error;
  Attributes : list Attr.t -> world -> world * option error;
  Text : string -> world -> world * option error;
  Child : Name.t -> world -> world * option nodeDecoder;
  Close : world -> world * option error
}.
#[local] Set Elimination Schemes.

(** [emptyDecoder]: every hook does nothing. *)
Definition emptyDecoder : nodeDecoder :=
  mkNodeDecoder
    (fun w => (w, None))
    (fun _ w => (w, None))
    (fun _ w => (w, None))
    (fun _ w => (w, None))
    (fun w => (w, None)).

(** [modelDecoder] is not among the sources; it is whatever decoder
    [new(modelDecoder)] builds. *)
Context (modelDecoder : nodeDecoder).

(** [topLevelDecoder]: an [emptyDecoder] whose [Child] accepts the
    core [model] element only. *)
Definition topLevelDecoder (isRoot : bool) : nodeDecoder :=
  mkNodeDecoder
    (Open emptyDecoder)
    (Attributes emptyDecoder)
    (Text emptyDecoder)
    (fun name w =>
       if bool_decide (name = Name.mk nsCoreSpec attrModel)
       then (w, Some modelDecoder)
       else (w, None))
    (Close emptyDecoder).

(** The local variables of [Decode]. The two parallel stacks
    [state] and [names] have their top at the head of the list. *)
Record frame : Type := mkFrame {
  currentDecoder : nodeDecoder;
  currentName : Name.t;
  state : list nodeDecoder;
  names : list Name.t;
  now : world
}.

Definition setWorld (f : frame) (w : world) : frame :=
  mkFrame (currentDecoder f) (currentName f) (state f) (names f) w.

(** The loop of [Decode] on the tokens [x] the XML decoder still
    holds; [fin] is the error [Token] returns once they are read
    ([io.EOF] at the end of a complete document). The loop only
    ends by [break], so [Decode] returns a non-nil error, which is
    paired here with the world it leaves. Popping an empty stack is
    an index out of range. *)
Fixpoint decodeLoop (fin : error) (x : list Token) (f : frame) {struct x}
  : outcome (error * world) :=
  match x with
  | [] => Returns (fin, now f)
  | t :: x' =>
      match t with
      | StartElement name attr =>
          match Child (currentDecoder f) name (now f) with
          | (w, Some tmpDecoder) =>
              let push w' :=
                mkFrame tmpDecoder name
                  (currentDecoder f :: state f)
                  (currentName f :: names f) w' in
              match Open tmpDecoder w with
              | (w1, Some err) => Returns (err, w1)
              | (w1, None) =>
                  match Attributes tmpDecoder attr w1 with
                  | (w2, Some err) => Returns (err, w2)
                  | (w2, None) => decodeLoop fin x' (push w2)
                  end
              end
          | (w, None) =>
              skipThen (fun rest => decodeLoop fin rest (setWorld f w))
                (Returns (fin, w)) 0 x'
          end
      | CharData data =>
          match Text (currentDecoder f) data (now f) with
          | (w, Some err) => Returns (err, w)
          | (w, None) => decodeLoop fin x' (setWorld f w)
          end
      | EndElement name =>
          if bool_decide (currentName f = name)
          then
            match Close (currentDecoder f) (now f) with
            | (w, Some err) => Returns (err, w)
            | (w, None) =>
                match state f, names f with
                | d :: state', n :: names' =>
                    decodeLoop fin x' (mkFrame d n state' names' w)
                | _, _ => Panics "runtime error: index out of range [-1]"
                end
            end
          else decodeLoop fin x' f
      | _ => decodeLoop fin x' f
      end
  end.

(** [modelFile.Decode]: reset the two maps, start from a
    [topLevelDecoder] and run the loop. *)
Definition Decode (d : modelFile.t Identifier) (h : Heap)
    (x : list Token) (fin : error) : outcome (error * world) :=
  let d' :=
    modelFile.mk (modelFile.path d) (modelFile.isRoot d)
      (modelFile.warnings d) ∅ (modelFile.resources d) ∅ in
  decodeLoop fin x
    (mkFrame (topLevelDecoder (modelFile.isRoot d)) Name.zero [] []
       (mkWorld d' h)).

End Decoder.

(** The content of an element: a sequence of complete elements (with
    their own content), character data and other tokens. *)
Inductive content : list Token -> Prop :=
| content_nil : content []
| content_element name attr body rest :
    content body -> content rest ->
    content (StartElement name attr :: body ++ EndElement name :: rest)
| content_text data rest : content rest -> content (CharData data :: rest)
| content_comment data rest : content rest -> content (Comment data :: rest)
| content_procinst target inst rest :
    content rest -> content (ProcInst target inst :: rest)
| content_directive data rest :
    content rest -> content (Directive data :: rest).

(** *** [strToSRGB] *)

Definition errInvalidFormat : error := Sentinel "gltf: invalid color format".

(** The bytes of a Go string. *)
Definition bytes (s : string) : list Z :=
  (fun c => Z.of_nat (Ascii.nat_of_ascii c)) <$> String.list_ascii_of_string s.

(** The closure [hexToByte] of [strToSRGB]: it returns the digit it
    reads, in [byte] arithmetic, and on a byte that is no hexadecimal
    digit it sets [err], the result variable of the enclosing function,
    and returns 0. *)
Definition hexToByte (b : Z) (err : option error) : Z * option error :=
  if bool_decide (48 <= b ∧ b <= 57) then (uint8 (b - 48), err)
  else if bool_decide (97 <= b ∧ b <= 102) then (uint8 (b - 97), err)
  else if bool_decide (65 <= b ∧ b <= 70) then (uint8 (b - 65), err)
  else (0, Some errInvalidFormat).

(** One channel, [hexToByte(hi)<<4 + hexToByte(lo)]: the shift binds
    tighter than the sum and both wrap at 8 bits. *)
Definition hexPair (hi lo : Z) (err : option error) : Z * option error :=
  let '(h, err) := hexToByte hi err in
  let '(l, err) := hexToByte lo err in
  (uint8 (uint8 (Z.shiftl h 4) + l), err).

(** [strToSRGB]: [len(s) == 0 || s[0] != '#'] fails at once; then the
    switch on [len(s)], 9 and 7 being one [#] and eight or six digits. *)
Definition strToSRGB (s : string) : Go3mf.RGBA.t * option error :=
  match bytes s with
  | [] => (Go3mf.RGBA.zero, Some errInvalidFormat)
  | s0 :: digits =>
      if bool_decide (s0 ≠ 35) then (Go3mf.RGBA.zero, Some errInvalidFormat)
      else
        match digits with
        | [s1; s2; s3; s4; s5; s6; s7; s8] =>
            let '(r, err) := hexPair s1 s2 None in
            let '(g, err) := hexPair s3 s4 err in
            let '(b, err) := hexPair s5 s6 err in
            let '(a, err) := hexPair s7 s8 err in
            (Go3mf.RGBA.mk r g b a, err)
        | [s1; s2; s3; s4; s5; s6] =>
            let '(r, err) := hexPair s1 s2 None in
            let '(g, err) := hexPair s3 s4 err in
            let '(b, err) := hexPair s5 s6 err in
            (Go3mf.RGBA.mk r g b 255, err)
        | _ => (Go3mf.RGBA.zero, Some errInvalidFormat)
        end
  end.

(** A byte that is a hexadecimal digit, and its value. *)
Definition isHexDigit (b : Z) : Prop :=
  (48 <= b ∧ b <= 57) ∨ (97 <= b ∧ b <= 102) ∨ (65 <= b ∧ b <= 70).

Definition isDecimalDigit (b : Z) : Prop := 48 <= b ∧ b <= 57.

End IO3mf.

(** ** The streaming decoder of the element decoders with start and end hooks *)
Module StreamingDecoder.
Import Errors XML IO3mf.

Section Loop.
(** What the hooks of the element decoders reach. *)
Context {W : Type}.

#[local] Unset Elimination Schemes.
(** Modelled from the spec: the interface of the element decoders with
    start and end hooks, [spec.ElementDecoder] and its optional
    companions, is not among the sources. These are the hooks of
    section 4.2 of the specification: the start hook, which receives
    the attribute list and returns its diagnostics ([[]] is [nil]); the
    text hook; the end hook; the child query; and [Wrap], by which a
    decoder positions the diagnostics of the elements inside its own.
    The hooks work on [W]; [Start] and [Wrap] can fail the way Go code
    does (a nil pointer, an index out of range). *)
Inductive ElementDecoder : Type := mkElementDecoder {
  Start : list Attr.t -> W -> outcome (W * list error);
  Text : string -> W -> W;
  End_ : W -> W;
  Child : Name.t -> W -> option ElementDecoder;
  Wrap : W -> list error -> outcome (list error)
}.
#[local] Set Elimination Schemes.

(** Modelled from the spec: the state of the loop, whose code is not
    among the sources. It is a stack machine: the stack of the open
    elements, top first, each with its name and its decoder; what the
    hooks have built; and the diagnostics accumulated so far. *)
Record frame : Type := mkFrame {
  stack : list (Name.t * ElementDecoder);
  now : W;
  diagnostics : list error
}.





End Loop.
Arguments ElementDecoder W : clear implicits.
Arguments frame W : clear implicits.

End StreamingDecoder.

(** ** The element decoders of [<polygon>] and [<segment>] *)
Module SliceElements.
Import Errors XML Slices StreamingDecoder.

Section Elements.
(** The namespace of the slice extension and the names of its elements
    and attributes are constants of the package that are not among the
    sources. *)
Context (Namespace attrSegment attrStartV : string).






End Elements.
End SliceElements.

(** ** Package [stl]: the importer's [DecodeContext] *)
Module STL.
Import Errors Go3mf.

Section Importer.
Context {A : Type} `{!Asset A}.

(** [Decoder.DecodeContext]. The readers of the two STL encodings
    are not among the sources: [sniff] is the error of [isASCII] and
    [decoded] is the mesh the ASCII or binary decoder filled together
    with its error. *)
Definition DecodeContext (sniff : option error)
    (decoded : Mesh.t * option error) (m : Model.t A)
  : Model.t A * option error :=
  match sniff with
  | Some err => (m, Some err)
  | None =>
      match decoded with
      | (mesh, None) =>
          let id := UnusedID (Model.Resources m) in
          let newMesh := Object.mk id "" 0 0 (Some mesh) in
          let rs := Model.Resources m in
          (Model.mk (Model.Path m)
             (Resources.mk (Resources.Assets rs)
                (Resources.Objects rs ++ [newMesh]))
             (Build.mk (Build.Items (Model.Build m) ++ [Item.mk id ""]))
             (Model.Attachments m) (Model.Childs m),
           None)
      | (_, Some err) => (m, Some err)
      end
  end.

(** Importing several STL files into the same model, each one read
    and decoded without error. *)
Definition DecodeAll (meshes : list Mesh.t) (m : Model.t A) : Model.t A :=
  foldl (fun m mesh => fst (DecodeContext None (mesh, None) m)) m meshes.
End Importer.

End STL.

(** ** Concrete inputs used by the examples below *)
Module Samples.
Import Errors XML Go3mf Registry Reflect Attachments Materials IO3mf.

(** A mesh object with the given ID. *)
Definition object (id : Z) : Object.t :=
  Object.mk id "" 0 0 (Some Mesh.empty).

(** Resources whose objects use the given IDs, and the model around
    them. *)
Definition resourcesWith (ids : list Z) : Resources.t asset :=
  Resources.mk [] (object <$> ids).

Definition modelWith (assets : list asset) (ids : list Z) : Model.t asset :=
  Model.mk "/3D/3dmodel.model" (Resources.mk assets (object <$> ids))
    (Build.mk []) [] ∅.

Definition red : RGBA.t := RGBA.mk 255 0 0 255.
Definition base (name : string) : Base.t := Base.mk name red.

(** Base materials 5 (three materials), texture 6, its texture group 2
    (four coordinates) and color group 1 (two colors). *)
Definition materials5 : asset :=
  BaseMaterialsAsset (BaseMaterials.mk 5 [base "a"; base "b"; base "c"]).
Definition texture6 : asset :=
  Texture2DAsset (Texture2D.mk 6 "/3D/Texture/msLogo.png" 1).
Definition textureGroup2 : asset :=
  Texture2DGroupAsset
    (Texture2DGroup.mk 2 6
       [TextureCoord.mk 0 0; TextureCoord.mk 0 1;
        TextureCoord.mk 1 1; TextureCoord.mk 1 0]).
Definition colorGroup1 : asset :=
  ColorGroupAsset (ColorGroup.mk 1 [red; red]).

(** The multi-properties element of the package's decode test,
    [pids="5 2" blendmethods="multiply"] with combinations
    [0 0], [1 0] and [2 3]. *)
Definition multi9 : MultiProperties.t :=
  MultiProperties.mk 9 [5; 2] [BlendMultiply]
    [Multi.mk [0; 0]; Multi.mk [1; 0]; Multi.mk [2; 3]].

Definition texturedModel : Model.t asset :=
  modelWith [texture6; textureGroup2; materials5; MultiPropertiesAsset multi9] [].

(** Property IDs [{P1, P2}] = [{5, 1}] with two and with one blend
    method. *)
Definition twoBlends : MultiProperties.t :=
  MultiProperties.mk 9 [5; 1] [BlendMix; BlendMultiply] [Multi.mk [0; 0]].
Definition oneBlend : MultiProperties.t :=
  MultiProperties.mk 9 [5; 1] [BlendMultiply] [Multi.mk [0; 0]].
Definition blendModel : Model.t asset := modelWith [materials5; colorGroup1] [].

(** The composite of the package's validation test whose two indices
    are both 100, over a base-material group of two materials. *)
Definition materials1 : asset :=
  BaseMaterialsAsset (BaseMaterials.mk 1 [base "a"; base "b"]).
Definition composite4 : CompositeMaterials.t :=
  CompositeMaterials.mk 4 1 [100; 100] [Composite.mk [1; 2]].
Definition compositeModel : Model.t asset := modelWith [materials1] [].

(** A multi-properties asset with nothing right: no ID, two dangling
    property IDs, too many blend methods. *)
Definition dangling : MultiProperties.t :=
  MultiProperties.mk 0 [100; 200] [BlendMix; BlendMix] [Multi.mk [7; 7]].

(** Two implementations registered for the same namespace. *)
Definition specA : UnknownSpec.t := UnknownSpec.mk "urn:a" "a" false.
Definition specB : UnknownSpec.t := UnknownSpec.mk "urn:a" "b" true.

(** A [Marshaler] whose hook writes one empty element named [tag] and
    succeeds. *)
Definition emits (tag : string) : Marshaler.t :=
  Marshaler.mk (Type_.mk ("*" +:+ tag) Ptr ["Marshal3MF"])
    (fun x =>
       (XMLEncoder.mk
          (XMLEncoder.tokens x
             ++ [StartElement (Name.mk "" tag) [];
                 EndElement (Name.mk "" tag)]),
        None)).


Definition point : Point3D.t := Point3D.mk 1 2 3.


(** The attributes of [<s:segment v2="1"/>], and the same start tag with
    the foreign attribute of the package's decode tests, [qm:mq="other"],
    or with a foreign attribute named like a known one, [qm:v2="x"]. *)
Definition segmentAttrs : list Attr.t := [Attr.mk (Name.mk "" "v2") "1"].
Definition foreignAttr : Attr.t := Attr.mk (Name.mk "qm" "mq") "other".
Definition foreignV2 : Attr.t := Attr.mk (Name.mk "qm" "v2") "x".
Definition emptyPolygon : Slices.Polygon.t := Slices.Polygon.mk 0 [].




Definition emptyFile : modelFile.t unit :=
  modelFile.mk "/3D/3dmodel.model" true [] ∅ [] ∅.


End Samples.

(** * Properties *)

Import Errors XML Go3mf Registry Reflect Attachments Materials Slices IO3mf STL
  Samples.

(** ** Lookups in the resource graph *)

(** A linear scan for the first element whose key is the target finds
    the first such element, and nothing when there is none. *)
Section Lookups.
Context {A : Type} `{!Asset A}.

Lemma findAsset_Some (assets : list A) (id : Z) (a : A) :
  findAsset assets id = Some a
  ↔ ∃ pre post, assets = pre ++ a :: post ∧ Identify a = id
                ∧ Forall (fun b => Identify b ≠ id) pre.
Proof.
  induction assets as [|v rest IH]; simpl.
  - split; [done|]. intros (pre & post & H & _). by destruct pre.
  - case_bool_decide as Hv.
    + split.
      * intros [= ->]. by exists [], rest.
      * intros (pre & post & Heq & Hid & Hpre).
        destruct pre as [|b pre]; simpl in Heq.
        -- by injection Heq as ->.
        -- injection Heq as -> _. by apply Forall_cons in Hpre as [Hb _].
    + rewrite IH. split.
      * intros (pre & post & -> & Hid & Hpre). exists (v :: pre), post.
        split; [done|]. split; [done|]. by constructor.
      * intros (pre & post & Heq & Hid & Hpre).
        destruct pre as [|b pre]; simpl in Heq.
        -- by injection Heq as -> _.
        -- injection Heq as -> ->. apply Forall_cons in Hpre as [_ Hpre]. eauto.
Qed.

Lemma findAsset_None (assets : list A) (id : Z) :
  findAsset assets id = None ↔ Forall (fun b => Identify b ≠ id) assets.
Proof.
  induction assets as [|v rest IH]; simpl.
  - split; [constructor|done].
  - rewrite Forall_cons. case_bool_decide; [|rewrite IH; tauto].
    split; [done|]. by intros [? _].
Qed.

Lemma findObject_Some (objs : list Object.t) (id : Z) (o : Object.t) :
  findObject objs id = Some o
  ↔ ∃ pre post, objs = pre ++ o :: post ∧ Object.ID o = id
                ∧ Forall (fun b => Object.ID b ≠ id) pre.
Proof.
  induction objs as [|v rest IH]; simpl.
  - split; [done|]. intros (pre & post & H & _). by destruct pre.
  - case_bool_decide as Hv.
    + split.
      * intros [= ->]. by exists [], rest.
      * intros (pre & post & Heq & Hid & Hpre).
        destruct pre as [|b pre]; simpl in Heq.
        -- by injection Heq as ->.
        -- injection Heq as -> _. by apply Forall_cons in Hpre as [Hb _].
    + rewrite IH. split.
      * intros (pre & post & -> & Hid & Hpre). exists (v :: pre), post.
        split; [done|]. split; [done|]. by constructor.
      * intros (pre & post & Heq & Hid & Hpre).
        destruct pre as [|b pre]; simpl in Heq.
        -- by injection Heq as -> _.
        -- injection Heq as -> ->. apply Forall_cons in Hpre as [_ Hpre]. eauto.
Qed.

Lemma findObject_None (objs : list Object.t) (id : Z) :
  findObject objs id = None ↔ Forall (fun b => Object.ID b ≠ id) objs.
Proof.
  induction objs as [|v rest IH]; simpl.
  - split; [constructor|done].
  - rewrite Forall_cons. case_bool_decide; [|rewrite IH; tauto].
    split; [done|]. by intros [? _].
Qed.

(** X1. [Model.FindAsset] and [Model.FindObject] return the first asset
    (object) with the target ID in the resources of the document the path
    designates, in the order of the collection; they find nothing exactly
    when the path designates no document or no asset (object) of that
    document has the ID. *)
Theorem FindAsset_FindObject_first_match (m : Model.t A) (path : string) (id : Z) :
  (∀ a, FindAsset m path id = Some a
        ↔ ∃ rs pre post,
            FindResources m path = Some rs
            ∧ Resources.Assets rs = pre ++ a :: post
            ∧ Identify a = id
            ∧ Forall (fun b => Identify b ≠ id) pre)
  ∧ (∀ o, FindObject m path id = Some o
          ↔ ∃ rs pre post,
              FindResources m path = Some rs
              ∧ Resources.Objects rs = pre ++ o :: post
              ∧ Object.ID o = id
              ∧ Forall (fun b => Object.ID b ≠ id) pre)
  ∧ (FindAsset m path id = None
     ↔ ∀ rs, FindResources m path = Some rs ->
             Forall (fun b => Identify b ≠ id) (Resources.Assets rs))
  ∧ (FindObject m path id = None
     ↔ ∀ rs, FindResources m path = Some rs ->
             Forall (fun b => Object.ID b ≠ id) (Resources.Objects rs)).
Proof.
  unfold FindAsset, FindObject.
  destruct (FindResources m path) as [rs|].
  - split; [|split; [|split]].
    + intros a. rewrite findAsset_Some. split.
      * intros (pre & post & H). by exists rs, pre, post.
      * intros (rs' & pre & post & [= <-] & H). by exists pre, post.
    + intros o. rewrite findObject_Some. split.
      * intros (pre & post & H). by exists rs, pre, post.
      * intros (rs' & pre & post & [= <-] & H). by exists pre, post.
    + rewrite findAsset_None. split; [by intros H rs' [= <-]|auto].
    + rewrite findObject_None. split; [by intros H rs' [= <-]|auto].
  - split; [|split; [|split]].
    + intros a. split; [done|]. by intros (rs & pre & post & H & _).
    + intros o. split; [done|]. by intros (rs & pre & post & H & _).
    + split; [by intros _ rs H|done].
    + split; [by intros _ rs H|done].
Qed.

(** X2. The root resources answer to exactly two spellings, the empty
    path and the path [PathOrDefault] returns (the model's own path, or
    the default path when it has none); every other path is looked up
    among the child models. So a child stored under one of those two
    spellings is never reached, and a model that has a path of its own
    does not answer to the default path. *)
Theorem FindResources_root_or_child (m : Model.t A) (path : string) :
  FindResources m path
  = (if bool_decide (path = "" ∨ path = PathOrDefault m)
     then Some (Model.Resources m)
     else ChildModel.Resources <$> (Model.Childs m !! path))
  ∧ FindResources m (PathOrDefault m) = FindResources m ""
  ∧ PathOrDefault m ≠ "".
Proof.
  assert (DefaultModelPath ≠ "") as Hdef by done.
  unfold FindResources, PathOrDefault.
  split; [|split].
  - repeat case_bool_decide; try done; exfalso; intuition congruence.
  - repeat case_bool_decide; try done; exfalso; intuition congruence.
  - by case_bool_decide.
Qed.
End Lookups.

(** X3. [ObjectPath] returns the path of the first attribute of
    the bag that is an [ObjectPather] with a non-empty path, passing over
    nil entries, attributes of other types and empty paths; when there is
    none it returns the default path. So the result is empty only if the
    default path is. *)
Theorem ObjectPath_first_non_empty (anyAttr : list (option (option string)))
    (defaultPath : string) :
  (∀ pre path post,
      anyAttr = pre ++ Some (Some path) :: post ->
      Forall pathless pre -> path ≠ "" ->
      ObjectPath anyAttr defaultPath = path)
  ∧ (Forall pathless anyAttr -> ObjectPath anyAttr defaultPath = defaultPath)
  ∧ (defaultPath ≠ "" -> ObjectPath anyAttr defaultPath ≠ "").
Proof.
  split; [|split].
  - intros pre path post -> Hpre Hpath.
    induction Hpre as [|entry pre Hentry _ IH]; simpl.
    + by rewrite bool_decide_eq_true_2.
    + destruct entry as [[p|]|]; try done.
      rewrite bool_decide_eq_false_2; [done|].
      intros Hp. by specialize (Hentry ltac:(done) ltac:(done)) as [= ->].
  - intros Hall. induction Hall as [|entry rest Hentry _ IH]; simpl; [done|].
    destruct entry as [[p|]|]; try done.
    rewrite bool_decide_eq_false_2; [done|].
    intros Hp. by specialize (Hentry ltac:(done) ltac:(done)) as [= ->].
  - intros Hdef. induction anyAttr as [|[[p|]|] rest IH]; simpl; try done.
    by case_bool_decide.
Qed.

(** ** [UnusedID] *)

Lemma sort_Ints_sorted (ids : list Z) : Sorted Z.le (sort_Ints ids).
Proof. apply (Sorted_merge_sort Z.le). Qed.

Lemma sort_Ints_permutation (ids : list Z) : sort_Ints ids ≡ₚ ids.
Proof. apply (merge_sort_Permutation Z.le). Qed.

(** The three collections the specification lists are handled as it
    says: IDs {1,2,4} give 3, {1,2,3} give 4, no resources give 1. *)
Lemma UnusedID_listed_examples :
  UnusedID (resourcesWith [1; 2; 4]) = 3
  ∧ UnusedID (resourcesWith [1; 2; 3]) = 4
  ∧ UnusedID (resourcesWith []) = 1.
Proof. repeat split; reflexivity. Qed.

(** The scanning loop keeps the last index whose value differs, since
    nothing leaves the loop at the first one: past a differing position
    the earlier choice is forgotten. *)
Lemma lowestLoop_app (i : Z) (front back : list Z) (lowest : Z) :
  lowestLoop i (front ++ back) lowest
  = lowestLoop (i + Z.of_nat (length front)) back (lowestLoop i front lowest).
Proof.
  revert i lowest. induction front as [|id front IH]; intros i lowest; simpl.
  - f_equal. lia.
  - rewrite IH. f_equal. lia.
Qed.

Lemma lowestLoop_last_differs (i : Z) (front : list Z) (id lowest : Z) :
  id ≠ i + Z.of_nat (length front) ->
  lowestLoop i (front ++ [id]) lowest = i + Z.of_nat (length front).
Proof.
  intros Hne. rewrite lowestLoop_app. simpl.
  rewrite bool_decide_eq_true_2; done.
Qed.

Lemma collectIDs_length {A : Type} `{!Asset A} (rs : Resources.t A) :
  length (sort_Ints (collectIDs rs)) = S (length (usedIDs rs)).
Proof.
  rewrite (Permutation_length (sort_Ints_permutation _)). reflexivity.
Qed.

(** Whenever the largest ID in use is not the number of resources,
    [UnusedID] returns the number of resources. *)
Lemma UnusedID_returns_resource_count {A : Type} `{!Asset A}
    (rs : Resources.t A) :
  usedIDs rs ≠ [] ->
  List.last (sort_Ints (collectIDs rs)) 0 ≠ Z.of_nat (length (usedIDs rs)) ->
  UnusedID rs = uint32 (Z.of_nat (length (usedIDs rs))).
Proof.
  intros Hne Hlast. unfold UnusedID.
  rewrite bool_decide_eq_false_2.
  2:{ intros [Ha Ho]. apply Hne. unfold usedIDs.
      apply nil_length_inv in Ha, Ho. by rewrite Ha, Ho. }
  pose proof (collectIDs_length rs) as Hlen.
  destruct (sort_Ints (collectIDs rs)) as [|id0 ids] using rev_ind;
    [discriminate Hlen|].
  rewrite length_app in Hlen. simpl in Hlen.
  assert (length ids = length (usedIDs rs)) as Hn by lia.
  rewrite last_last in Hlast |- *.
  rewrite lowestLoop_last_differs by (rewrite Hn; lia).
  rewrite bool_decide_eq_false_2.
  - simpl. by rewrite Hn.
  - destruct (usedIDs rs); [done|]. simpl in Hn. lia.
Qed.

(** On a strictly ascending list whose values start at [i] or above,
    the first gap is absent from the list and everything from [i] up to
    it is present; without a gap the list is [i], [i+1], ... *)
Lemma firstGap_sorted (l : list Z) : ∀ i,
  StronglySorted Z.lt l ->
  Forall (fun x => i <= x) l ->
  match firstGap i l with
  | Some g => i <= g ∧ (g ∉ l) ∧ (∀ k, i <= k < g -> k ∈ l)
  | None =>
      (∀ k, k ∈ l ↔ i <= k < i + Z.of_nat (length l))
      ∧ (l ≠ [] -> List.last l 0 = i + Z.of_nat (length l) - 1)
  end.
Proof.
  induction l as [|id rest IH]; intros i Hsort Hlow; simpl.
  - split; [|done]. intros k. rewrite elem_of_nil. lia.
  - apply StronglySorted_inv in Hsort as [Hsort Hhd].
    apply Forall_cons in Hlow as [Hid Hlow].
    case_bool_decide as Hne.
    + split; [lia|]. split; [|intros k ?; lia].
      intros [Heq|Hin]%elem_of_cons; [lia|].
      rewrite Forall_forall in Hhd. apply Hhd in Hin. lia.
    + assert (id = i) as -> by lia.
      assert (Forall (fun x => i + 1 <= x) rest) as Hlow'.
      { eapply Forall_impl; [exact Hhd|]. simpl. intros; lia. }
      specialize (IH (i + 1) Hsort Hlow').
      destruct (firstGap (i + 1) rest) as [g|].
      * destruct IH as (Hg & Hnotin & Hall). split; [lia|]. split.
        -- intros [Heq|Hin]%elem_of_cons; [lia|done].
        -- intros k Hk. apply elem_of_cons.
           destruct (decide (k = i)); [by left|right]. apply Hall. lia.
      * destruct IH as [Hiff Hlast]. split.
        -- intros k. rewrite elem_of_cons, Hiff. lia.
        -- intros _. destruct rest as [|id' rest'].
           ++ simpl. lia.
           ++ change (List.last (i :: id' :: rest') 0)
                with (List.last (id' :: rest') 0).
              rewrite Hlast by done. simpl length. lia.
Qed.

Lemma sorted_NoDup_strict (l : list Z) :
  Sorted Z.le l -> NoDup l -> StronglySorted Z.lt l.
Proof.
  intros Hs Hnd. apply Sorted_StronglySorted in Hs; [|intros x y z; lia].
  induction Hs as [|x l Hs IH Hall]; [constructor|].
  apply NoDup_cons in Hnd as [Hx Hnd]. constructor; [by apply IH|].
  rewrite Forall_forall in Hall |- *. intros y Hy.
  pose proof (Hall y Hy). assert (y ≠ x) by (intros ->; done). lia.
Qed.

Section SpecAlgorithm.
Context {A : Type} `{!Asset A}.

(** The algorithm of the specification is right on every collection
    whose IDs are positive and pairwise distinct: its result is
    positive, not in use, and every smaller positive ID is in use. *)
Lemma UnusedID_spec_lowest_unused (rs : Resources.t A) :
  NoDup (usedIDs rs) ->
  Forall (fun id => 0 < id) (usedIDs rs) ->
  0 < UnusedID_spec rs
  ∧ (UnusedID_spec rs ∉ usedIDs rs)
  ∧ (∀ k, 0 < k < UnusedID_spec rs -> k ∈ usedIDs rs).
Proof.
  intros Hnd Hpos. unfold UnusedID_spec.
  change (collectIDs rs) with (0 :: usedIDs rs).
  set (ids := sort_Ints (0 :: usedIDs rs)).
  assert (ids ≡ₚ 0 :: usedIDs rs) as Hperm by apply sort_Ints_permutation.
  assert (NoDup (0 :: usedIDs rs)) as Hnd0.
  { apply NoDup_cons. split; [|done]. intros Hin.
    rewrite Forall_forall in Hpos. apply Hpos in Hin. lia. }
  assert (StronglySorted Z.lt ids) as Hsort.
  { apply sorted_NoDup_strict; [apply sort_Ints_sorted|by rewrite Hperm]. }
  assert (Forall (fun x => 0 <= x) ids) as Hlow.
  { rewrite Hperm. constructor; [lia|].
    eapply Forall_impl; [exact Hpos|]. simpl. intros; lia. }
  assert (∀ k, k ∈ ids ↔ k = 0 ∨ k ∈ usedIDs rs) as Hmem.
  { intros k. by rewrite Hperm, elem_of_cons. }
  assert (ids ≠ []) as Hne.
  { intros Heq. rewrite Heq in Hperm. by apply Permutation_nil_cons in Hperm. }
  pose proof (firstGap_sorted ids 0 Hsort Hlow) as Hgap.
  destruct (firstGap 0 ids) as [g|].
  - destruct Hgap as (Hg & Hnotin & Hall).
    assert (g ≠ 0) by (intros ->; apply Hnotin, Hmem; by left).
    split; [lia|]. split.
    + intros Hin. apply Hnotin, Hmem. by right.
    + intros k Hk. destruct (proj1 (Hmem k)) as [->|Hin]; [apply Hall; lia|lia|done].
  - destruct Hgap as [Hiff Hlast]. rewrite Hlast by done.
    assert (0 < Z.of_nat (length ids)) by (destruct ids; [done|simpl; lia]).
    split; [lia|]. split.
    + intros Hin. assert (0 + Z.of_nat (length ids) - 1 + 1 ∈ ids) as Hin'
        by (apply Hmem; by right).
      apply Hiff in Hin'. lia.
    + intros k Hk. destruct (proj1 (Hmem k)) as [->|Hin]; [apply Hiff; lia|lia|done].
Qed.
End SpecAlgorithm.

(** C1. [UnusedID] on objects with IDs {2,3}: the sorted sequence is
    [0;2;3], the first index whose value differs is 1, which is also the
    lowest unused positive ID, and the code returns 2, the last such
    index, an ID that is in use. *)
Theorem UnusedID_returns_last_differing_index :
  UnusedID (resourcesWith [2; 3]) = 2
  ∧ UnusedID_spec (resourcesWith [2; 3]) = 1
  ∧ 2 ∈ usedIDs (resourcesWith [2; 3])
  ∧ 1 ∉ usedIDs (resourcesWith [2; 3]).
Proof.
  split; [reflexivity|]. split; [reflexivity|]. split.
  - apply list_elem_of_In. simpl. tauto.
  - intros Hin. apply list_elem_of_In in Hin. simpl in Hin. lia.
Qed.

(** C2. With objects {1,2,4,5} in use [UnusedID] returns 4, and the STL
    importer then adds a second object with ID 4 and a build item that
    refers to it. *)
Theorem UnusedID_collides_with_used_ID :
  let m := modelWith [] [1; 2; 4; 5] in
  let m' := fst (DecodeContext None (Mesh.empty, None) m) in
  UnusedID (Model.Resources m) = 4
  ∧ 4 ∈ usedIDs (Model.Resources m)
  ∧ Object.ID <$> Resources.Objects (Model.Resources m') = [1; 2; 4; 5; 4]
  ∧ ¬ NoDup (usedIDs (Model.Resources m')).
Proof.
  cbn zeta. split; [reflexivity|].
  split; [apply list_elem_of_In; simpl; tauto|].
  split; [reflexivity|].
  intros Hnd. vm_compute in Hnd.
  apply NoDup_cons in Hnd as [_ Hnd]. apply NoDup_cons in Hnd as [_ Hnd].
  apply NoDup_cons in Hnd as [Hin _]. apply Hin.
  apply list_elem_of_In. simpl. tauto.
Qed.

(** ** [UnusedID] on the collections it is right on *)

Lemma lowestLoop_seqZ (n : nat) : ∀ i lowest,
  lowestLoop i (seqZ i (Z.of_nat n)) lowest = lowest.
Proof.
  induction n as [|n IH]; intros i lowest; [done|].
  rewrite seqZ_cons by lia. simpl.
  rewrite bool_decide_eq_false_2 by (intros H; by apply H).
  replace (Z.pred (Z.of_nat (S n))) with (Z.of_nat n) by lia.
  replace (Z.succ i) with (i + 1) by lia. apply IH.
Qed.

(** The scanning loop either leaves [lowest] as it was, on a slice that
    counts up from [i], or ends on one of the positions it went over. *)
Lemma lowestLoop_range (ids : list Z) : ∀ i lowest,
  (lowestLoop i ids lowest = lowest ∧ ids = seqZ i (Z.of_nat (length ids)))
  ∨ (i <= lowestLoop i ids lowest < i + Z.of_nat (length ids)).
Proof.
  induction ids as [|id rest IH]; intros i lowest; simpl.
  - left. done.
  - destruct (IH (i + 1) (if bool_decide (id ≠ i) then i else lowest))
      as [[Heq Hseq]|Hr].
    + case_bool_decide as Hid.
      * right. rewrite Heq. lia.
      * left. rewrite Heq. split; [done|].
        subst id.
        rewrite seqZ_cons by lia.
        replace (Z.pred (Z.of_nat (S (length rest)))) with (Z.of_nat (length rest)) by lia.
        replace (Z.succ i) with (i + 1) by lia. by rewrite <- Hseq.
    + right. lia.
Qed.

Lemma last_seqZ (n : nat) (i d : Z) :
  List.last (seqZ i (Z.of_nat (S n))) d = i + Z.of_nat n.
Proof. by rewrite seqZ_S, last_last. Qed.

Lemma Sorted_seqZ (n : nat) : ∀ i, Sorted Z.le (seqZ i (Z.of_nat n)).
Proof.
  induction n as [|n IH]; intros i; [constructor|].
  rewrite seqZ_cons by lia.
  replace (Z.pred (Z.of_nat (S n))) with (Z.of_nat n) by lia.
  constructor; [apply IH|].
  destruct n as [|n]; [constructor|].
  rewrite seqZ_cons by lia. constructor. lia.
Qed.

Section Dense.
Context {A : Type} `{!Asset A}.

Lemma usedIDs_nil (rs : Resources.t A) :
  length (Resources.Assets rs) = 0%nat ∧ length (Resources.Objects rs) = 0%nat
  ↔ length (usedIDs rs) = 0%nat.
Proof. unfold usedIDs. rewrite length_app, !length_fmap. lia. Qed.

(** When the IDs in use are 1, 2, ..., n in some order, the sorted
    slice of [UnusedID] is 0, 1, ..., n and the result is n + 1. *)
Lemma UnusedID_of_dense (rs : Resources.t A) :
  usedIDs rs ≡ₚ seqZ 1 (Z.of_nat (length (usedIDs rs))) ->
  Z.of_nat (length (usedIDs rs)) + 1 < 2 ^ 32 ->
  UnusedID rs = Z.of_nat (length (usedIDs rs)) + 1.
Proof.
  intros Hperm Hfit. unfold UnusedID. case_bool_decide as Hempty.
  - apply usedIDs_nil in Hempty. by rewrite Hempty.
  - rewrite usedIDs_nil in Hempty.
    set (n := length (usedIDs rs)) in *.
    assert (sort_Ints (collectIDs rs) = seqZ 0 (Z.of_nat (S n))) as ->.
    { apply (Sorted_unique Z.le);
        [apply sort_Ints_sorted | apply Sorted_seqZ |].
      rewrite sort_Ints_permutation. change (collectIDs rs) with (0 :: usedIDs rs).
      rewrite seqZ_cons by lia.
      replace (Z.pred (Z.of_nat (S n))) with (Z.of_nat n) by lia.
      by constructor. }
    cbn zeta. rewrite lowestLoop_seqZ, bool_decide_eq_true_2 by done.
    rewrite last_seqZ. unfold uint32. rewrite Z.mod_small; lia.
Qed.

(** X4. When the IDs in use by the assets and objects are exactly
    1, 2, ..., n, in any order, [UnusedID] returns n + 1: an ID that is
    not in use, every lower positive ID being in use. *)
Theorem UnusedID_dense (rs : Resources.t A) :
  usedIDs rs ≡ₚ seqZ 1 (Z.of_nat (length (usedIDs rs))) ->
  Z.of_nat (length (usedIDs rs)) + 1 < 2 ^ 32 ->
  UnusedID rs = Z.of_nat (length (usedIDs rs)) + 1
  ∧ (UnusedID rs ∉ usedIDs rs)
  ∧ (∀ k, 0 < k < UnusedID rs -> k ∈ usedIDs rs).
Proof.
  intros Hperm Hfit. rewrite (UnusedID_of_dense rs Hperm Hfit). split; [done|].
  remember (length (usedIDs rs)) as n eqn:Hn. clear Hn. split.
  - rewrite Hperm, elem_of_seqZ. lia.
  - intros k Hk. rewrite Hperm, elem_of_seqZ. lia.
Qed.

(** X5. With fewer than 2^32 - 1 resources, [UnusedID] returns a value
    from 1 to one past the number of resources: never 0, the value the
    validators read as a missing ID. *)
Theorem UnusedID_between_1_and_count (rs : Resources.t A) :
  Z.of_nat (length (usedIDs rs)) + 1 < 2 ^ 32 ->
  1 <= UnusedID rs <= Z.of_nat (length (usedIDs rs)) + 1.
Proof.
  intros Hfit. unfold UnusedID. case_bool_decide as Hempty; [lia|].
  rewrite usedIDs_nil in Hempty.
  pose proof (collectIDs_length rs) as Hlen.
  destruct (sort_Ints (collectIDs rs)) as [|id0 rest]; [done|].
  simpl in Hlen. injection Hlen as Hlen. cbn zeta.
  assert (lowestLoop 0 (id0 :: rest) 0 = lowestLoop 1 rest 0) as ->
    by (simpl; by case_bool_decide).
  destruct (lowestLoop_range rest 1 0) as [[-> Hseq]|Hr].
  - rewrite bool_decide_eq_true_2 by done.
    destruct (length rest) as [|n] eqn:Hn; [lia|].
    destruct rest as [|id1 rest']; [done|].
    change (List.last (id0 :: id1 :: rest') 0) with (List.last (id1 :: rest') 0).
    rewrite Hseq, last_seqZ. unfold uint32. rewrite Z.mod_small; lia.
  - rewrite bool_decide_eq_false_2 by lia.
    unfold uint32. rewrite Z.mod_small; lia.
Qed.
End Dense.

(** The IDs 3, 1, 2 of three objects are dense: the next one is 4. *)
Lemma UnusedID_dense_witness :
  UnusedID (resourcesWith [3; 1; 2]) = 4
  ∧ (UnusedID (resourcesWith [3; 1; 2]) ∉ usedIDs (resourcesWith [3; 1; 2]))
  ∧ (∀ k, 0 < k < UnusedID (resourcesWith [3; 1; 2]) ->
          k ∈ usedIDs (resourcesWith [3; 1; 2])).
Proof.
  apply (UnusedID_dense (resourcesWith [3; 1; 2])).
  - apply (bool_decide_unpack _). vm_compute. exact I.
  - vm_compute. reflexivity.
Defined.

Lemma UnusedID_between_1_and_count_witness :
  1 <= UnusedID (resourcesWith [2; 3]) <= 3.
Proof.
  apply (UnusedID_between_1_and_count (resourcesWith [2; 3])).
  vm_compute. reflexivity.
Defined.

(** ** Importing into a model whose IDs are dense *)

Section Importing.
Context {A : Type} `{!Asset A}.

(** One successful import into a model whose IDs are dense. *)
Lemma DecodeContext_dense (mesh : Mesh.t) (m : Model.t A) :
  let n := length (usedIDs (Model.Resources m)) in
  usedIDs (Model.Resources m) ≡ₚ seqZ 1 (Z.of_nat n) ->
  Z.of_nat n + 1 < 2 ^ 32 ->
  let m' := fst (DecodeContext None (mesh, None) m) in
  Resources.Assets (Model.Resources m') = Resources.Assets (Model.Resources m)
  ∧ Resources.Objects (Model.Resources m')
    = Resources.Objects (Model.Resources m)
        ++ [Object.mk (Z.of_nat n + 1) "" 0 0 (Some mesh)]
  ∧ Build.Items (Model.Build m')
    = Build.Items (Model.Build m) ++ [Item.mk (Z.of_nat n + 1) ""]
  ∧ usedIDs (Model.Resources m') ≡ₚ seqZ 1 (Z.of_nat (S n))
  ∧ length (usedIDs (Model.Resources m')) = S n.
Proof.
  intros n Hperm Hfit. cbn zeta. unfold DecodeContext. cbn [fst].
  rewrite (UnusedID_of_dense _ Hperm Hfit). fold n.
  cbn [Model.Resources Model.Build Resources.Assets Resources.Objects Build.Items].
  split; [done|]. split; [done|]. split; [done|].
  unfold usedIDs in *.
  cbn [Model.Resources Resources.Assets Resources.Objects].
  rewrite fmap_app, app_assoc. cbn [fmap list_fmap Object.ID].
  split.
  - rewrite seqZ_S, Hperm. by replace (1 + Z.of_nat n) with (Z.of_nat n + 1) by lia.
  - rewrite length_app. simpl. fold n. lia. 
Qed.

(** X6. Importing STL files one after the other into a model whose IDs
    in use are exactly 1, ..., n (an empty model, n = 0, in particular):
    the k-th import adds one object with ID n + k and one build item that
    refers to it, after the objects and items that were there; assets
    are left alone. No two resources of the result share an ID. *)
Theorem DecodeAll_numbers_consecutively (meshes : list Mesh.t) (m : Model.t A) :
  let n := length (usedIDs (Model.Resources m)) in
  usedIDs (Model.Resources m) ≡ₚ seqZ 1 (Z.of_nat n) ->
  Z.of_nat n + Z.of_nat (length meshes) < 2 ^ 32 ->
  let m' := DecodeAll meshes m in
  Resources.Assets (Model.Resources m') = Resources.Assets (Model.Resources m)
  ∧ Resources.Objects (Model.Resources m')
    = Resources.Objects (Model.Resources m)
        ++ zip_with (fun id mesh => Object.mk id "" 0 0 (Some mesh))
             (seqZ (Z.of_nat n + 1) (Z.of_nat (length meshes))) meshes
  ∧ Item.ObjectID <$> Build.Items (Model.Build m')
    = (Item.ObjectID <$> Build.Items (Model.Build m))
        ++ seqZ (Z.of_nat n + 1) (Z.of_nat (length meshes))
  ∧ NoDup (usedIDs (Model.Resources m')).
Proof.
  cbn zeta. revert m.
  induction meshes as [|mesh meshes IH]; intros m Hperm Hfit.
  - simpl. rewrite !app_nil_r. repeat split; try done.
    rewrite Hperm. apply NoDup_seqZ.
  - simpl length in *.
    destruct (DecodeContext_dense mesh m Hperm ltac:(lia))
      as (Ha & Ho & Hi & Hperm' & Hlen').
    change (DecodeAll (mesh :: meshes) m)
      with (DecodeAll meshes (fst (DecodeContext None (mesh, None) m))).
    set (m1 := fst (DecodeContext None (mesh, None) m)) in *.
    rewrite <- Hlen' in Hperm'.
    destruct (IH m1 Hperm' ltac:(lia)) as (Ha' & Ho' & Hi' & Hnd).
    rewrite Hlen' in Ho', Hi'.
    split; [by rewrite Ha', Ha|]. split; [|split; [|done]].
    + rewrite Ho', Ho, <- app_assoc. f_equal.
      rewrite (seqZ_cons _ (Z.of_nat (S (length meshes)))) by lia. simpl.
      do 3 f_equal; lia.
    + rewrite Hi', Hi, fmap_app, <- app_assoc. f_equal.
      rewrite (seqZ_cons _ (Z.of_nat (S (length meshes)))) by lia. simpl.
      do 2 f_equal; lia.
Qed.
End Importing.

(** Two imports into the model whose objects have the IDs 2 and 1. *)
Lemma DecodeAll_numbers_consecutively_witness :
  let m := modelWith [] [2; 1] in
  let m' := DecodeAll [Mesh.empty; Mesh.empty] m in
  Resources.Assets (Model.Resources m') = []
  ∧ Resources.Objects (Model.Resources m')
    = [object 2; object 1; object 3; object 4]
  ∧ Item.ObjectID <$> Build.Items (Model.Build m') = [3; 4]
  ∧ NoDup (usedIDs (Model.Resources m')).
Proof.
  apply (DecodeAll_numbers_consecutively [Mesh.empty; Mesh.empty]
           (modelWith [] [2; 1])).
  - apply (bool_decide_unpack _). vm_compute. exact I.
  - vm_compute. reflexivity.
Defined.

(** ** The registry *)

(** [Register] returns for every argument and registry: it stores the
    implementation under the namespace whatever was there. *)
Lemma Register_always_returns {Spec : Type} (namespace : string)
    (spec : option Spec) (specs : gmap string (option Spec)) :
  Register namespace spec specs = Returns (<[namespace := spec]> specs).
Proof. reflexivity. Qed.

(** C3. Registering the same namespace twice returns and silently
    replaces the first implementation, and registering a nil
    implementation returns and stores nil; the documented behaviour in
    both cases is a panic. *)
Theorem Register_twice_or_nil_does_not_panic :
  (∃ specs1,
      Register "urn:a" (Some specA) ∅ = Returns specs1
      ∧ Register "urn:a" (Some specB) specs1
        = Returns (<["urn:a" := Some specB]> ∅)
      ∧ ∃ msg, Register_documented "urn:a" (Some specB) specs1 = Panics msg)
  ∧ (Register "urn:a" (@None UnknownSpec.t) ∅
     = Returns (<["urn:a" := None]> ∅)
     ∧ loadExtension (<["urn:a" := @None UnknownSpec.t]> ∅) "urn:a"
       = (None, true)
     ∧ ∃ msg, Register_documented "urn:a" (@None UnknownSpec.t) ∅ = Panics msg).
Proof.
  split.
  - exists (<["urn:a" := Some specA]> ∅). split; [reflexivity|]. split.
    + unfold Register. by rewrite insert_insert_eq.
    + eexists. unfold Register_documented. by rewrite lookup_insert_eq.
  - split; [reflexivity|]. split.
    + unfold loadExtension. by rewrite lookup_insert_eq.
    + eexists. reflexivity.
Qed.

(** ** The registry: registration followed by lookups *)

(** X7. What [Register] stores under a namespace is what
    [loadExtension] then returns for it, with [ok = true], a nil
    implementation included; [loadValidator] returns it as well when it
    is not nil and implements [spec.ValidateSpec], and nothing
    otherwise. Lookups of every other namespace are as before the
    registration. *)
Theorem Register_then_load {Spec : Type} (isValidateSpec : Spec -> bool)
    (namespace : string) (spec : option Spec)
    (specs : gmap string (option Spec)) :
  ∃ specs',
    Register namespace spec specs = Returns specs'
    ∧ loadExtension specs' namespace = (spec, true)
    ∧ loadValidator isValidateSpec specs' namespace
      = match spec with
        | Some ext => if isValidateSpec ext then (Some ext, true) else (None, false)
        | None => (None, false)
        end
    ∧ ∀ ns, ns ≠ namespace ->
        loadExtension specs' ns = loadExtension specs ns
        ∧ loadValidator isValidateSpec specs' ns
          = loadValidator isValidateSpec specs ns.
Proof.
  exists (<[namespace := spec]> specs). split; [done|].
  unfold loadExtension, loadValidator. rewrite lookup_insert_eq.
  split; [done|]. split; [by destruct spec|].
  intros ns Hns. by rewrite lookup_insert_ne.
Qed.

(** ** The attachment bags *)

(** Once a hook succeeds, [Extension.encode] returns: the entries after
    it are never marshalled. *)
Lemma Extension_encode_returns_at_first_success (ext : Marshaler.t)
    (rest : Extension) (x x' : XMLEncoder.t) :
  Marshaler.Marshal3MF ext x = (x', None) ->
  Extension_encode (Some ext :: rest) x = Returns (x', None).
Proof. intros H. simpl. by rewrite H. Qed.

(** A hook that fails does not stop [Extension.encode], and its error is
    dropped. *)
Lemma Extension_encode_skips_failure (ext : Marshaler.t) (rest : Extension)
    (x x' : XMLEncoder.t) (err : error) :
  Marshaler.Marshal3MF ext x = (x', Some err) ->
  Extension_encode (Some ext :: rest) x = Extension_encode rest x'.
Proof. intros H. simpl. by rewrite H. Qed.

(** The sibling [AnyAttr.encode] does ask every entry. *)
Lemma AnyAttr_encode_all (e : list MarshalerAttr.t) (x : XMLEncoder.t)
    (startAttr : list XML.Attr.t) :
  Forall (fun ext => snd (MarshalerAttr.Marshal3MFAttr ext x) = None) e ->
  AnyAttr_encode (Some <$> e) x startAttr
  = Returns (startAttr
             ++ concat ((fun ext => fst (MarshalerAttr.Marshal3MFAttr ext x)) <$> e)).
Proof.
  intros Hall. revert startAttr.
  induction Hall as [|ext e Hext _ IH]; intros startAttr; simpl.
  - by rewrite app_nil_r.
  - destruct (MarshalerAttr.Marshal3MFAttr ext x) as [att err] eqn:E.
    simpl in Hext. subst err. rewrite IH. by rewrite <- app_assoc.
Qed.

(** C4. Encoding an extension list of two marshalers that both succeed
    emits the element of the first one only: the second is not
    re-emitted, so decoding the output cannot give the second back. *)
Theorem Extension_encode_emits_first_only :
  Extension_encode [Some (emits "a"); Some (emits "b")] (XMLEncoder.mk [])
  = Returns
      (XMLEncoder.mk
         [StartElement (Name.mk "" "a") []; EndElement (Name.mk "" "a")],
       None).
Proof. reflexivity. Qed.

(** On a bag that holds something, the target is validated first: a nil
    target, a non-pointer and a nil pointer make both [Get] methods
    panic. *)
Lemma Get_validates_target_of_non_empty_bag (a : option MarshalerAttr.t)
    (e : AnyAttr) (b : option Marshaler.t) (e' : Extension) (typ : Type_.t) :
  AnyAttr_Get (a :: e) NilInterface = Panics "go3mf: target cannot be nil"
  ∧ AnyAttr_Get (a :: e) (NonPointer typ)
    = Panics "go3mf: target must be a non-nil pointer"
  ∧ AnyAttr_Get (a :: e) (Pointer typ true)
    = Panics "go3mf: target must be a non-nil pointer"
  ∧ Extension_Get (b :: e') NilInterface = Panics "go3mf: target cannot be nil"
  ∧ Extension_Get (b :: e') (NonPointer typ)
    = Panics "go3mf: target must be a non-nil pointer"
  ∧ Extension_Get (b :: e') (Pointer typ true)
    = Panics "go3mf: target must be a non-nil pointer".
Proof. repeat split; reflexivity. Qed.

(** Retrieval is first match wins: the value stored is the first entry,
    in insertion order, whose type is assignable to the target's. *)
Lemma firstAssignable_first_match {V : Type} (typeOf : V -> Type_.t)
    (front : list (option V)) (v : V) (back : list (option V))
    (targetType : Type_.t) :
  Forall (fun entry => match entry with
                       | Some u => AssignableTo (typeOf u) targetType = false
                       | None => True
                       end) front ->
  AssignableTo (typeOf v) targetType = true ->
  firstAssignable typeOf (front ++ Some v :: back) targetType = Some v.
Proof.
  intros Hfront Hv. induction Hfront as [|[u|] front Hu _ IH]; simpl.
  - by rewrite Hv.
  - by rewrite Hu.
  - done.
Qed.

(** C10. On an empty (or nil) bag both [Get] methods return false for
    every target, nil, non-pointer, nil pointer or pointer to any type,
    and neither stores anything; a panic of either method implies a
    non-empty bag. *)
Theorem Get_on_empty_bag_returns_false (target : Target) :
  AnyAttr_Get [] target = Returns (false, None)
  ∧ Extension_Get [] target = Returns (false, None)
  ∧ (∀ e msg, AnyAttr_Get e target = Panics msg -> e ≠ [])
  ∧ (∀ e msg, Extension_Get e target = Panics msg -> e ≠ []).
Proof.
  split; [reflexivity|]. split; [reflexivity|].
  split; intros e msg Hp ->; discriminate Hp.
Qed.

(** ** The attachment bags: [Get] on a valid target, and [encode] *)

(** The scan of [Get] returns the first entry that is not nil and whose
    type is assignable to the target type. *)
Lemma firstAssignable_Some {V : Type} (typeOf : V -> Type_.t)
    (e : list (option V)) (targetType : Type_.t) (v : V) :
  firstAssignable typeOf e targetType = Some v
  ↔ ∃ pre post,
      e = pre ++ Some v :: post
      ∧ AssignableTo (typeOf v) targetType = true
      ∧ Forall (fun entry => ∀ u, entry = Some u ->
                               AssignableTo (typeOf u) targetType = false) pre.
Proof.
  induction e as [|[u|] rest IH]; simpl.
  - split; [done|]. intros (pre & post & H & _). by destruct pre.
  - destruct (AssignableTo (typeOf u) targetType) eqn:Hu.
    + split.
      * intros [= ->]. exists [], rest. by repeat split.
      * intros (pre & post & Heq & Hv & Hpre).
        destruct pre as [|b pre]; simpl in Heq.
        -- by injection Heq as ->.
        -- injection Heq as <- _. apply Forall_cons in Hpre as [Hb _].
           specialize (Hb u eq_refl). congruence.
    + rewrite IH. split.
      * intros (pre & post & -> & Hv & Hpre). exists (Some u :: pre), post.
        split; [done|]. split; [done|]. constructor; [|done].
        by intros u' [= <-].
      * intros (pre & post & Heq & Hv & Hpre).
        destruct pre as [|b pre]; simpl in Heq.
        -- injection Heq as <- _. congruence.
        -- injection Heq as <- ->. apply Forall_cons in Hpre as [_ Hpre]. eauto.
  - rewrite IH. split.
    + intros (pre & post & -> & Hv & Hpre). exists (None :: pre), post.
      split; [done|]. split; [done|]. by constructor.
    + intros (pre & post & Heq & Hv & Hpre).
      destruct pre as [|b pre]; simpl in Heq; [done|].
      injection Heq as <- ->. apply Forall_cons in Hpre as [_ Hpre]. eauto.
Qed.

Lemma firstAssignable_None {V : Type} (typeOf : V -> Type_.t)
    (e : list (option V)) (targetType : Type_.t) :
  firstAssignable typeOf e targetType = None
  ↔ Forall (fun entry => ∀ u, entry = Some u ->
                           AssignableTo (typeOf u) targetType = false) e.
Proof.
  induction e as [|[u|] rest IH]; simpl.
  - split; [constructor|done].
  - rewrite Forall_cons. destruct (AssignableTo (typeOf u) targetType) eqn:Hu.
    + split; [done|]. intros [H _]. specialize (H u eq_refl). congruence.
    + rewrite IH. split; [|tauto]. intros H. split; [|done]. by intros u' [= <-].
  - rewrite Forall_cons, IH. split; [|tauto]. intros H. by split.
Qed.

Lemma scanned_firstAssignable {V : Type} (typeOf : V -> Type_.t)
    (e : list (option V)) (el : Type_.t) :
  scanned typeOf e el
    (match firstAssignable typeOf e el with
     | Some v => Returns (true, Some v)
     | None => Returns (false, None)
     end).
Proof.
  pose proof (firstAssignable_Some typeOf e el) as HS.
  pose proof (firstAssignable_None typeOf e el) as HN.
  destruct (firstAssignable typeOf e el) as [w|]; (split; [|split]).
  - intros v. rewrite <- HS. split; congruence.
  - rewrite <- HN. split; discriminate.
  - by exists (Some w).
  - intros v. rewrite <- HS. split; discriminate.
  - by rewrite <- HN.
  - by exists None.
Qed.

(** X8. With a valid target, a non-nil pointer to an interface type
    or to a type that implements the marshaler interface of the bag,
    [AnyAttr.Get] and [Extension.Get] never panic. Each returns true and
    stores a value exactly when that value is the first entry of the bag,
    in bag order, that is not nil and whose type is assignable to the
    target type; it returns false, storing nothing, exactly when no entry
    is. *)
Theorem Get_first_assignable (attrs : AnyAttr) (e : Extension) (el : Type_.t) :
  (Type_.Kind el = Interface ∨ Implements el marshalerAttrType = true ->
   scanned MarshalerAttr.TypeOf attrs el (AnyAttr_Get attrs (Pointer el false)))
  ∧ (Type_.Kind el = Interface ∨ Implements el marshalerType = true ->
     scanned Marshaler.TypeOf e el (Extension_Get e (Pointer el false))).
Proof.
  split; intros Hvalid.
  - unfold AnyAttr_Get.
    assert (bool_decide (Type_.Kind el ≠ Interface)
            && negb (Implements el marshalerAttrType) = false) as Hcheck.
    { destruct Hvalid as [Hk|Hi].
      - by rewrite bool_decide_eq_false_2 by (intros H; by apply H).
      - rewrite Hi. apply andb_false_r. }
    destruct attrs as [|entry attrs'].
    + apply (scanned_firstAssignable MarshalerAttr.TypeOf [] el).
    + rewrite bool_decide_eq_false_2 by done. cbn match. rewrite Hcheck.
      apply scanned_firstAssignable.
  - unfold Extension_Get.
    assert (bool_decide (Type_.Kind el ≠ Interface)
            && negb (Implements el marshalerType) = false) as Hcheck.
    { destruct Hvalid as [Hk|Hi].
      - by rewrite bool_decide_eq_false_2 by (intros H; by apply H).
      - rewrite Hi. apply andb_false_r. }
    destruct e as [|entry e'].
    + apply (scanned_firstAssignable Marshaler.TypeOf [] el).
    + rewrite bool_decide_eq_false_2 by done. cbn match. rewrite Hcheck.
      apply scanned_firstAssignable.
Qed.

(** On a bag of a nil entry and two marshalers, with a pointer to the
    type of the second marshaler as target: the second is stored. *)
Lemma Get_first_assignable_witness :
  Extension_Get [None; Some (emits "a"); Some (emits "b")]
    (Pointer (Marshaler.TypeOf (emits "b")) false)
  = Returns (true, Some (emits "b")).
Proof.
  destruct (Get_first_assignable []
              [None; Some (emits "a"); Some (emits "b")]
              (Marshaler.TypeOf (emits "b"))) as [_ Hext].
  destruct Hext as (Hsome & _ & _); [right; reflexivity|].
  apply Hsome. exists [None; Some (emits "a")], [].
  split; [reflexivity|]. split; [reflexivity|].
  repeat constructor; intros u [= <-]; reflexivity.
Defined.

(** X9. [AnyAttr.encode] asks every entry of a bag without nil
    entries for its attributes and appends, in bag order, those of the
    entries whose hook succeeds; an entry whose hook fails contributes
    nothing and its error is dropped. A nil entry makes it panic once the
    entries before it have been asked. *)
Theorem AnyAttr_encode_collects_successes (e : list MarshalerAttr.t)
    (rest : AnyAttr) (x : XMLEncoder.t) (startAttr : list XML.Attr.t) :
  AnyAttr_encode (Some <$> e) x startAttr
  = Returns
      (startAttr
       ++ mjoin ((fun ext => match MarshalerAttr.Marshal3MFAttr ext x with
                             | (att, None) => att
                             | (_, Some _) => []
                             end) <$> e))
  ∧ AnyAttr_encode ((Some <$> e) ++ None :: rest) x startAttr
    = Panics "runtime error: invalid memory address or nil pointer dereference".
Proof.
  split; revert startAttr; induction e as [|ext e IH]; intros startAttr; simpl.
  - by rewrite app_nil_r.
  - destruct (MarshalerAttr.Marshal3MFAttr ext x) as [att [err|]]; rewrite IH.
    + done.
    + by rewrite <- app_assoc.
  - done.
  - destruct (MarshalerAttr.Marshal3MFAttr ext x) as [att [err|]]; apply IH.
Qed.

(** X10. [Extension.encode] never returns an error. Whatever the hooks
    of the bag return, the result is nil: a failing hook is stepped over
    and its error forgotten, and the first hook that succeeds ends the
    loop. A bag with no nil entry always returns. *)
Theorem Extension_encode_never_fails (e : Extension) (x : XMLEncoder.t) :
  (∀ x' err, Extension_encode e x ≠ Returns (x', Some err))
  ∧ (Forall is_Some e -> ∃ x', Extension_encode e x = Returns (x', None)).
Proof.
  split.
  - revert x. induction e as [|[ext|] e IH]; intros x x' err; simpl; [done| |done].
    destruct (Marshaler.Marshal3MF ext x) as [x1 [err1|]]; [apply IH|done].
  - intros Hall. revert x.
    induction Hall as [|entry e [ext ->] _ IH]; intros x; simpl.
    + by exists x.
    + destruct (Marshaler.Marshal3MF ext x) as [x1 [err1|]];
        [apply IH|by exists x1].
Qed.

(** ** The validators of the materials extension *)

Section Validators.
Variables (m : Model.t asset) (path : string).

Lemma pidStep_lengths j pid s :
  pidState.lengths (pidStep m path j pid s)
  = <[j := recordedLen m path pid]> (pidState.lengths s)
  ∨ (pidState.lengths (pidStep m path j pid s) = pidState.lengths s
     ∧ recordedLen m path pid = 0).
Proof.
  unfold pidStep, recordedLen. destruct s as [errs cc ru ls].
  destruct (FindAsset m path pid) as [[]|]; simpl; auto.
  destruct (negb ru); simpl; auto.
Qed.

Lemma pidLoop_lengths pids : ∀ j s pre,
  pidState.lengths s = pre ++ replicate (length pids) 0 ->
  length pre = j ->
  pidState.lengths (pidLoop m path j pids s)
  = pre ++ (recordedLen m path <$> pids).
Proof.
  induction pids as [|pid pids IH]; intros j s pre Hls Hj; simpl.
  - simpl in Hls. by rewrite Hls.
  - rewrite (IH (S j) _ (pre ++ [recordedLen m path pid])).
    + by rewrite <- app_assoc.
    + simpl in Hls. rewrite <- app_assoc. simpl.
      destruct (pidStep_lengths j pid s) as [-> | [-> Hz]].
      * rewrite Hls, insert_app_r_alt by lia.
        replace (j - length pre)%nat with 0%nat by lia. done.
      * by rewrite Hz.
    + rewrite length_app. simpl. lia.
Qed.

Lemma pidScan_lengths r errs :
  pidState.lengths (pidScan m path r errs)
  = recordedLen m path <$> MultiProperties.PIDs r.
Proof. unfold pidScan. by apply (pidLoop_lengths _ 0%nat _ []). Qed.

Lemma pidStep_errs j pid s :
  ∃ tail, pidState.errs (pidStep m path j pid s) = pidState.errs s ++ tail
          ∧ Forall pidDiag tail.
Proof.
  unfold pidStep, Append, pidDiag. destruct s as [errs cc ru ls].
  destruct (FindAsset m path pid) as [[]|]; simpl;
    repeat case_bool_decide; try destruct ru; simpl;
    first [ by (exists []; rewrite app_nil_r)
          | eexists [_]; split; [reflexivity|];
            constructor; [set_solver | constructor] ].
Qed.

Lemma pidLoop_errs pids : ∀ j s,
  ∃ tail, pidState.errs (pidLoop m path j pids s) = pidState.errs s ++ tail
          ∧ Forall pidDiag tail.
Proof.
  induction pids as [|pid pids IH]; intros j s; simpl.
  - exists []. by rewrite app_nil_r.
  - destruct (IH (S j) (pidStep m path j pid s)) as (t2 & -> & H2).
    destruct (pidStep_errs j pid s) as (t1 & -> & H1).
    exists (t1 ++ t2). rewrite app_assoc. split; [done|].
    by apply Forall_app.
Qed.

Lemma multiLoop_oobDiags n ls multis : ∀ j errs,
  multiLoop n ls j multis errs = errs ++ oobDiags n ls j multis.
Proof.
  induction multis as [|mu multis IH]; intros j errs; simpl.
  - by rewrite app_nil_r.
  - rewrite IH. unfold Append.
    destruct (slotLoop n ls 0 (Multi.PIndices mu)); simpl.
    + by rewrite <- app_assoc.
    + done.
Qed.

Lemma slotLoop_true n ls pin : ∀ k,
  slotLoop n ls k pin = true
  ↔ ∃ i index, pin !! i = Some index
               ∧ Z.of_nat (k + i) < n ∧ ls !!! (k + i)%nat < index.
Proof.
  induction pin as [|index pin IH]; intros k; simpl.
  - split; [done|]. by intros (i & idx & H & _).
  - destruct (bool_decide (Z.of_nat k < n) && bool_decide (ls !!! k < index)) eqn:E.
    + split; [intros _|done].
      apply andb_true_iff in E as [E1 E2].
      apply bool_decide_eq_true in E1, E2.
      exists 0%nat, index. rewrite Nat.add_0_r. done.
    + rewrite IH. split.
      * intros (i & idx & H & H1 & H2). exists (S i), idx.
        replace (k + S i)%nat with (S k + i)%nat by lia. done.
      * intros (i & idx & H & H1 & H2). destruct i as [|i].
        -- simpl in H. injection H as <-. rewrite Nat.add_0_r in *.
           apply andb_false_iff in E as [E|E];
             apply bool_decide_eq_false in E; lia.
        -- exists i, idx. replace (S k + i)%nat with (k + S i)%nat by lia. done.
Qed.

Lemma elem_of_oobDiags n ls multis : ∀ j e,
  e ∈ oobDiags n ls j multis
  ↔ ∃ i mu, multis !! i = Some mu
            ∧ slotLoop n ls 0 (Multi.PIndices mu) = true
            ∧ e = WrapIndex ErrIndexOutOfBounds "Multi" (Z.of_nat (j + i)).
Proof.
  induction multis as [|mu multis IH]; intros j e; simpl.
  - split; [by intros ?%elem_of_nil|]. by intros (i & mu & H & _).
  - rewrite elem_of_app, IH. split.
    + intros [H|(i & mu' & H & Hs & ->)].
      * destruct (slotLoop n ls 0 (Multi.PIndices mu)) eqn:E;
          [|by apply elem_of_nil in H].
        apply list_elem_of_singleton in H as ->.
        exists 0%nat, mu. rewrite Nat.add_0_r. done.
      * exists (S i), mu'. replace (j + S i)%nat with (S j + i)%nat by lia. done.
    + intros (i & mu' & H & Hs & ->). destruct i as [|i].
      * simpl in H. injection H as <-. left. rewrite Hs, Nat.add_0_r.
        by apply list_elem_of_singleton.
      * right. exists i, mu'. replace (S j + i)%nat with (j + S i)%nat by lia. done.
Qed.


Lemma validateMultiProps_shape r :
  ∃ tail,
    validateMultiProps m path r
    = multiPropsHead r ++ tail
        ++ oobDiags (len (MultiProperties.PIDs r))
             (recordedLen m path <$> MultiProperties.PIDs r) 0
             (MultiProperties.Multis r)
    ∧ pidState.errs (pidScan m path r (multiPropsHead r))
      = multiPropsHead r ++ tail
    ∧ Forall pidDiag tail.
Proof.
  unfold validateMultiProps. rewrite multiLoop_oobDiags, pidScan_lengths.
  unfold pidScan.
  destruct (pidLoop_errs (MultiProperties.PIDs r) 0
              (pidState.mk (multiPropsHead r) 0 false
                 (replicate (length (MultiProperties.PIDs r)) 0)))
    as (tail & Htail & Hall).
  exists tail. simpl in Htail. rewrite Htail, <- app_assoc. done.
Qed.

Lemma pidDiag_not_blend e : pidDiag e -> e ≠ ErrMultiBlend.
Proof.
  unfold pidDiag. intros H ->.
  repeat (apply elem_of_cons in H as [H|H]; [discriminate H|]).
  by apply elem_of_nil in H.
Qed.

Lemma ErrMultiBlend_in_head r :
  ErrMultiBlend ∈ multiPropsHead r
  ↔ len (MultiProperties.BlendMethods r) > len (MultiProperties.PIDs r) - 1.
Proof.
  unfold multiPropsHead, Append.
  repeat case_bool_decide; simpl; split; intros Hin; try done;
    try (repeat (apply elem_of_cons in Hin as [Hin|Hin]; [discriminate Hin|]);
         by apply elem_of_nil in Hin);
    try (apply list_elem_of_In; simpl; tauto).
Qed.


Lemma countOf_app e l1 l2 : countOf e (l1 ++ l2) = (countOf e l1 + countOf e l2)%nat.
Proof. apply count_occ_app. Qed.

Lemma countOf_head_missing r : countOf ErrMissingResource (multiPropsHead r) = 0%nat.
Proof. unfold multiPropsHead, Append. by repeat case_bool_decide. Qed.

Lemma countOf_oobDiags_sentinel name n ls multis : ∀ j,
  countOf (Sentinel name) (oobDiags n ls j multis) = 0%nat.
Proof.
  induction multis as [|mu multis IH]; intros j; simpl; [done|].
  rewrite countOf_app, IH. by destruct (slotLoop _ _ _ _).
Qed.

(** How the first loop treats dangling property IDs: the flag is
    raised at the first one and the diagnostic is added only then. *)
Lemma pidStep_missing j pid s :
  pidState.resourceUndefined (pidStep m path j pid s)
  = pidState.resourceUndefined s || isDangling m path pid
  ∧ countOf ErrMissingResource (pidState.errs (pidStep m path j pid s))
    = (countOf ErrMissingResource (pidState.errs s)
       + if negb (pidState.resourceUndefined s) && isDangling m path pid
         then 1 else 0)%nat.
Proof.
  unfold pidStep, isDangling, Append. destruct s as [errs cc ru ls].
  destruct (FindAsset m path pid) as [[]|]; simpl;
    rewrite ?orb_false_r, ?andb_false_r, ?orb_true_r, ?andb_true_r, ?Nat.add_0_r;
    repeat case_bool_decide; try destruct ru; simpl;
    rewrite ?countOf_app; simpl; split; try done; lia.
Qed.

Lemma pidLoop_missing pids : ∀ j s,
  countOf ErrMissingResource (pidState.errs (pidLoop m path j pids s))
  = (countOf ErrMissingResource (pidState.errs s)
     + if negb (pidState.resourceUndefined s)
          && existsb (isDangling m path) pids
       then 1 else 0)%nat.
Proof.
  induction pids as [|pid pids IH]; intros j s; simpl.
  - rewrite andb_false_r. lia.
  - rewrite IH. destruct (pidStep_missing j pid s) as [-> ->].
    destruct (pidState.resourceUndefined s), (isDangling m path pid),
      (existsb (isDangling m path) pids); simpl; lia.
Qed.

Lemma validateMultiProps_missing_once r :
  countOf ErrMissingResource (validateMultiProps m path r)
  = if existsb (isDangling m path) (MultiProperties.PIDs r)
    then 1%nat else 0%nat.
Proof.
  unfold validateMultiProps. rewrite multiLoop_oobDiags, countOf_app.
  unfold ErrMissingResource at 2. rewrite countOf_oobDiags_sentinel.
  unfold pidScan. rewrite pidLoop_missing. simpl.
  rewrite countOf_head_missing.
  by destruct (existsb _ _).
Qed.

(** How the first loop treats color groups: the diagnostic is added at
    the second one only. *)
Lemma pidStep_colors j pid s :
  pidState.colorCount (pidStep m path j pid s)
  = pidState.colorCount s + (if isColorGroup m path pid then 1 else 0)%Z
  ∧ countOf ErrMultiColors (pidState.errs (pidStep m path j pid s))
    = (countOf ErrMultiColors (pidState.errs s)
       + if isColorGroup m path pid && bool_decide (pidState.colorCount s = 1%Z)
         then 1%nat else 0%nat)%nat.
Proof.
  unfold pidStep, isColorGroup, Append. destruct s as [errs cc ru ls].
  destruct (FindAsset m path pid) as [[]|]; simpl;
    repeat case_bool_decide; try destruct ru; simpl;
    rewrite ?countOf_app; simpl; split; try done; lia.
Qed.

Lemma colorGroupRefs_cons pid pids :
  colorGroupRefs m path (pid :: pids)
  = (if isColorGroup m path pid then 1 else 0) + colorGroupRefs m path pids.
Proof.
  unfold colorGroupRefs, len. rewrite filter_cons.
  case_decide as Hcg; destruct (isColorGroup m path pid);
    simpl; try done; lia.
Qed.

Lemma colorGroupRefs_nonneg pids : 0 <= colorGroupRefs m path pids.
Proof. unfold colorGroupRefs, len. lia. Qed.

Lemma pidLoop_colors pids : ∀ j s,
  countOf ErrMultiColors (pidState.errs (pidLoop m path j pids s))
  = (countOf ErrMultiColors (pidState.errs s)
     + if bool_decide ((pidState.colorCount s <= 1)%Z
                       ∧ (1 < pidState.colorCount s + colorGroupRefs m path pids)%Z)
       then 1%nat else 0%nat)%nat.
Proof.
  induction pids as [|pid pids IH]; intros j s; simpl.
  - unfold colorGroupRefs, len. simpl.
    rewrite bool_decide_eq_false_2 by lia. lia.
  - rewrite IH, colorGroupRefs_cons.
    destruct (pidStep_colors j pid s) as [-> ->].
    pose proof (colorGroupRefs_nonneg pids).
    destruct (isColorGroup m path pid); simpl;
      repeat case_bool_decide; lia.
Qed.

Lemma countOf_head_colors r : countOf ErrMultiColors (multiPropsHead r) = 0%nat.
Proof. unfold multiPropsHead, Append. by repeat case_bool_decide. Qed.

Lemma validateMultiProps_colors_once r :
  countOf ErrMultiColors (validateMultiProps m path r)
  = if bool_decide (2 <= colorGroupRefs m path (MultiProperties.PIDs r))
    then 1%nat else 0%nat.
Proof.
  unfold validateMultiProps. rewrite multiLoop_oobDiags, countOf_app.
  unfold ErrMultiColors at 2. rewrite countOf_oobDiags_sentinel.
  unfold pidScan. rewrite pidLoop_colors. simpl.
  rewrite countOf_head_colors.
  repeat case_bool_decide; lia.
Qed.

Lemma pidLoop_app pre : ∀ post j s,
  pidLoop m path j (pre ++ post) s
  = pidLoop m path (j + length pre) post (pidLoop m path j pre s).
Proof.
  induction pre as [|pid pre IH]; intros post j s; simpl.
  - by rewrite Nat.add_0_r.
  - rewrite IH. f_equal. lia.
Qed.

Lemma pidLoop_keeps e pids : ∀ j s,
  e ∈ pidState.errs s -> e ∈ pidState.errs (pidLoop m path j pids s).
Proof.
  intros j s Hin. destruct (pidLoop_errs pids j s) as (tail & -> & _).
  apply elem_of_app. by left.
Qed.


Lemma pidStep_wrongKind j pid s e :
  wrongKind m path j pid = Some e -> e ∈ pidState.errs (pidStep m path j pid s).
Proof.
  unfold wrongKind, pidStep, Append. destruct s as [errs cc ru ls].
  destruct (FindAsset m path pid) as [[]|]; simpl; try done;
    repeat case_bool_decide; try done;
    intros [= <-]; apply elem_of_app; right; by apply list_elem_of_singleton.
Qed.

Lemma pidLoop_wrongKind pids i pid e : ∀ j s,
  pids !! i = Some pid -> wrongKind m path (j + i) pid = Some e ->
  e ∈ pidState.errs (pidLoop m path j pids s).
Proof.
  intros j s Hi Hw.
  apply list_elem_of_split_length in Hi as (pre & post & -> & ->).
  rewrite pidLoop_app. simpl. apply pidLoop_keeps.
  by apply pidStep_wrongKind.
Qed.


Lemma slotLoop_slotExceeds r mu :
  slotLoop (len (MultiProperties.PIDs r))
    (recordedLen m path <$> MultiProperties.PIDs r) 0 (Multi.PIndices mu) = true
  ↔ slotExceeds m path r mu.
Proof.
  rewrite slotLoop_true. unfold slotExceeds, len. simpl. split.
  - intros (k & index & Hk & Hlt & Hrec).
    destruct (lookup_lt_is_Some_2 (MultiProperties.PIDs r) k) as [pid Hpid]; [lia|].
    exists k, index, pid. split; [done|]. split; [done|].
    by rewrite (list_lookup_total_correct _ k (recordedLen m path pid)) in Hrec
      by (by rewrite list_lookup_fmap, Hpid).
  - intros (k & index & pid & Hk & Hpid & Hrec).
    exists k, index. split; [done|]. split.
    + apply lookup_lt_Some in Hpid. lia.
    + by rewrite (list_lookup_total_correct _ k (recordedLen m path pid))
        by (by rewrite list_lookup_fmap, Hpid).
Qed.

Lemma IndexedError_not_in_head r e el i :
  IndexedError e el i ∉ multiPropsHead r.
Proof.
  unfold multiPropsHead, Append. intros Hin.
  repeat case_bool_decide; simpl in Hin;
    repeat (apply elem_of_cons in Hin as [Hin|Hin]; [discriminate Hin|]);
    by apply elem_of_nil in Hin.
Qed.

Lemma IndexedError_not_pidDiag e el i : ¬ pidDiag (IndexedError e el i).
Proof.
  unfold pidDiag. intros Hin.
  repeat (apply elem_of_cons in Hin as [Hin|Hin]; [discriminate Hin|]).
  by apply elem_of_nil in Hin.
Qed.

(** The diagnostic positioned at combination [j] is present exactly
    when one of its slots [k < len(PIDs)] holds an index above the
    length recorded for property ID [k]. *)
Lemma validateMultiProps_oob_iff r j mu :
  MultiProperties.Multis r !! j = Some mu ->
  WrapIndex ErrIndexOutOfBounds "Multi" (Z.of_nat j) ∈ validateMultiProps m path r
  ↔ slotExceeds m path r mu.
Proof.
  intros Hj. destruct (validateMultiProps_shape r) as (tail & -> & _ & Hall).
  rewrite <- slotLoop_slotExceeds, !elem_of_app, elem_of_oobDiags. split.
  - intros [Hin|[Hin|(i & mu' & Hi & Hs & Heq)]].
    + by apply IndexedError_not_in_head in Hin.
    + rewrite Forall_forall in Hall. by apply Hall, IndexedError_not_pidDiag in Hin.
    + injection Heq as Heq. assert (i = j) as -> by lia. congruence.
  - intros Hs. right. right. by exists j, mu.
Qed.

Lemma recordedLen_le pid a L :
  FindAsset m path pid = Some a -> propertyListLen a = Some L ->
  recordedLen m path pid <= L.
Proof.
  unfold recordedLen, len. intros -> HL.
  destruct a; simpl in HL; try discriminate HL; injection HL as <-;
    unfold len; lia.
Qed.

Lemma recordedLen_recorded pid a L :
  FindAsset m path pid = Some a -> recordsLength a ->
  propertyListLen a = Some L -> recordedLen m path pid = L.
Proof.
  unfold recordedLen. intros -> Hrec HL.
  destruct a; simpl in *; try done; congruence.
Qed.

(** An index above the length of the list its slot refers to is
    always reported, at the index of its combination entry. *)
Lemma validateMultiProps_reports_exceeding_index r j mu k index pid a L :
  MultiProperties.Multis r !! j = Some mu ->
  Multi.PIndices mu !! k = Some index ->
  MultiProperties.PIDs r !! k = Some pid ->
  FindAsset m path pid = Some a ->
  propertyListLen a = Some L ->
  L < index ->
  WrapIndex ErrIndexOutOfBounds "Multi" (Z.of_nat j) ∈ validateMultiProps m path r.
Proof.
  intros Hj Hk Hpid Ha HL Hlt. apply (validateMultiProps_oob_iff r j mu Hj).
  exists k, index, pid. split; [done|]. split; [done|].
  pose proof (recordedLen_le pid a L Ha HL). lia.
Qed.

(** A slot that refers to a texture group is reported as soon as its
    index is positive, however many coordinates the group has: the
    length recorded for a texture group is 0. *)
Lemma validateMultiProps_texture_group_slot r j mu k index pid t :
  MultiProperties.Multis r !! j = Some mu ->
  Multi.PIndices mu !! k = Some index ->
  MultiProperties.PIDs r !! k = Some pid ->
  FindAsset m path pid = Some (Texture2DGroupAsset t) ->
  0 < index ->
  WrapIndex ErrIndexOutOfBounds "Multi" (Z.of_nat j) ∈ validateMultiProps m path r.
Proof.
  intros Hj Hk Hpid Ha Hpos. apply (validateMultiProps_oob_iff r j mu Hj).
  exists k, index, pid. split; [done|]. split; [done|].
  unfold recordedLen. by rewrite Ha.
Qed.

(** When every property ID resolves to base materials, composite
    materials or a color group, a combination entry whose indices are
    all within the lengths of those lists gets no diagnostic. *)
Lemma validateMultiProps_silent_within_recorded r j mu :
  (∀ k pid, MultiProperties.PIDs r !! k = Some pid ->
            ∃ a, FindAsset m path pid = Some a ∧ recordsLength a) ->
  MultiProperties.Multis r !! j = Some mu ->
  (∀ k index pid a L,
      Multi.PIndices mu !! k = Some index ->
      MultiProperties.PIDs r !! k = Some pid ->
      FindAsset m path pid = Some a ->
      propertyListLen a = Some L -> index <= L) ->
  WrapIndex ErrIndexOutOfBounds "Multi" (Z.of_nat j) ∉ validateMultiProps m path r.
Proof.
  intros Hres Hj Hwithin Hin.
  apply (validateMultiProps_oob_iff r j mu Hj) in Hin
    as (k & index & pid & Hk & Hpid & Hlt).
  destruct (Hres k pid Hpid) as (a & Ha & Hrec).
  assert (∃ L, propertyListLen a = Some L) as [L HL]
    by (destruct a; simpl in *; try done; eauto).
  pose proof (Hwithin k index pid a L Hk Hpid Ha HL).
  rewrite (recordedLen_recorded pid a L Ha Hrec HL) in Hlt. lia.
Qed.


(** Both directions together, for a multi-properties asset whose
    property IDs all resolve to base materials, composite materials or
    color groups: combination [j] gets the out-of-bounds diagnostic
    exactly when one of its slots holds an index above the length of the
    list the slot refers to. *)
Lemma validateMultiProps_slot_bounds_recorded_kinds r j mu :
  (∀ k pid, MultiProperties.PIDs r !! k = Some pid ->
            ∃ a, FindAsset m path pid = Some a ∧ recordsLength a) ->
  MultiProperties.Multis r !! j = Some mu ->
  WrapIndex ErrIndexOutOfBounds "Multi" (Z.of_nat j) ∈ validateMultiProps m path r
  ↔ ∃ k index pid a L,
      Multi.PIndices mu !! k = Some index
      ∧ MultiProperties.PIDs r !! k = Some pid
      ∧ FindAsset m path pid = Some a
      ∧ propertyListLen a = Some L
      ∧ L < index.
Proof.
  intros Hres Hj. split.
  - intros Hin. apply (validateMultiProps_oob_iff r j mu Hj) in Hin
      as (k & index & pid & Hk & Hpid & Hlt).
    destruct (Hres k pid Hpid) as (a & Ha & Hrec).
    assert (∃ L, propertyListLen a = Some L) as [L HL]
      by (destruct a; simpl in *; try done; eauto).
    exists k, index, pid, a, L. repeat (split; [done|]).
    by rewrite <- (recordedLen_recorded pid a L Ha Hrec HL).
  - intros (k & index & pid & a & L & Hk & Hpid & Ha & HL & Hlt).
    by apply (validateMultiProps_reports_exceeding_index r j mu k index pid a L).
Qed.

Lemma countOf_zero e l : e ∉ l -> countOf e l = 0%nat.
Proof. rewrite list_elem_of_In. apply count_occ_not_In. Qed.

Lemma countOf_oobDiags_below n ls multis : ∀ j i,
  (i < j)%nat ->
  countOf (WrapIndex ErrIndexOutOfBounds "Multi" (Z.of_nat i))
    (oobDiags n ls j multis) = 0%nat.
Proof.
  intros j i Hlt. apply countOf_zero. intros Hin.
  apply elem_of_oobDiags in Hin as (i' & mu & _ & _ & Heq).
  injection Heq as Heq. lia.
Qed.

Lemma countOf_oobDiags n ls multis : ∀ j i mu,
  multis !! i = Some mu ->
  countOf (WrapIndex ErrIndexOutOfBounds "Multi" (Z.of_nat (j + i)))
    (oobDiags n ls j multis)
  = if slotLoop n ls 0 (Multi.PIndices mu) then 1%nat else 0%nat.
Proof.
  induction multis as [|mu0 multis IH]; intros j i mu Hi; [done|].
  simpl. rewrite countOf_app. destruct i as [|i]; simpl in Hi.
  - injection Hi as ->. rewrite Nat.add_0_r.
    rewrite countOf_oobDiags_below by lia.
    destruct (slotLoop n ls 0 (Multi.PIndices mu)); [|done].
    unfold countOf. by rewrite count_occ_cons_eq.
  - replace (j + S i)%nat with (S j + i)%nat by lia.
    rewrite (IH (S j) i mu Hi).
    destruct (slotLoop n ls 0 (Multi.PIndices mu0)); [|done].
    unfold countOf. rewrite count_occ_cons_neq; [done|].
    unfold WrapIndex. intros [= Heq]. lia.
Qed.

Lemma validateMultiProps_oob_once r j mu :
  MultiProperties.Multis r !! j = Some mu ->
  slotExceeds m path r mu ->
  countOf (WrapIndex ErrIndexOutOfBounds "Multi" (Z.of_nat j))
    (validateMultiProps m path r) = 1%nat.
Proof.
  intros Hj Hex. apply slotLoop_slotExceeds in Hex.
  destruct (validateMultiProps_shape r) as (tail & -> & _ & Hall).
  rewrite !countOf_app, (countOf_oobDiags _ _ _ 0 j mu Hj), Hex.
  rewrite (countOf_zero _ (multiPropsHead r))
    by apply IndexedError_not_in_head.
  rewrite (countOf_zero _ tail); [done|].
  intros Hin. rewrite Forall_forall in Hall.
  by apply Hall, IndexedError_not_pidDiag in Hin.
Qed.

Lemma indexLoop_filter n indices :
  indexLoop n indices
  = negb (bool_decide (filter (fun index => index > n) indices = [])).
Proof.
  induction indices as [|index indices IH]; simpl; [done|].
  rewrite filter_cons. destruct (decide (index > n)) as [Hgt|Hle].
  - rewrite (bool_decide_eq_true_2 _ Hgt).
    by rewrite (bool_decide_eq_false_2 (_ :: _ = [])).
  - by rewrite (bool_decide_eq_false_2 _ Hle).
Qed.

Lemma validateCompositeMat_oob_once r :
  countOf ErrIndexOutOfBounds (validateCompositeMat m path r)
  = if bool_decide (outOfBoundsIndices m path r = []) then 0%nat else 1%nat.
Proof.
  unfold validateCompositeMat, outOfBoundsIndices, Append.
  destruct (bool_decide (CompositeMaterials.MaterialID r = 0)) eqn:Eid.
  - by repeat case_bool_decide.
  - destruct (FindAsset m path (CompositeMaterials.MaterialID r)) as [[]|];
      try (by repeat case_bool_decide).
    rewrite indexLoop_filter.
    destruct (bool_decide (filter _ _ = [])); simpl;
      by repeat case_bool_decide.
Qed.

Lemma elem_of_snoc (e : error) l : e ∈ Append l e.
Proof. apply elem_of_app. right. by apply list_elem_of_singleton. Qed.

Lemma elem_of_Append_keep (e e' : error) l : e ∈ l -> e ∈ Append l e'.
Proof. intros. apply elem_of_app. by left. Qed.

Lemma validateMultiProps_keeps_head r e :
  e ∈ multiPropsHead r -> e ∈ validateMultiProps m path r.
Proof.
  intros Hin. destruct (validateMultiProps_shape r) as (tail & -> & _ & _).
  apply elem_of_app. by left.
Qed.

Lemma validateMultiProps_wrongKind r j pid e :
  MultiProperties.PIDs r !! j = Some pid ->
  wrongKind m path j pid = Some e ->
  e ∈ validateMultiProps m path r.
Proof.
  intros Hj Hw. unfold validateMultiProps. rewrite multiLoop_oobDiags.
  apply elem_of_app. left. unfold pidScan.
  by apply (pidLoop_wrongKind _ j pid e 0%nat).
Qed.

(** The blend-methods-count diagnostic comes from the check on the two
    lengths and from nowhere else. *)
Lemma validateMultiProps_blend_iff r :
  ErrMultiBlend ∈ validateMultiProps m path r
  ↔ len (MultiProperties.BlendMethods r) > len (MultiProperties.PIDs r) - 1.
Proof.
  destruct (validateMultiProps_shape r) as (tail & -> & _ & Hall).
  rewrite !elem_of_app, ErrMultiBlend_in_head. split; [|auto].
  intros [H|[H|H]]; [done| |].
  - rewrite Forall_forall in Hall. by apply Hall, pidDiag_not_blend in H.
  - apply elem_of_oobDiags in H as (i & mu & _ & _ & H). discriminate H.
Qed.

End Validators.

(** C5. The blend-methods-count diagnostic is among the diagnostics of
    a multi-properties asset exactly when the asset has more than N-1
    blend methods, N being the number of its property IDs (for N = 0
    the bound is -1, so the diagnostic is always present). *)
Theorem validateMultiProps_blend_count (m : Model.t asset) (path : string)
    (r : MultiProperties.t) :
  ErrMultiBlend ∈ validateMultiProps m path r
  ↔ len (MultiProperties.BlendMethods r) > len (MultiProperties.PIDs r) - 1.
Proof. apply validateMultiProps_blend_iff. Qed.

(** The two examples of C5: property IDs {P1, P2} with two blend
    methods yield the diagnostic, with one they do not. *)
Lemma validateMultiProps_blend_examples :
  ErrMultiBlend ∈ validateMultiProps blendModel "" twoBlends
  ∧ ErrMultiBlend ∉ validateMultiProps blendModel "" oneBlend.
Proof.
  rewrite !validateMultiProps_blend_iff.
  split; vm_compute; [done | discriminate].
Qed.

(** C7 as stated fails: the composite-materials asset of the package's
    validation test has two indices out of bounds (both 100, over two
    materials) and gets one out-of-bounds diagnostic, as that test
    expects. *)
Lemma composite_reports_one_of_two_out_of_bounds_indices :
  ¬ recordsEveryOutOfBoundsIndex compositeModel "" composite4.
Proof. unfold recordsEveryOutOfBoundsIndex. vm_compute. lia. Qed.

(** Likewise two dangling property IDs get one missing-resource
    diagnostic. *)
Lemma multi_reports_one_of_two_dangling_ids :
  ¬ recordsEveryDanglingPID blendModel "" dangling.
Proof. unfold recordsEveryDanglingPID. vm_compute. lia. Qed.

(** C7, amended. Neither validator stops at the first failure: every
    rule that is violated contributes its diagnostic to the one list,
    whichever rules failed before it. Problems of one kind are reported
    once per scope and not once per occurrence: dangling property IDs
    once per multi-properties asset, out-of-bounds indices once per
    combination entry and once per composite-materials asset. *)
Theorem validators_report_each_violated_rule_once (m : Model.t asset)
    (path : string) :
  (∀ r : MultiProperties.t,
      let out := validateMultiProps m path r in
      (MultiProperties.ID r = 0 -> ErrMissingID ∈ out)
      ∧ (len (MultiProperties.PIDs r) = 0 -> NewMissingFieldError attrPIDs ∈ out)
      ∧ (len (MultiProperties.BlendMethods r) > len (MultiProperties.PIDs r) - 1
         -> ErrMultiBlend ∈ out)
      ∧ (len (MultiProperties.Multis r) = 0 -> ErrEmptyResourceProps ∈ out)
      ∧ (∀ j pid e, MultiProperties.PIDs r !! j = Some pid ->
                    wrongKind m path j pid = Some e -> e ∈ out)
      ∧ countOf ErrMultiColors out
        = (if bool_decide (2 <= colorGroupRefs m path (MultiProperties.PIDs r))
           then 1%nat else 0%nat)
      ∧ countOf ErrMissingResource out
        = (if existsb (isDangling m path) (MultiProperties.PIDs r)
           then 1%nat else 0%nat)
      ∧ (∀ j mu, MultiProperties.Multis r !! j = Some mu ->
                 slotExceeds m path r mu ->
                 countOf (WrapIndex ErrIndexOutOfBounds "Multi" (Z.of_nat j)) out
                 = 1%nat))
  ∧ (∀ r : CompositeMaterials.t,
        let out := validateCompositeMat m path r in
        (CompositeMaterials.ID r = 0 -> ErrMissingID ∈ out)
        ∧ (CompositeMaterials.MaterialID r = 0 ->
           NewMissingFieldError attrMatID ∈ out)
        ∧ (CompositeMaterials.MaterialID r ≠ 0 ->
           FindAsset m path (CompositeMaterials.MaterialID r) = None ->
           ErrMissingResource ∈ out)
        ∧ (CompositeMaterials.MaterialID r ≠ 0 ->
           ∀ a, FindAsset m path (CompositeMaterials.MaterialID r) = Some a ->
                (∀ bm, a ≠ BaseMaterialsAsset bm) -> ErrCompositeBase ∈ out)
        ∧ countOf ErrIndexOutOfBounds out
          = (if bool_decide (outOfBoundsIndices m path r = [])
             then 0%nat else 1%nat)
        ∧ (len (CompositeMaterials.Indices r) = 0 ->
           NewMissingFieldError attrMatIndices ∈ out)
        ∧ (len (CompositeMaterials.Composites r) = 0 ->
           ErrEmptyResourceProps ∈ out)).
Proof.
  split; intros r out; subst out.
  - split; [|split; [|split; [|split; [|split; [|split; [|split]]]]]].
    + intros H. apply validateMultiProps_keeps_head. unfold multiPropsHead.
      rewrite (bool_decide_eq_true_2 _ H).
      repeat case_bool_decide;
        repeat first [apply elem_of_snoc | apply elem_of_Append_keep].
    + intros H. apply validateMultiProps_keeps_head. unfold multiPropsHead.
      rewrite (bool_decide_eq_true_2 (len _ = 0) H).
      repeat case_bool_decide;
        repeat first [apply elem_of_snoc | apply elem_of_Append_keep].
    + intros H. by apply validateMultiProps_blend_iff.
    + intros H. apply validateMultiProps_keeps_head. unfold multiPropsHead.
      rewrite (bool_decide_eq_true_2 (len (MultiProperties.Multis r) = 0) H).
      repeat case_bool_decide;
        repeat first [apply elem_of_snoc | apply elem_of_Append_keep].
    + intros j pid e. apply validateMultiProps_wrongKind.
    + apply validateMultiProps_colors_once.
    + apply validateMultiProps_missing_once.
    + intros j mu. apply validateMultiProps_oob_once.
  - split; [|split; [|split; [|split; [|split; [|split]]]]].
    + intros H. unfold validateCompositeMat.
      rewrite (bool_decide_eq_true_2 _ H).
      repeat first [case_bool_decide | case_match];
        repeat first [apply elem_of_snoc | apply elem_of_Append_keep].
    + intros H. unfold validateCompositeMat.
      rewrite (bool_decide_eq_true_2 (CompositeMaterials.MaterialID r = 0) H).
      repeat first [case_bool_decide | case_match];
        repeat first [apply elem_of_snoc | apply elem_of_Append_keep].
    + intros H Hf. unfold validateCompositeMat.
      rewrite (bool_decide_eq_false_2 _ H), Hf.
      repeat first [case_bool_decide | case_match];
        repeat first [apply elem_of_snoc | apply elem_of_Append_keep].
    + intros H a Hf Hnb. unfold validateCompositeMat.
      rewrite (bool_decide_eq_false_2 _ H), Hf.
      destruct a; try (by edestruct Hnb);
      repeat first [case_bool_decide | case_match];
        repeat first [apply elem_of_snoc | apply elem_of_Append_keep].
    + apply validateCompositeMat_oob_once.
    + intros H. unfold validateCompositeMat.
      rewrite (bool_decide_eq_true_2 (len (CompositeMaterials.Indices r) = 0) H).
      repeat first [case_bool_decide | case_match];
        repeat first [apply elem_of_snoc | apply elem_of_Append_keep].
    + intros H. unfold validateCompositeMat.
      rewrite (bool_decide_eq_true_2 (len (CompositeMaterials.Composites r) = 0) H).
      repeat first [case_bool_decide | case_match];
        repeat first [apply elem_of_snoc | apply elem_of_Append_keep].
Qed.

(** The amended statement at the multi-properties asset with nothing
    right and at the composite with two indices out of bounds: the
    missing ID, the blend count, the one missing-resource diagnostic
    and the out-of-bounds combination entry are all reported, and the
    composite gets its single out-of-bounds diagnostic. *)
Lemma validators_report_each_violated_rule_once_witness :
  let out := validateMultiProps blendModel "" dangling in
  ErrMissingID ∈ out
  ∧ ErrMultiBlend ∈ out
  ∧ countOf ErrMissingResource out = 1%nat
  ∧ countOf (WrapIndex ErrIndexOutOfBounds "Multi" 0) out = 1%nat
  ∧ countOf ErrIndexOutOfBounds (validateCompositeMat compositeModel "" composite4)
    = 1%nat.
Proof.
  cbn zeta.
  destruct (validators_report_each_violated_rule_once blendModel "")
    as [Hmulti _].
  destruct (validators_report_each_violated_rule_once compositeModel "")
    as [_ Hcomp].
  destruct (Hmulti dangling) as (Hid & _ & Hblend & _ & _ & _ & Hmiss & Hoob).
  destruct (Hcomp composite4) as (_ & _ & _ & _ & Hidx & _).
  split; [apply Hid; reflexivity|].
  split; [apply Hblend; reflexivity|].
  split; [exact Hmiss|].
  split; [|exact Hidx].
  apply (Hoob 0%nat (Multi.mk [7; 7])); [reflexivity|].
  exists 0%nat, 7, 100. repeat split; reflexivity.
Defined.

(** C6. The multi-properties element of the package's decode test,
    validated in a model where base materials 5 (three materials) and
    texture group 2 (four coordinates) exist: every slot index of every
    combination entry is within the length of the list its slot refers
    to (combination 2 is [2 3], with 2 <= 3 and 3 <= 4), yet the
    validator yields an out-of-bounds diagnostic at combination 2,
    because the length it recorded for the texture group is 0: its type
    switch has no case for texture groups. *)
Theorem validateMultiProps_texture_group_length_not_recorded :
  validateMultiProps texturedModel "" multi9
  = [WrapIndex ErrIndexOutOfBounds "Multi" 2]
  ∧ MultiProperties.Multis multi9 !! 2%nat = Some (Multi.mk [2; 3])
  ∧ FindAsset texturedModel "" 5 = Some materials5
  ∧ propertyListLen materials5 = Some 3
  ∧ FindAsset texturedModel "" 2 = Some textureGroup2
  ∧ propertyListLen textureGroup2 = Some 4
  ∧ recordedLen texturedModel "" 2 = 0.
Proof. repeat split; reflexivity. Qed.


(** ** The validators of the materials extension: when an asset passes *)

Lemma len_nil {T : Type} (l : list T) : len l = 0 ↔ l = [].
Proof. unfold len. destruct l; simpl; split; try done; lia. Qed.

Lemma Append_not_nil (errs : list error) (e : error) : Append errs e ≠ [].
Proof. unfold Append. by destruct errs. Qed.

Lemma colorLoop_errs (colors : list RGBA.t) : ∀ j errs,
  colorLoop j colors errs = errs ++ colorLoop j colors [].
Proof.
  induction colors as [|c colors IH]; intros j errs; simpl.
  - by rewrite app_nil_r.
  - rewrite IH, (IH _ (if bool_decide (c = RGBA.zero) then _ else _)).
    case_bool_decide; unfold Append; simpl; [by rewrite <- app_assoc|done].
Qed.

Lemma elem_of_colorLoop (colors : list RGBA.t) : ∀ j e,
  e ∈ colorLoop j colors []
  ↔ ∃ i, colors !! i = Some RGBA.zero
         ∧ e = WrapIndex (NewMissingFieldError attrColor) "RGBA" (Z.of_nat (j + i)).
Proof.
  induction colors as [|c colors IH]; intros j e; simpl.
  - split; [by intros ?%elem_of_nil|]. by intros (i & H & _).
  - rewrite colorLoop_errs, elem_of_app, IH. split.
    + intros [Hin|(i & Hi & ->)].
      * case_bool_decide as Hc; [|by apply elem_of_nil in Hin].
        apply list_elem_of_singleton in Hin as ->. subst c.
        exists 0%nat. by rewrite Nat.add_0_r.
      * exists (S i). by replace (j + S i)%nat with (S j + i)%nat by lia.
    + intros ([|i] & Hi & ->); simpl in Hi.
      * injection Hi as ->. left. rewrite bool_decide_eq_true_2 by done.
        rewrite Nat.add_0_r. by apply list_elem_of_singleton.
      * right. exists i. by replace (S j + i)%nat with (j + S i)%nat by lia.
Qed.

(** Membership in an explicit list of diagnostics. *)
Ltac member := apply list_elem_of_In; simpl; tauto.
Ltac not_member H :=
  repeat (apply elem_of_cons in H as [H|H]; [discriminate H|]);
  apply elem_of_nil in H.

(** X11. A color group passes [validateColorGroup] exactly when its
    ID is not 0, it has a color and none of its colors is the zero
    color. An empty color list is reported as an empty resource, and the
    color at index j gets a missing-color diagnostic positioned at j
    exactly when it is the zero color. *)
Theorem validateColorGroup_diagnostics (path : string) (r : ColorGroup.t) :
  let out := validateColorGroup path r in
  (out = []
   ↔ ColorGroup.ID r ≠ 0 ∧ ColorGroup.Colors r ≠ []
     ∧ Forall (fun c => c ≠ RGBA.zero) (ColorGroup.Colors r))
  ∧ (ErrEmptyResourceProps ∈ out ↔ ColorGroup.Colors r = [])
  ∧ (∀ j : nat,
       WrapIndex (NewMissingFieldError attrColor) "RGBA" (Z.of_nat j) ∈ out
       ↔ ColorGroup.Colors r !! j = Some RGBA.zero).
Proof.
  cbn zeta. unfold validateColorGroup. rewrite colorLoop_errs.
  set (head := if bool_decide (len (ColorGroup.Colors r) = 0) then _ else _).
  assert (∀ j : nat, WrapIndex (NewMissingFieldError attrColor) "RGBA" (Z.of_nat j) ∉ head) as Hhead.
  { intros j. subst head. unfold Append.
    repeat case_bool_decide; simpl; intros Hin;
      repeat (apply elem_of_cons in Hin as [Hin|Hin]; [discriminate Hin|]);
      by apply elem_of_nil in Hin. }
  split; [|split].
  - split.
    + intros Hnil. apply app_eq_nil in Hnil as [Hh Hl].
      subst head. unfold Append in Hh.
      repeat case_bool_decide; simpl in Hh; try discriminate Hh.
      split; [done|]. split; [by rewrite <- len_nil|].
      apply Forall_forall. intros c Hc ->.
      apply list_elem_of_lookup in Hc as [i Hi].
      assert (WrapIndex (NewMissingFieldError attrColor) "RGBA" (Z.of_nat (0 + i))
              ∈ colorLoop 0 (ColorGroup.Colors r) []) as Hin
        by (apply elem_of_colorLoop; eauto).
      rewrite Hl in Hin. by apply elem_of_nil in Hin.
    + intros (Hid & Hne & Hall). subst head.
      rewrite !bool_decide_eq_false_2 by (try done; by rewrite len_nil). simpl.
      destruct (colorLoop 0 (ColorGroup.Colors r) []) as [|e l] eqn:Hl; [done|].
      assert (e ∈ colorLoop 0 (ColorGroup.Colors r) []) as Hin
        by (rewrite Hl; apply elem_of_cons; by left).
      apply elem_of_colorLoop in Hin as (i & Hi & _).
      rewrite Forall_forall in Hall. exfalso.
      by apply (Hall RGBA.zero); [eapply list_elem_of_lookup_2|].
  - rewrite elem_of_app, elem_of_colorLoop. subst head. unfold Append.
    rewrite <- len_nil. split.
    + intros [Hin|(i & _ & H)]; [|discriminate H].
      repeat case_bool_decide; simpl in Hin; try done;
        repeat (apply elem_of_cons in Hin as [Hin|Hin]; [discriminate Hin|]);
        by apply elem_of_nil in Hin.
    + intros Hnil. left. rewrite (bool_decide_eq_true_2 _ Hnil).
      destruct (bool_decide (ColorGroup.ID r = 0));
        apply list_elem_of_In; simpl; tauto.
  - intros j. rewrite elem_of_app, elem_of_colorLoop. split.
    + intros [Hin|(i & Hi & Heq)]; [by apply Hhead in Hin|].
      injection Heq as Heq. by replace j with i by lia.
    + intros Hj. right. by exists j.
Qed.

(** X12. A texture group passes [validateTexture2DGroup] exactly when
    its ID is not 0, its texture ID is not 0 and resolves, in the document
    at the path, to a [Texture2D] asset, and it has a coordinate. A
    texture ID that resolves to nothing or to an asset of another kind
    gets the texture-reference diagnostic; a texture ID of 0 gets the
    missing-field diagnostic instead. *)
Theorem validateTexture2DGroup_diagnostics (m : Model.t asset) (path : string)
    (r : Texture2DGroup.t) :
  let out := validateTexture2DGroup m path r in
  (out = []
   ↔ Texture2DGroup.ID r ≠ 0
     ∧ Texture2DGroup.TextureID r ≠ 0
     ∧ (∃ t, FindAsset m path (Texture2DGroup.TextureID r) = Some (Texture2DAsset t))
     ∧ Texture2DGroup.Coords r ≠ [])
  ∧ (ErrTextureReference ∈ out
     ↔ Texture2DGroup.TextureID r ≠ 0
       ∧ ∀ t, FindAsset m path (Texture2DGroup.TextureID r) ≠ Some (Texture2DAsset t))
  ∧ (NewMissingFieldError attrTexID ∈ out ↔ Texture2DGroup.TextureID r = 0).
Proof.
  cbn zeta. unfold validateTexture2DGroup, Append.
  destruct (decide (Texture2DGroup.ID r = 0)) as [Hid|Hid];
    [rewrite (bool_decide_eq_true_2 _ Hid)|rewrite (bool_decide_eq_false_2 _ Hid)];
  (destruct (decide (Texture2DGroup.TextureID r = 0)) as [Htid|Htid];
    [rewrite (bool_decide_eq_true_2 _ Htid)|rewrite (bool_decide_eq_false_2 _ Htid)]);
  (destruct (decide (len (Texture2DGroup.Coords r) = 0)) as [Hco|Hco];
    [rewrite (bool_decide_eq_true_2 _ Hco)|rewrite (bool_decide_eq_false_2 _ Hco)];
    rewrite len_nil in Hco);
  destruct (FindAsset m path (Texture2DGroup.TextureID r)) as [[]|] eqn:Hfind;
  simpl; (split; [|split]); split; intros Hyp;
  lazymatch type of Hyp with
  | _ = [] =>
      first [ discriminate Hyp
            | split; [done|split; [done|split; [by eexists|done]]] ]
  | _ ∈ _ => first [ done | by split | exfalso; by not_member Hyp ]
  | _ ∧ _ ∧ _ ∧ _ =>
      first [ done | exfalso; destruct Hyp as (Ha & Hb & [t Ht] & Hc); done ]
  | _ ∧ _ =>
      first [ by member
            | exfalso; destruct Hyp as [Ha Hb]; first [done | by eapply Hb] ]
  | _ = 0 => first [ by member | done ]
  end.
Qed.

Section Texture.
Context (EqualFold : string -> string -> bool).

Lemma hasTexture_true (attachments : list Attachment.t) (path : string) :
  hasTexture EqualFold attachments path = true
  ↔ ∃ a, a ∈ attachments ∧ EqualFold (Attachment.Path a) path = true.
Proof.
  induction attachments as [|a rest IH]; simpl.
  - split; [done|]. intros (a & Hin & _). by apply elem_of_nil in Hin.
  - destruct (EqualFold (Attachment.Path a) path) eqn:Ha.
    + split; [|done]. intros _. exists a. split; [apply elem_of_cons; by left|done].
    + rewrite IH. split.
      * intros (b & Hin & Hb). exists b. split; [apply elem_of_cons; by right|done].
      * intros (b & Hin & Hb). apply elem_of_cons in Hin as [->|Hin]; [congruence|eauto].
Qed.

(** X13. A texture passes [validateTexture2D] exactly when its ID is
    not 0, it has a path, an attachment of the model has that path up to
    case folding, and its content type is set. The missing-part
    diagnostic is reported exactly for a texture with a path that no
    attachment has; a texture without a path gets the missing-field
    diagnostic and no attachment is looked for. *)
Theorem validateTexture2D_diagnostics (m : Model.t asset) (path : string)
    (r : Texture2D.t) :
  let out := validateTexture2D EqualFold m path r in
  (out = []
   ↔ Texture2D.ID r ≠ 0
     ∧ Texture2D.Path r ≠ ""
     ∧ (∃ a, a ∈ Model.Attachments m
             ∧ EqualFold (Attachment.Path a) (Texture2D.Path r) = true)
     ∧ Texture2D.ContentType r ≠ 0)
  ∧ (ErrMissingTexturePart ∈ out
     ↔ Texture2D.Path r ≠ ""
       ∧ ∀ a, a ∈ Model.Attachments m ->
              EqualFold (Attachment.Path a) (Texture2D.Path r) = false)
  ∧ (NewMissingFieldError attrPath ∈ out ↔ Texture2D.Path r = "").
Proof.
  cbn zeta. unfold validateTexture2D, Append.
  pose proof (hasTexture_true (Model.Attachments m) (Texture2D.Path r)) as Hhas.
  assert ((∀ a, a ∈ Model.Attachments m ->
                EqualFold (Attachment.Path a) (Texture2D.Path r) = false)
          ↔ hasTexture EqualFold (Model.Attachments m) (Texture2D.Path r) = false)
    as Hnone.
  { split.
    - intros Hall. apply not_true_iff_false. intros (a & Hin & Ha)%Hhas.
      rewrite (Hall a Hin) in Ha. done.
    - intros Hf a Hin. apply not_true_iff_false. intros Ha.
      assert (hasTexture EqualFold (Model.Attachments m) (Texture2D.Path r) = true)
        by (apply Hhas; eauto). congruence. }
  rewrite <- Hhas, Hnone.
  destruct (decide (Texture2D.ID r = 0)) as [Hid|Hid];
    [rewrite (bool_decide_eq_true_2 _ Hid)|rewrite (bool_decide_eq_false_2 _ Hid)];
  (destruct (decide (Texture2D.Path r = "")) as [Hp|Hp];
    [rewrite (bool_decide_eq_true_2 _ Hp)|rewrite (bool_decide_eq_false_2 _ Hp)]);
  (destruct (decide (Texture2D.ContentType r = 0)) as [Hct|Hct];
    [rewrite (bool_decide_eq_true_2 _ Hct)|rewrite (bool_decide_eq_false_2 _ Hct)]);
  destruct (hasTexture EqualFold (Model.Attachments m) (Texture2D.Path r));
  simpl; (split; [|split]); split; intros Hyp;
  lazymatch type of Hyp with
  | _ = [] => first [ discriminate Hyp | done ]
  | _ ∈ _ => first [ done | by split | exfalso; by not_member Hyp ]
  | _ ∧ _ ∧ _ ∧ _ =>
      first [ done | exfalso; destruct Hyp as (Ha & Hb & Hc & Hd); done ]
  | _ ∧ _ =>
      first [ by member | exfalso; destruct Hyp as [Ha Hb]; done ]
  | _ = "" => first [ by member | done ]
  end.
Qed.
End Texture.

(** ** Composite materials *)

Lemma indexLoop_false (n : Z) (indices : list Z) :
  indexLoop n indices = false ↔ Forall (fun index => index <= n) indices.
Proof.
  induction indices as [|index indices IH]; simpl.
  - split; [constructor|done].
  - rewrite Forall_cons. case_bool_decide as Hgt.
    + split; [done|]. intros [Hle _]. lia.
    + rewrite IH. split; [|tauto]. intros Hall. split; [lia|done].
Qed.

(** X14. A composite-materials asset passes [validateCompositeMat]
    exactly when its ID is not 0, its material ID is not 0 and resolves to
    a base-materials asset, none of its indices is above the number of
    materials of that asset, and it has an index and a composite. An
    index equal to the number of materials is within bounds for this
    check. *)
Theorem validateCompositeMat_passes (m : Model.t asset) (path : string)
    (r : CompositeMaterials.t) :
  validateCompositeMat m path r = []
  ↔ CompositeMaterials.ID r ≠ 0
    ∧ CompositeMaterials.MaterialID r ≠ 0
    ∧ (∃ bm, FindAsset m path (CompositeMaterials.MaterialID r)
             = Some (BaseMaterialsAsset bm)
             ∧ Forall (fun index => index <= len (BaseMaterials.Materials bm))
                 (CompositeMaterials.Indices r))
    ∧ CompositeMaterials.Indices r ≠ []
    ∧ CompositeMaterials.Composites r ≠ [].
Proof.
  unfold validateCompositeMat, Append.
  destruct (decide (CompositeMaterials.ID r = 0)) as [Hid|Hid];
    [rewrite (bool_decide_eq_true_2 _ Hid)|rewrite (bool_decide_eq_false_2 _ Hid)];
  (destruct (decide (CompositeMaterials.MaterialID r = 0)) as [Hm|Hm];
    [rewrite (bool_decide_eq_true_2 _ Hm)|rewrite (bool_decide_eq_false_2 _ Hm)]);
  (destruct (decide (len (CompositeMaterials.Indices r) = 0)) as [Hi|Hi];
    [rewrite (bool_decide_eq_true_2 _ Hi)|rewrite (bool_decide_eq_false_2 _ Hi)];
    rewrite len_nil in Hi);
  (destruct (decide (len (CompositeMaterials.Composites r) = 0)) as [Hc|Hc];
    [rewrite (bool_decide_eq_true_2 _ Hc)|rewrite (bool_decide_eq_false_2 _ Hc)];
    rewrite len_nil in Hc);
  destruct (FindAsset m path (CompositeMaterials.MaterialID r)) as [[bm| | | | | |]|]
    eqn:Hfind;
  try destruct (indexLoop (len (BaseMaterials.Materials bm))
                  (CompositeMaterials.Indices r)) eqn:Hloop;
  simpl; split; intros Hyp;
  lazymatch type of Hyp with
  | _ = [] =>
      first [ discriminate Hyp
            | split; [done|split; [done|split; [|done]]];
              exists bm; split; [done|by apply indexLoop_false] ]
  | _ =>
      first [ done
            | exfalso; destruct Hyp as (Ha & Hb & (bm' & Hbm & Hall) & Hd & He);
              first [ done
                    | injection Hbm as <-; apply indexLoop_false in Hall; congruence ] ]
  end.
Qed.

(** ** Multi-properties: references of the wrong kind, and passing *)

Section MultiProps.
Variables (m : Model.t asset) (path : string).

(** How the first loop treats references to material lists and to
    multi-properties: a diagnostic at each of them, the first position
    being exempt for material lists. *)
Lemma pidStep_wrong_kinds j pid s :
  countOf ErrMaterialMulti (pidState.errs (pidStep m path j pid s))
  = (countOf ErrMaterialMulti (pidState.errs s)
     + if isMaterialRef m path pid && bool_decide (j ≠ 0%nat) then 1 else 0)%nat
  ∧ countOf ErrMultiRefMulti (pidState.errs (pidStep m path j pid s))
    = (countOf ErrMultiRefMulti (pidState.errs s)
       + if isMultiRef m path pid then 1 else 0)%nat.
Proof.
  unfold pidStep, isMaterialRef, isMultiRef, Append. destruct s as [errs cc ru ls].
  destruct (FindAsset m path pid) as [[]|]; simpl;
    repeat case_bool_decide; try destruct ru; simpl;
    rewrite ?countOf_app; simpl; split; try done; lia.
Qed.

Lemma pidLoop_wrong_kinds pids : ∀ j s,
  (0 < j)%nat ->
  countOf ErrMaterialMulti (pidState.errs (pidLoop m path j pids s))
  = (countOf ErrMaterialMulti (pidState.errs s)
     + length (filter (fun pid => isMaterialRef m path pid = true) pids))%nat
  ∧ countOf ErrMultiRefMulti (pidState.errs (pidLoop m path j pids s))
    = (countOf ErrMultiRefMulti (pidState.errs s)
       + length (filter (fun pid => isMultiRef m path pid = true) pids))%nat.
Proof.
  induction pids as [|pid pids IH]; intros j s Hj; simpl.
  - split; lia.
  - destruct (IH (S j) (pidStep m path j pid s)) as [-> ->]; [lia|].
    destruct (pidStep_wrong_kinds j pid s) as [-> ->].
    rewrite !filter_cons, bool_decide_eq_true_2 by lia.
    destruct (isMaterialRef m path pid), (isMultiRef m path pid); simpl;
      repeat case_decide; try done; simpl; split; lia.
Qed.

Lemma countOf_head_wrong_kinds r :
  countOf ErrMaterialMulti (multiPropsHead r) = 0%nat
  ∧ countOf ErrMultiRefMulti (multiPropsHead r) = 0%nat.
Proof. unfold multiPropsHead, Append. by repeat case_bool_decide. Qed.

Lemma validateMultiProps_wrong_kind_counts r :
  countOf ErrMaterialMulti (validateMultiProps m path r)
  = length (filter (fun pid => isMaterialRef m path pid = true)
              (drop 1 (MultiProperties.PIDs r)))
  ∧ countOf ErrMultiRefMulti (validateMultiProps m path r)
    = length (filter (fun pid => isMultiRef m path pid = true)
                (MultiProperties.PIDs r)).
Proof.
  unfold validateMultiProps. rewrite multiLoop_oobDiags, !countOf_app.
  unfold ErrMaterialMulti at 2, ErrMultiRefMulti at 2.
  rewrite !countOf_oobDiags_sentinel, !Nat.add_0_r.
  unfold pidScan. destruct (countOf_head_wrong_kinds r) as [Hm Hr].
  destruct (MultiProperties.PIDs r) as [|pid pids].
  - simpl. by rewrite Hm, Hr.
  - set (s0 := pidState.mk (multiPropsHead r) 0 false
                 (replicate (length (pid :: pids)) 0)).
    cbn [pidLoop].
    destruct (pidLoop_wrong_kinds pids 1 (pidStep m path 0 pid s0)) as [-> ->];
      [lia|].
    destruct (pidStep_wrong_kinds 0 pid s0) as [-> ->].
    subst s0. cbn [pidState.errs]. rewrite Hm, Hr.
    rewrite bool_decide_eq_false_2 by (intros H; by apply H).
    rewrite andb_false_r, filter_cons. cbn [drop].
    destruct (isMultiRef m path pid); repeat case_decide; try done; simpl;
      split; lia.
Qed.

Lemma oobDiags_nil n ls multis : ∀ j,
  oobDiags n ls j multis = []
  ↔ Forall (fun mu => slotLoop n ls 0 (Multi.PIndices mu) = false) multis.
Proof.
  induction multis as [|mu multis IH]; intros j; simpl.
  - split; [constructor|done].
  - rewrite Forall_cons, <- (IH (S j)).
    destruct (slotLoop n ls 0 (Multi.PIndices mu)); simpl; split; try done.
    + by intros [? _].
    + tauto.
Qed.

Lemma multiPropsHead_nil r :
  multiPropsHead r = []
  ↔ MultiProperties.ID r ≠ 0
    ∧ MultiProperties.PIDs r ≠ []
    ∧ len (MultiProperties.BlendMethods r) <= len (MultiProperties.PIDs r) - 1
    ∧ MultiProperties.Multis r ≠ [].
Proof.
  unfold multiPropsHead, Append. rewrite <- !len_nil.
  repeat case_bool_decide; simpl; split; try done; try lia;
    try (intros (? & ? & ? & ?); try done; lia).
Qed.

Lemma countOf_none_nil (l : list error) :
  (∀ e, e ∈ l -> countOf e l = 0%nat) -> l = [].
Proof.
  destruct l as [|e l]; [done|]. intros H.
  specialize (H e ltac:(apply elem_of_cons; by left)).
  unfold countOf in H. simpl in H. by destruct (error_eq_dec e e).
Qed.

Lemma filter_nil_Forall {T : Type} (P : T -> Prop) `{!∀ x, Decision (P x)}
    (l : list T) :
  length (filter P l) = 0%nat ↔ Forall (fun x => ¬ P x) l.
Proof.
  induction l as [|x l IH]; simpl.
  - split; [constructor|done].
  - rewrite filter_cons, Forall_cons. case_decide; simpl.
    + split; [done|]. by intros [? _].
    + rewrite IH. tauto.
Qed.

(** X15. The two diagnostics of [validateMultiProps] for references of
    the wrong kind are reported once per occurrence: one
    [ErrMaterialMulti] for every property ID past the first that resolves
    to base materials or composite materials, and one [ErrMultiRefMulti]
    for every property ID that resolves to a multi-properties asset. *)
Theorem validateMultiProps_wrong_kind_per_occurrence (r : MultiProperties.t) :
  countOf ErrMaterialMulti (validateMultiProps m path r)
  = length (filter (fun pid => isMaterialRef m path pid = true)
              (drop 1 (MultiProperties.PIDs r)))
  ∧ countOf ErrMultiRefMulti (validateMultiProps m path r)
    = length (filter (fun pid => isMultiRef m path pid = true)
                (MultiProperties.PIDs r)).
Proof. apply validateMultiProps_wrong_kind_counts. Qed.

(** X16. A multi-properties asset passes [validateMultiProps] exactly
    when its ID is not 0, it has a property ID, at most N-1 blend methods
    for N property IDs and a combination entry; every property ID
    resolves, none to a multi-properties asset, none past the first to
    base or composite materials, at most one to a color group; and no
    combination entry has, in a slot that has a property ID, an index
    above the length recorded for that property ID (the length of a
    base-material, composite or color list, and 0 for every other kind of
    asset). *)
Theorem validateMultiProps_passes (r : MultiProperties.t) :
  validateMultiProps m path r = []
  ↔ MultiProperties.ID r ≠ 0
    ∧ MultiProperties.PIDs r ≠ []
    ∧ len (MultiProperties.BlendMethods r) <= len (MultiProperties.PIDs r) - 1
    ∧ MultiProperties.Multis r ≠ []
    ∧ Forall (fun pid => isDangling m path pid = false
                         ∧ isMultiRef m path pid = false)
        (MultiProperties.PIDs r)
    ∧ Forall (fun pid => isMaterialRef m path pid = false)
        (drop 1 (MultiProperties.PIDs r))
    ∧ colorGroupRefs m path (MultiProperties.PIDs r) <= 1
    ∧ Forall (fun mu => ¬ slotExceeds m path r mu) (MultiProperties.Multis r).
Proof.
  pose proof (validateMultiProps_missing_once m path r) as Hmiss.
  pose proof (validateMultiProps_colors_once m path r) as Hcol.
  destruct (validateMultiProps_wrong_kind_counts r) as [Hmat Hmul].
  destruct (validateMultiProps_shape m path r) as (tail & Hshape & _ & Htail).
  assert (Forall (fun mu => ¬ slotExceeds m path r mu) (MultiProperties.Multis r)
          ↔ oobDiags (len (MultiProperties.PIDs r))
              (recordedLen m path <$> MultiProperties.PIDs r) 0
              (MultiProperties.Multis r) = []) as Hoob.
  { rewrite oobDiags_nil. apply Forall_iff. intros mu.
    rewrite <- slotLoop_slotExceeds. by destruct (slotLoop _ _ _ _). }
  assert (Forall (fun pid => isDangling m path pid = false
                             ∧ isMultiRef m path pid = false)
            (MultiProperties.PIDs r)
          ↔ existsb (isDangling m path) (MultiProperties.PIDs r) = false
            ∧ length (filter (fun pid => isMultiRef m path pid = true)
                        (MultiProperties.PIDs r)) = 0%nat) as Hrefs.
  { rewrite filter_nil_Forall, Forall_and.
    assert (Forall (fun pid => isDangling m path pid = false)
              (MultiProperties.PIDs r)
            ↔ existsb (isDangling m path) (MultiProperties.PIDs r) = false) as HA.
    { rewrite <- not_true_iff_false, existsb_exists, Forall_forall. split.
      - intros Hall (pid & Hin & Hd). apply list_elem_of_In in Hin.
        rewrite (Hall pid Hin) in Hd. done.
      - intros Hno pid Hin. apply not_true_iff_false. intros Hd. apply Hno.
        exists pid. by rewrite <- list_elem_of_In. }
    assert (Forall (fun pid => isMultiRef m path pid = false)
              (MultiProperties.PIDs r)
            ↔ Forall (fun pid => ¬ isMultiRef m path pid = true)
                (MultiProperties.PIDs r)) as HB.
    { apply Forall_iff. intros pid. by destruct (isMultiRef m path pid). }
    tauto. }
  assert (Forall (fun pid => isMaterialRef m path pid = false)
            (drop 1 (MultiProperties.PIDs r))
          ↔ length (filter (fun pid => isMaterialRef m path pid = true)
                      (drop 1 (MultiProperties.PIDs r))) = 0%nat) as Hmats.
  { rewrite filter_nil_Forall. apply Forall_iff. intros pid.
    by destruct (isMaterialRef m path pid). }
  rewrite Hrefs, Hmats, Hoob, <- Hmat, <- Hmul. split.
  - intros Hnil. rewrite Hnil in Hmiss, Hcol |- *.
    rewrite Hnil in Hshape. symmetry in Hshape.
    apply app_eq_nil in Hshape as [Hhead Hrest].
    apply app_eq_nil in Hrest as [_ Hrest].
    apply multiPropsHead_nil in Hhead as (H1 & H2 & H3 & H4).
    repeat (split; [done|]). split; [|split; [done|split; [|done]]].
    + split; [|done]. simpl in Hmiss. by destruct (existsb _ _).
    + simpl in Hcol. case_bool_decide; [done|lia].
  - intros (H1 & H2 & H3 & H4 & [Hd Hmu] & Hma & Hcg & Ho).
    rewrite Hd in Hmiss. rewrite bool_decide_eq_false_2 in Hcol by lia.
    rewrite Hshape in *. rewrite Ho, app_nil_r in *.
    assert (multiPropsHead r = []) as Hhead by (by apply multiPropsHead_nil).
    rewrite Hhead in *. simpl in *.
    apply countOf_none_nil. intros e He.
    rewrite Forall_forall in Htail. specialize (Htail e He).
    unfold pidDiag in Htail.
    repeat (apply elem_of_cons in Htail as [->|Htail]; [done|]).
    by apply elem_of_nil in Htail.
Qed.
End MultiProps.

Lemma slotLoop_take (n : nat) (ls : list Z) (pin : list Z) : ∀ k,
  slotLoop (Z.of_nat n) ls k (take (n - k) pin) = slotLoop (Z.of_nat n) ls k pin.
Proof.
  induction pin as [|index pin IH]; intros k.
  - by rewrite take_nil.
  - destruct (decide (k < n)%nat) as [Hlt|Hge].
    + replace (n - k)%nat with (S (n - S k)) by lia. simpl.
      by rewrite IH.
    + replace (n - k)%nat with 0%nat by lia. simpl.
      rewrite bool_decide_eq_false_2 by lia. simpl.
      specialize (IH (S k)). replace (n - S k)%nat with 0%nat in IH by lia.
      by rewrite <- IH.
Qed.

(** X17. [validateMultiProps] only checks the slots of a combination
    entry that have a property ID: indices in further slots are never
    read, so cutting every entry down to as many slots as there are
    property IDs changes no diagnostic. *)
Theorem validateMultiProps_ignores_extra_slots (m : Model.t asset)
    (path : string) (r : MultiProperties.t) :
  validateMultiProps m path (withoutExtraSlots r) = validateMultiProps m path r.
Proof.
  assert (multiPropsHead (withoutExtraSlots r) = multiPropsHead r) as Hhead.
  { unfold multiPropsHead, withoutExtraSlots.
    cbn [MultiProperties.ID MultiProperties.PIDs MultiProperties.BlendMethods
         MultiProperties.Multis].
    replace (len (_ <$> MultiProperties.Multis r))
      with (len (MultiProperties.Multis r)); [done|].
    unfold len. by rewrite length_fmap. }
  unfold validateMultiProps, pidScan. rewrite Hhead.
  unfold withoutExtraSlots.
  cbn [MultiProperties.PIDs MultiProperties.Multis].
  set (s := pidLoop m path 0 (MultiProperties.PIDs r) _).
  generalize (pidState.errs s). generalize 0%nat.
  induction (MultiProperties.Multis r) as [|mu multis IH]; intros j errs; [done|].
  cbn [fmap list_fmap multiLoop Multi.PIndices].
  rewrite IH. f_equal. unfold len.
  pose proof (slotLoop_take (length (MultiProperties.PIDs r)) (pidState.lengths s)
                (Multi.PIndices mu) 0) as Htake.
  rewrite Nat.sub_0_r in Htake. by rewrite Htake.
Qed.

(** ** The dispatch of the materials validator *)

(** Case analysis on a comparison the code makes. *)
Ltac by_cases P H :=
  destruct (decide P) as [H|H];
  [rewrite (bool_decide_eq_true_2 P H) | rewrite (bool_decide_eq_false_2 P H)].

Section MissingID.
Context (EqualFold : string -> string -> bool).

Lemma ErrMissingID_not_pidDiag : ¬ pidDiag ErrMissingID.
Proof. unfold pidDiag. intros Hin. by not_member Hin. Qed.

(** X18. The materials validator reports a missing ID for exactly the
    assets of its five kinds (color group, texture group, texture,
    multi-properties, composite materials) whose ID is 0, and then as the
    first diagnostic of the asset; base materials and assets of kinds it
    does not know get no diagnostic at all. *)
Theorem validateAsset_missing_ID (m : Model.t asset) (path : string)
    (a : asset) :
  let out := validateAsset EqualFold m path a in
  (ErrMissingID ∈ out ↔ validated a = true ∧ Identify a = 0)
  ∧ (ErrMissingID ∈ out -> ∃ rest, out = ErrMissingID :: rest)
  ∧ (validated a = false -> out = []).
Proof.
  cbn zeta. split; [|split]; [| |by destruct a].
  - destruct a as [r|r|r|r|r|r|id]; cbn [validateAsset validated Identify asset_Asset].
    + split; [by intros ?%elem_of_nil|by intros [? _]].
    + unfold validateColorGroup. rewrite colorLoop_errs, elem_of_app, elem_of_colorLoop.
      unfold Append. split.
      * intros [Hin|(i & _ & Heq)]; [|discriminate Heq]. split; [done|].
        repeat case_bool_decide; simpl in Hin; try done; exfalso; by not_member Hin.
      * intros [_ Hid]. left. rewrite (bool_decide_eq_true_2 _ Hid).
        case_bool_decide; by member.
    + unfold validateTexture2DGroup, Append. split.
      * intros Hin. split; [done|].
        destruct (FindAsset m path (Texture2DGroup.TextureID r)) as [[]|];
          repeat case_bool_decide; simpl in Hin; try done; exfalso; by not_member Hin.
      * intros [_ Hid]. rewrite (bool_decide_eq_true_2 _ Hid).
        destruct (FindAsset m path (Texture2DGroup.TextureID r)) as [[]|];
          repeat case_bool_decide; by member.
    + unfold validateTexture2D, Append. split.
      * intros Hin. split; [done|].
        destruct (hasTexture EqualFold (Model.Attachments m) (Texture2D.Path r));
          repeat case_bool_decide; simpl in Hin; try done; exfalso; by not_member Hin.
      * intros [_ Hid]. rewrite (bool_decide_eq_true_2 _ Hid).
        destruct (hasTexture EqualFold (Model.Attachments m) (Texture2D.Path r));
          repeat case_bool_decide; by member.
    + destruct (validateMultiProps_shape m path r) as (tail & -> & _ & Htail).
      rewrite !elem_of_app. split.
      * intros [Hin|[Hin|Hin]].
        -- split; [done|]. unfold multiPropsHead, Append in Hin.
           repeat case_bool_decide; simpl in Hin; try done; exfalso; by not_member Hin.
        -- rewrite Forall_forall in Htail. by apply Htail, ErrMissingID_not_pidDiag in Hin.
        -- apply elem_of_oobDiags in Hin as (i & mu & _ & _ & Heq). discriminate Heq.
      * intros [_ Hid]. left. unfold multiPropsHead, Append.
        rewrite (bool_decide_eq_true_2 _ Hid). repeat case_bool_decide; by member.
    + unfold validateCompositeMat, Append. split.
      * intros Hin. split; [done|].
        destruct (FindAsset m path (CompositeMaterials.MaterialID r)) as [[bm| | | | | |]|];
          try destruct (indexLoop _ _);
          repeat case_bool_decide; simpl in Hin; try done; exfalso; by not_member Hin.
      * intros [_ Hid]. rewrite (bool_decide_eq_true_2 _ Hid).
        destruct (FindAsset m path (CompositeMaterials.MaterialID r)) as [[bm| | | | | |]|];
          try destruct (indexLoop _ _);
          repeat case_bool_decide; by member.
    + split; [by intros ?%elem_of_nil|by intros [? _]].
  - destruct a as [r|r|r|r|r|r|id]; cbn [validateAsset].
    + by intros ?%elem_of_nil.
    + unfold validateColorGroup. rewrite colorLoop_errs. unfold Append.
      intros Hin. by_cases (ColorGroup.ID r = 0) Hid.
      * case_bool_decide; by eexists.
      * exfalso. apply elem_of_app in Hin as [Hin|Hin].
        -- rewrite (bool_decide_eq_false_2 _ Hid) in Hin.
           case_bool_decide; by not_member Hin.
        -- apply elem_of_colorLoop in Hin as (i & _ & Heq). discriminate Heq.
    + unfold validateTexture2DGroup, Append. intros Hin.
      by_cases (Texture2DGroup.ID r = 0) Hid.
      * destruct (FindAsset m path (Texture2DGroup.TextureID r)) as [[]|];
          repeat case_bool_decide; by eexists.
      * exfalso. rewrite (bool_decide_eq_false_2 _ Hid) in Hin.
        destruct (FindAsset m path (Texture2DGroup.TextureID r)) as [[]|];
          repeat case_bool_decide; by not_member Hin.
    + unfold validateTexture2D, Append. intros Hin.
      by_cases (Texture2D.ID r = 0) Hid.
      * destruct (hasTexture EqualFold (Model.Attachments m) (Texture2D.Path r));
          repeat case_bool_decide; by eexists.
      * exfalso. rewrite (bool_decide_eq_false_2 _ Hid) in Hin.
        destruct (hasTexture EqualFold (Model.Attachments m) (Texture2D.Path r));
          repeat case_bool_decide; by not_member Hin.
    + destruct (validateMultiProps_shape m path r) as (tail & -> & _ & Htail).
      rewrite !elem_of_app. unfold multiPropsHead, Append.
      intros Hin. by_cases (MultiProperties.ID r = 0) Hid.
      * repeat case_bool_decide; by eexists.
      * exfalso. rewrite (bool_decide_eq_false_2 _ Hid) in Hin.
        destruct Hin as [Hin|[Hin|Hin]].
        -- repeat case_bool_decide; by not_member Hin.
        -- rewrite Forall_forall in Htail. by apply Htail, ErrMissingID_not_pidDiag in Hin.
        -- apply elem_of_oobDiags in Hin as (i & mu & _ & _ & Heq). discriminate Heq.
    + unfold validateCompositeMat, Append. intros Hin.
      by_cases (CompositeMaterials.ID r = 0) Hid.
      * destruct (FindAsset m path (CompositeMaterials.MaterialID r)) as [[bm| | | | | |]|];
          try destruct (indexLoop _ _);
          repeat case_bool_decide; by eexists.
      * exfalso. rewrite (bool_decide_eq_false_2 _ Hid) in Hin.
        destruct (FindAsset m path (CompositeMaterials.MaterialID r)) as [[bm| | | | | |]|];
          try destruct (indexLoop _ _);
          repeat case_bool_decide; by not_member Hin.
    + by intros ?%elem_of_nil.
Qed.
End MissingID.

(** ** The streaming decoder *)

Lemma skipThen_Skip {R : Type} (k : list Token -> R) (onErr : R)
    (x : list Token) : ∀ depth,
  skipThen k onErr depth x
  = match Skip depth x with Some rest => k rest | None => onErr end.
Proof.
  induction x as [|t x IH]; intros depth; simpl; [done|].
  destruct t; try apply IH. by destruct depth.
Qed.

Lemma Skip_content (body : list Token) :
  content body -> ∀ depth rest, Skip depth (body ++ rest) = Skip depth rest.
Proof.
  induction 1 as [|name attr body tail _ IHbody _ IHtail
                  |data tail _ IH|data tail _ IH|target inst tail _ IH
                  |data tail _ IH]; intros depth rest; simpl; try done.
  rewrite <- app_assoc. simpl. rewrite IHbody. simpl. apply IHtail.
Qed.

Lemma Skip_element (body : list Token) (name : Name.t) (rest : list Token) :
  content body -> Skip 0 (body ++ EndElement name :: rest) = Some rest.
Proof. intros Hc. by rewrite Skip_content. Qed.

Section Decode.
Context {Identifier Heap : Type}.
Implicit Types (f : @frame Identifier Heap) (w : @world Identifier Heap).

(** A start tag the current decoder has no child decoder for, on any
    token stream: [Skip] runs; if the stream ends inside the element
    [Decode] returns the error of the stream, otherwise the loop goes on
    after the element. No hook is called in between. *)
Lemma decodeLoop_unknown_element (fin : error) f w
    (name : Name.t) (attr : list Attr.t) (x : list Token) :
  Child (currentDecoder f) name (now f) = (w, None) ->
  decodeLoop fin (StartElement name attr :: x) f
  = match Skip 0 x with
    | Some rest => decodeLoop fin rest (setWorld f w)
    | None => Returns (fin, w)
    end.
Proof. intros Hchild. simpl. rewrite Hchild. apply skipThen_Skip. Qed.



(** The decoders declared with the loop ignore every attribute, in
    whatever namespace. *)
Lemma emptyDecoder_ignores_attributes (modelDecoder : nodeDecoder)
    (isRoot : bool) (attr : list Attr.t) w :
  Attributes emptyDecoder attr w = (w, None)
  ∧ Attributes (topLevelDecoder modelDecoder isRoot) attr w = (w, None).
Proof. split; reflexivity. Qed.

(** At the top level every element but the core [<model>] is skipped:
    the document decodes as if the element were not there. *)
Lemma Decode_skips_foreign_root (modelDecoder : nodeDecoder)
    (d : modelFile.t Identifier) (h : Heap) (fin : error)
    (name : Name.t) (attr : list Attr.t) (body rest : list Token) :
  name ≠ Name.mk nsCoreSpec attrModel ->
  content body ->
  Decode modelDecoder d h
    (StartElement name attr :: body ++ EndElement name :: rest) fin
  = Decode modelDecoder d h rest fin.
Proof.
  intros Hname Hbody. unfold Decode.
  rewrite (decodeLoop_unknown_element fin _ (mkWorld
    (modelFile.mk (modelFile.path d) (modelFile.isRoot d)
       (modelFile.warnings d) ∅ (modelFile.resources d) ∅) h)).
  - by rewrite Skip_element.
  - simpl. by rewrite bool_decide_eq_false_2.
Qed.
End Decode.

(** ** The start hook of [<segment>] and the attributes of accepted elements *)



(** The hook parses the value of every attribute before it looks at
    its name: an attribute it does not know adds a diagnostic as soon as
    its value is not a 32-bit decimal number. *)
Lemma segmentStep_unknown_attribute (st : segmentState.t) (a : Attr.t) :
  Name.Local (Attr.Name a) ∉ [attrV2; attrPID; attrP1; attrP2] ->
  snd (ParseUint (Attr.Value a)) ≠ None ->
  segmentState.errs (segmentStep st a)
  = segmentState.errs st
      ++ [NewParseAttrError (Name.Local (Attr.Name a)) false].
Proof.
  intros Hname Hparse. unfold segmentStep. destruct st as [seg h1 h2 errs].
  destruct (ParseUint (Attr.Value a)) as [val [err|]]; [|done].
  rewrite !bool_decide_eq_false_2; [done|..];
    intros Heq; apply Hname; rewrite Heq;
    apply list_elem_of_In; simpl; tauto.
Qed.

(** The start tag [<s:segment v2="1"/>] gets no diagnostic; with the
    foreign attribute of the package's decode tests, [qm:mq="other"], it
    gets a parse diagnostic positioned at the segment; with a foreign
    attribute named like a known one, [qm:v2="x"], the attribute is read
    as [v2]: a diagnostic, and [V2] overwritten. *)
Lemma polygonSegmentDecoder_Start_foreign_attributes :
  polygonSegmentDecoder_Start segmentAttrs emptyPolygon
  = (Polygon.mk 0 [Segment.mk 1 0 0 0], [])
  ∧ polygonSegmentDecoder_Start (segmentAttrs ++ [foreignAttr]) emptyPolygon
    = (Polygon.mk 0 [Segment.mk 1 0 0 0],
       [WrapIndex (NewParseAttrError "mq" false) "Segment" 0])
  ∧ polygonSegmentDecoder_Start (segmentAttrs ++ [foreignV2]) emptyPolygon
    = (Polygon.mk 0 [Segment.mk 0 0 0 0],
       [WrapIndex (NewParseAttrError "v2" true) "Segment" 0]).
Proof. repeat split; reflexivity. Qed.

(** The attribute [qm:v2="x"] of [<s:segment v2="1" qm:v2="x"/>] is in
    the unregistered namespace [qm] and is not without effect on the
    diagnostics of the hook: the hook reads it as [v2] and reports its
    value. *)
Lemma segment_hook_reads_foreign_attribute :
  Name.Space (Attr.Name foreignV2) = "qm"
  ∧ ¬ silentOn segmentAttrs foreignV2 emptyPolygon.
Proof. split; [reflexivity|]. unfold silentOn. vm_compute. discriminate. Qed.

(** ** The loop of the start and end hooks *)

Section ElementLoop.
Context {W : Type}.
Implicit Types (f : StreamingDecoder.frame W).


End ElementLoop.




Section StartTag.
Context {Identifier Heap W : Type}.
Implicit Types (f : @frame Identifier Heap) (w : @world Identifier Heap).

End StartTag.


(** ** The decoding loop on well-formed content *)

Section Balanced.
Context {Identifier Heap : Type}.
Implicit Types (f : @frame Identifier Heap) (w : @world Identifier Heap).


Lemma setWorld_setWorld f w w' : setWorld (setWorld f w) w' = setWorld f w'.
Proof. done. Qed.

End Balanced.


(** ** The resources of a model file *)

Section FileResources.
Context {Identifier : Type} (Identify : Identifier -> string * Z).
Context (modelPath : string) (modelFind : string -> Z -> option Identifier).

(** X20. A resource added to a model file is the one [FindResource]
    returns for its ID under every path that designates the file: a path
    that is not empty and is the file's path, or the empty path when the
    path of the model is the file's path. A resource added later with
    the same ID takes its place in lookups. Under a path that designates
    another document the lookup goes to the model, as before the
    addition; lookups of other IDs are unchanged, and the list of the
    file's resources gains the resource at its end. *)
Theorem AddResource_then_FindResource (d : modelFile.t Identifier)
    (r : Identifier) :
  let d' := AddResource Identify d r in
  let id := snd (Identify r) in
  let designated path := if bool_decide (path = "") then modelPath else path in
  (∀ path, designated path = modelFile.path d ->
     FindResource modelPath modelFind d' path id = Some r)
  ∧ (∀ path id', id' ≠ id ->
       FindResource modelPath modelFind d' path id'
       = FindResource modelPath modelFind d path id')
  ∧ (∀ path id', designated path ≠ modelFile.path d ->
       FindResource modelPath modelFind d' path id'
       = modelFind (designated path) id')
  ∧ modelFile.resources d' = modelFile.resources d ++ [r].
Proof.
  cbn zeta. unfold FindResource, AddResource.
  cbn [modelFile.path modelFile.resourcesMap modelFile.resources].
  split; [|split; [|split]].
  - intros path Hp. rewrite (bool_decide_eq_true_2 _ Hp). apply lookup_insert_eq.
  - intros path id' Hid. case_bool_decide; [|done]. by rewrite lookup_insert_ne.
  - intros path id' Hp. by rewrite (bool_decide_eq_false_2 _ Hp).
  - done.
Qed.
End FileResources.

(** On the root file of a model: the resource is found through the
    empty path and through the path of the file. *)
Lemma AddResource_then_FindResource_witness :
  let d' := AddResource (fun _ : unit => ("", 7)) emptyFile () in
  FindResource "/3D/3dmodel.model" (fun _ _ => None) d' "" 7 = Some ()
  ∧ FindResource "/3D/3dmodel.model" (fun _ _ => None) d' "/3D/3dmodel.model" 7
    = Some ().
Proof.
  destruct (AddResource_then_FindResource (fun _ : unit => ("", 7))
              "/3D/3dmodel.model" (fun _ _ => None) emptyFile ())
    as (Hfile & _).
  split; apply Hfile; reflexivity.
Defined.

(** ** The start hooks of [<polygon>] and [<segment>] *)

Lemma segmentStep_errs (st : segmentState.t) (a : Attr.t) :
  segmentState.errs (segmentStep st a) = segmentState.errs st ++ segmentDiag a.
Proof.
  unfold segmentStep, segmentDiag, Append. destruct st as [seg h1 h2 errs].
  destruct (ParseUint (Attr.Value a)) as [val [err|]]; simpl.
  - repeat case_bool_decide; simpl; try done; congruence.
  - repeat case_bool_decide; simpl; by rewrite app_nil_r.
Qed.

Lemma fold_segmentStep_errs (attrs : list Attr.t) : ∀ st,
  segmentState.errs (fold_left segmentStep attrs st)
  = segmentState.errs st ++ mjoin (segmentDiag <$> attrs).
Proof.
  induction attrs as [|a attrs IH]; intros st; simpl.
  - by rewrite app_nil_r.
  - by rewrite IH, segmentStep_errs, <- app_assoc.
Qed.

Lemma segmentDiags_cons (a : Attr.t) (attrs : list Attr.t) :
  mjoin (segmentDiag <$> a :: attrs)
  = segmentDiag a ++ mjoin (segmentDiag <$> attrs).
Proof. done. Qed.

Lemma polygonSegmentDecoder_Start_eq (attrs : list Attr.t) (polygon : Polygon.t) :
  polygonSegmentDecoder_Start attrs polygon
  = (Polygon.mk (Polygon.StartV polygon)
       (Polygon.Segments polygon ++ [segmentOf attrs]),
     WrapIndexList (mjoin (segmentDiag <$> attrs)) "Segment"
       (Z.of_nat (length (Polygon.Segments polygon)))).
Proof.
  unfold polygonSegmentDecoder_Start, segmentOf.
  rewrite fold_segmentStep_errs, length_app. simpl.
  do 2 f_equal. lia.
Qed.

(** X21. [polygonSegmentDecoder.Start] always appends exactly one
    segment to the polygon, whatever the attributes are, and leaves the
    start vertex and the earlier segments alone. Its diagnostics are one
    parse diagnostic for every attribute whose value is not a decimal
    number of 32 bits, known to the hook or not, in attribute order,
    marked required for [v2] only, each positioned at the index of the new
    segment; there is none exactly when every value parses. *)
Theorem polygonSegmentDecoder_Start_diagnostics (attrs : list Attr.t)
    (polygon : Polygon.t) :
  let r := polygonSegmentDecoder_Start attrs polygon in
  let index := Z.of_nat (length (Polygon.Segments polygon)) in
  fst r = Polygon.mk (Polygon.StartV polygon)
            (Polygon.Segments polygon ++ [segmentOf attrs])
  ∧ snd r = (fun err => WrapIndex err "Segment" index)
              <$> mjoin (segmentDiag <$> attrs)
  ∧ length (snd r)
    = length (filter (fun a => snd (ParseUint (Attr.Value a)) ≠ None) attrs)
  ∧ (snd r = [] ↔ Forall (fun a => snd (ParseUint (Attr.Value a)) = None) attrs).
Proof.
  cbn zeta. rewrite polygonSegmentDecoder_Start_eq. cbn [fst snd].
  split; [done|]. split; [done|].
  unfold WrapIndexList. rewrite length_fmap. split.
  - induction attrs as [|a attrs IH]; [done|].
    rewrite segmentDiags_cons, length_app, IH, filter_cons.
    unfold segmentDiag. destruct (snd (ParseUint (Attr.Value a))); case_decide;
      simpl; try done; congruence.
  - transitivity (mjoin (segmentDiag <$> attrs) = []).
    { split; [apply fmap_nil_inv|by intros ->]. }
    induction attrs as [|a attrs IH]; [by split|].
    rewrite segmentDiags_cons, Forall_cons, <- IH.
    unfold segmentDiag. destruct (snd (ParseUint (Attr.Value a))); simpl.
    + split; [done|]. by intros [? _].
    + tauto.
Qed.

Lemma lastValue_snoc (local : string) (attrs : list Attr.t) (a : Attr.t) :
  lastValue local (attrs ++ [a])
  = if bool_decide (Name.Local (Attr.Name a) = local)
    then uint32 (fst (ParseUint (Attr.Value a)))
    else lastValue local attrs.
Proof.
  unfold lastValue. rewrite filter_app, filter_cons, filter_nil.
  case_bool_decide as Ha; case_decide; try done.
  - by rewrite last_snoc.
  - by rewrite app_nil_r.
Qed.

Lemma hasAttr_snoc (local : string) (attrs : list Attr.t) (a : Attr.t) :
  hasAttr local (attrs ++ [a])
  = hasAttr local attrs || bool_decide (Name.Local (Attr.Name a) = local).
Proof.
  unfold hasAttr. apply eq_true_iff_eq.
  rewrite orb_true_iff, !bool_decide_eq_true, Exists_app, Exists_cons, Exists_nil.
  tauto.
Qed.

(** The state of the loop of the hook after the attributes [attrs]. *)
Lemma fold_segmentStep_fields (attrs : list Attr.t) :
  let st := fold_left segmentStep attrs
              (segmentState.mk Segment.zero false false []) in
  segmentState.segment st
  = Segment.mk (lastValue attrV2 attrs) (lastValue attrPID attrs)
      (lastValue attrP1 attrs)
      (if hasAttr attrP2 attrs then lastValue attrP2 attrs
       else lastValue attrP1 attrs)
  ∧ segmentState.hasP1 st = hasAttr attrP1 attrs
  ∧ segmentState.hasP2 st = hasAttr attrP2 attrs.
Proof.
  cbn zeta. induction attrs as [|a attrs IH] using rev_ind; [done|].
  rewrite fold_left_app. cbn [fold_left].
  destruct (fold_left segmentStep attrs _) as [seg h1 h2 errs].
  cbn [segmentState.segment segmentState.hasP1 segmentState.hasP2] in IH.
  destruct IH as (-> & -> & ->).
  rewrite !lastValue_snoc, !hasAttr_snoc. unfold segmentStep.
  destruct (ParseUint (Attr.Value a)) as [val err]. cbn [fst].
  unfold attrV2, attrPID, attrP1, attrP2.
  generalize (Name.Local (Attr.Name a)) as local. intros local.
  destruct (hasAttr "p1" attrs), (hasAttr "p2" attrs);
    repeat case_bool_decide; simplify_eq; done.
Qed.

(** X22. The segment [polygonSegmentDecoder.Start] appends takes each
    of its fields from the last attribute with the field's local name
    ([v2], [pid], [p1], [p2]), whatever the namespace of the attribute,
    and 0 when there is none; without a [p2] attribute, [P2] is a copy of
    [P1]. The value of a field is what [ParseUint] returns for the
    attribute, whether or not it reports an error. *)
Theorem polygonSegmentDecoder_Start_fields (attrs : list Attr.t)
    (polygon : Polygon.t) :
  Polygon.Segments (fst (polygonSegmentDecoder_Start attrs polygon))
  = Polygon.Segments polygon
      ++ [Segment.mk (lastValue attrV2 attrs) (lastValue attrPID attrs)
            (lastValue attrP1 attrs)
            (if hasAttr attrP2 attrs then lastValue attrP2 attrs
             else lastValue attrP1 attrs)].
Proof.
  rewrite polygonSegmentDecoder_Start_eq. cbn [fst Polygon.Segments].
  unfold segmentOf. by destruct (fold_segmentStep_fields attrs) as (-> & _).
Qed.

(** ** A polygon and its segments *)

Lemma segmentStarts_on_last (tags : list (list Attr.t)) :
  ∀ (top : Z) (vs : list (Z * Z)) (polys : list Polygon.t) (p : Polygon.t),
  segmentStarts tags
    (polygonDecoder.mk (Slice.mk top vs (polys ++ [p])) (Some (length polys)))
  = Returns
      (polygonDecoder.mk
         (Slice.mk top vs
            (polys ++ [Polygon.mk (Polygon.StartV p)
                         (Polygon.Segments p ++ (segmentOf <$> tags))]))
         (Some (length polys)),
       mjoin (imap (fun k attrs =>
                      WrapIndexList (mjoin (segmentDiag <$> attrs)) "Segment"
                        (Z.of_nat (length (Polygon.Segments p) + k)))
                tags)).
Proof.
  induction tags as [|attrs tags IH]; intros top vs polys p.
  - simpl. rewrite app_nil_r. by destruct p.
  - cbn [segmentStarts]. unfold segmentStart.
    cbn [polygonDecoder.slice polygonDecoder.polygon Slice.Polygons
         Slice.TopZ Slice.Vertices].
    rewrite list_lookup_middle by done.
    rewrite polygonSegmentDecoder_Start_eq.
    rewrite insert_app_r_alt, Nat.sub_diag by done. cbn [insert list_insert].
    rewrite IH. cbn [Polygon.StartV Polygon.Segments].
    rewrite <- app_assoc. cbn [fmap list_fmap app].
    do 2 f_equal. rewrite imap_cons. cbn [mjoin list_join].
    rewrite Nat.add_0_r. f_equal. f_equal.
    apply imap_ext. intros k attr _. simpl. rewrite length_app. simpl.
    do 2 f_equal. lia.
Qed.

Section PolygonStart.
Context (attrStartV : string).

(** The loop of [polygonDecoder.Start] stops at the first attribute
    with the start-vertex name. *)
Lemma startVLoop_first (pre : list Attr.t) (a : Attr.t) (post : list Attr.t) :
  Forall (fun b => Name.Local (Attr.Name b) ≠ attrStartV) pre ->
  Name.Local (Attr.Name a) = attrStartV ->
  startVLoop attrStartV (pre ++ a :: post)
  = (uint32 (fst (ParseUint (Attr.Value a))),
     match snd (ParseUint (Attr.Value a)) with
     | Some _ => [NewParseAttrError attrStartV true]
     | None => []
     end).
Proof.
  intros Hpre Ha. induction Hpre as [|b pre Hb _ IH]; simpl.
  - rewrite bool_decide_eq_true_2 by done.
    destruct (ParseUint (Attr.Value a)) as [val [err|]]; simpl; [|done].
    by rewrite Ha.
  - by rewrite bool_decide_eq_false_2.
Qed.

Lemma startVLoop_none (attrs : list Attr.t) :
  Forall (fun b => Name.Local (Attr.Name b) ≠ attrStartV) attrs ->
  startVLoop attrStartV attrs = (0, []).
Proof.
  intros Hall. induction Hall as [|b attrs Hb _ IH]; simpl; [done|].
  by rewrite bool_decide_eq_false_2.
Qed.

(** X23. After the start hook of a [<polygon>], the start hooks of
    its [<segment>] children never meet a nil pointer and all write to
    the polygon that was just appended: the slice ends with its earlier
    polygons untouched, followed by the new polygon, which keeps the
    start vertex the polygon hook gave it and holds one segment for every
    [<segment>] tag, in document order. The diagnostics of the k-th
    segment are positioned at index k. *)
Theorem polygon_then_segments (attrs : list Attr.t)
    (tags : list (list Attr.t)) (d : polygonDecoder.t) :
  let sl := polygonDecoder.slice d in
  let index := length (Slice.Polygons sl) in
  let opened := fst (polygonDecoder_Start attrStartV attrs d) in
  ∃ startV,
    opened
    = polygonDecoder.mk
        (Slice.mk (Slice.TopZ sl) (Slice.Vertices sl)
           (Slice.Polygons sl ++ [Polygon.mk startV []]))
        (Some index)
    ∧ segmentStarts tags opened
      = Returns
          (polygonDecoder.mk
             (Slice.mk (Slice.TopZ sl) (Slice.Vertices sl)
                (Slice.Polygons sl ++ [Polygon.mk startV (segmentOf <$> tags)]))
             (Some index),
           mjoin (imap (fun k a =>
                          WrapIndexList (mjoin (segmentDiag <$> a)) "Segment"
                            (Z.of_nat k))
                    tags)).
Proof.
  cbn zeta. unfold polygonDecoder_Start.
  destruct (startVLoop attrStartV attrs) as [startV errs]. cbn [fst].
  exists startV. split; [done|]. by rewrite segmentStarts_on_last.
Qed.

(** X24. [polygonDecoder.Start] appends one polygon without segments
    to the slice and points the segment decoder at it. The start vertex
    of the polygon is read from the first attribute with the start-vertex
    name and from no other: attributes before it are passed over,
    attributes after it are never looked at, and only the value of that
    attribute can give a diagnostic, which is positioned at the index of
    the polygon. Without such an attribute the start vertex is 0 and
    there is no diagnostic. *)
Theorem polygonDecoder_Start_first_startv (attrs : list Attr.t)
    (d : polygonDecoder.t) :
  let sl := polygonDecoder.slice d in
  let index := length (Slice.Polygons sl) in
  let appended startV :=
    polygonDecoder.mk
      (Slice.mk (Slice.TopZ sl) (Slice.Vertices sl)
         (Slice.Polygons sl ++ [Polygon.mk startV []]))
      (Some index) in
  (∀ pre a post,
      attrs = pre ++ a :: post ->
      Forall (fun b => Name.Local (Attr.Name b) ≠ attrStartV) pre ->
      Name.Local (Attr.Name a) = attrStartV ->
      polygonDecoder_Start attrStartV attrs d
      = (appended (uint32 (fst (ParseUint (Attr.Value a)))),
         match snd (ParseUint (Attr.Value a)) with
         | Some _ =>
             [WrapIndex (NewParseAttrError attrStartV true) "Polygon"
                (Z.of_nat index)]
         | None => []
         end))
  ∧ (Forall (fun b => Name.Local (Attr.Name b) ≠ attrStartV) attrs ->
     polygonDecoder_Start attrStartV attrs d = (appended 0, [])).
Proof.
  cbn zeta. unfold polygonDecoder_Start. split.
  - intros pre a post -> Hpre Ha. rewrite (startVLoop_first pre a post Hpre Ha).
    by destruct (snd (ParseUint (Attr.Value a))).
  - intros Hall. by rewrite (startVLoop_none attrs Hall).
Qed.
End PolygonStart.

(** ** [strToSRGB] *)

Lemma hexToByte_err (b : Z) (err : option error) :
  snd (hexToByte b err) = None ↔ err = None ∧ isHexDigit b.
Proof.
  unfold hexToByte, isHexDigit.
  repeat case_bool_decide; simpl; (split; [intros Herr|intros [Herr Hd]]);
    try done; try (split; [done|tauto]); tauto.
Qed.

Lemma hexPair_err (hi lo : Z) (err : option error) :
  snd (hexPair hi lo err) = None ↔ err = None ∧ isHexDigit hi ∧ isHexDigit lo.
Proof.
  unfold hexPair.
  pose proof (hexToByte_err hi err) as Hhi.
  destruct (hexToByte hi err) as [h err1]. simpl in Hhi.
  pose proof (hexToByte_err lo err1) as Hlo.
  destruct (hexToByte lo err1) as [l err2]. simpl in *. tauto.
Qed.

(** X25. [strToSRGB] returns without error exactly for the strings
    made of [#] followed by six or by eight hexadecimal digits, in either
    case. *)
Theorem strToSRGB_accepts (s : string) :
  snd (strToSRGB s) = None
  ↔ ∃ digits,
      bytes s = 35 :: digits
      ∧ (length digits = 6%nat ∨ length digits = 8%nat)
      ∧ Forall isHexDigit digits.
Proof.
  unfold strToSRGB. destruct (bytes s) as [|s0 digits].
  { split; [done|]. by intros (digits & H & _). }
  case_bool_decide as Hs0.
  { split; [done|]. intros (digits' & [= -> _] & _). done. }
  subst s0.
  destruct digits as [|s1 [|s2 [|s3 [|s4 [|s5 [|s6 [|s7 [|s8 [|s9 rest]]]]]]]]];
    try (split; [done|]; intros (digits & [= <-] & [Hl|Hl] & _); discriminate Hl).
  - pose proof (hexPair_err s1 s2 None) as H1.
    destruct (hexPair s1 s2 None) as [r e1].
    pose proof (hexPair_err s3 s4 e1) as H2.
    destruct (hexPair s3 s4 e1) as [g e2].
    pose proof (hexPair_err s5 s6 e2) as H3.
    destruct (hexPair s5 s6 e2) as [b e3]. simpl in *. split.
    + intros He. exists [s1; s2; s3; s4; s5; s6]. split; [done|]. split; [by left|].
      repeat (apply Forall_cons_2; [tauto|]). apply Forall_nil_2.
    + intros (digits & [= <-] & _ & Hall).
      repeat (apply Forall_cons in Hall as [? Hall]). tauto.
  - pose proof (hexPair_err s1 s2 None) as H1.
    destruct (hexPair s1 s2 None) as [r e1].
    pose proof (hexPair_err s3 s4 e1) as H2.
    destruct (hexPair s3 s4 e1) as [g e2].
    pose proof (hexPair_err s5 s6 e2) as H3.
    destruct (hexPair s5 s6 e2) as [b e3].
    pose proof (hexPair_err s7 s8 e3) as H4.
    destruct (hexPair s7 s8 e3) as [a e4]. simpl in *. split.
    + intros He. exists [s1; s2; s3; s4; s5; s6; s7; s8].
      split; [done|]. split; [by right|].
      repeat (apply Forall_cons_2; [tauto|]). apply Forall_nil_2.
    + intros (digits & [= <-] & _ & Hall).
      repeat (apply Forall_cons in Hall as [? Hall]). tauto.
Qed.

Lemma hexToByte_bound (b : Z) (err : option error) :
  0 <= fst (hexToByte b err) <= 9
  ∧ (isDecimalDigit b -> hexToByte b err = (b - 48, err)).
Proof.
  unfold hexToByte, isDecimalDigit, uint8. change (2 ^ 8) with 256.
  repeat case_bool_decide; simpl; split; try lia;
    try (intros _; f_equal); try (rewrite Z.mod_small by lia; lia);
    rewrite Z.mod_small by lia; done.
Qed.

Lemma hexPair_bound (hi lo : Z) (err : option error) :
  0 <= fst (hexPair hi lo err) <= 153
  ∧ (isDecimalDigit hi -> isDecimalDigit lo ->
     hexPair hi lo err = (16 * (hi - 48) + (lo - 48), err)).
Proof.
  unfold hexPair.
  destruct (hexToByte_bound hi err) as [Hh Hhd].
  destruct (hexToByte hi err) as [h err1].
  destruct (hexToByte_bound lo err1) as [Hl Hld].
  destruct (hexToByte lo err1) as [l err2]. simpl in *.
  rewrite Z.shiftl_mul_pow2 by lia. unfold uint8. change (2 ^ 8) with 256.
  change (2 ^ 4) with 16.
  rewrite (Z.mod_small (h * 16)) by lia. rewrite Z.mod_small by lia.
  split; [lia|]. intros Dh Dl.
  specialize (Hhd Dh). injection Hhd as -> ->.
  specialize (Hld Dl). injection Hld as -> ->. f_equal. lia.
Qed.

(** X26. Every channel [strToSRGB] computes is at most 153 (0x99),
    apart from the alpha of the six-digit form, which is 255: the letters
    a to f, in either case, are read as 0 to 5, so no string decodes to a
    channel of 0xA0 or above. On decimal digits the channels are the
    hexadecimal values the digits spell. *)
Theorem strToSRGB_channels (s : string) :
  let c := fst (strToSRGB s) in
  (0 <= RGBA.R c <= 153 ∧ 0 <= RGBA.G c <= 153 ∧ 0 <= RGBA.B c <= 153
   ∧ (0 <= RGBA.A c <= 153 ∨ RGBA.A c = 255))
  ∧ (∀ d1 d2 d3 d4 d5 d6,
       bytes s = [35; d1; d2; d3; d4; d5; d6] ->
       Forall isDecimalDigit [d1; d2; d3; d4; d5; d6] ->
       strToSRGB s
       = (RGBA.mk (16 * (d1 - 48) + (d2 - 48)) (16 * (d3 - 48) + (d4 - 48))
            (16 * (d5 - 48) + (d6 - 48)) 255,
          None)).
Proof.
  cbn zeta. unfold strToSRGB. split.
  - destruct (bytes s) as [|s0 digits]; [simpl; lia|].
    case_bool_decide; [simpl; lia|].
    destruct digits as [|s1 [|s2 [|s3 [|s4 [|s5 [|s6 [|s7 [|s8 [|s9 rest]]]]]]]]];
      try (simpl; lia).
    + destruct (hexPair_bound s1 s2 None) as [H1 _].
      destruct (hexPair s1 s2 None) as [r e1].
      destruct (hexPair_bound s3 s4 e1) as [H2 _].
      destruct (hexPair s3 s4 e1) as [g e2].
      destruct (hexPair_bound s5 s6 e2) as [H3 _].
      destruct (hexPair s5 s6 e2) as [b e3]. simpl in *. lia.
    + destruct (hexPair_bound s1 s2 None) as [H1 _].
      destruct (hexPair s1 s2 None) as [r e1].
      destruct (hexPair_bound s3 s4 e1) as [H2 _].
      destruct (hexPair s3 s4 e1) as [g e2].
      destruct (hexPair_bound s5 s6 e2) as [H3 _].
      destruct (hexPair s5 s6 e2) as [b e3].
      destruct (hexPair_bound s7 s8 e3) as [H4 _].
      destruct (hexPair s7 s8 e3) as [a e4]. simpl in *. lia.
  - intros d1 d2 d3 d4 d5 d6 -> Hall.
    repeat (apply Forall_cons in Hall as [? Hall]).
    rewrite bool_decide_eq_false_2 by (intros H'; by apply H').
    rewrite (proj2 (hexPair_bound d1 d2 None)) by done.
    rewrite (proj2 (hexPair_bound d3 d4 None)) by done.
    by rewrite (proj2 (hexPair_bound d5 d6 None)) by done.
Qed.

(** White, [#FFFFFF], decodes to (85, 85, 85, 255), and [#102030] to
    (16, 32, 48, 255). *)
Lemma strToSRGB_examples :
  strToSRGB "#FFFFFF" = (RGBA.mk 85 85 85 255, None)
  ∧ strToSRGB "#ffffff" = (RGBA.mk 85 85 85 255, None)
  ∧ strToSRGB "#102030" = (RGBA.mk 16 32 48 255, None)
  ∧ strToSRGB "#10203040" = (RGBA.mk 16 32 48 64, None)
  ∧ snd (strToSRGB "102030") = Some errInvalidFormat
  ∧ snd (strToSRGB "#1020") = Some errInvalidFormat
  ∧ strToSRGB "#10203g" = (RGBA.mk 16 32 48 255, Some errInvalidFormat).
Proof. repeat split; reflexivity. Qed.

(** ** The mesh builder *)

Lemma uint32_succ_ne (n : Z) :
  uint32 (uint32 (n + 1) - 1) ≠ uint32 (uint32 (n + 1 + 1) - 1).
Proof.
  unfold uint32. change (2 ^ 32) with 4294967296.
  Z.to_euclidean_division_equations. lia.
Qed.

(** With deduplication, a point the index knows is answered from the
    index and the builder is left as it is. *)
Lemma AddVertex_known_point (mb : MeshBuilder.t) (p : Point3D.t) (index : Z) :
  MeshBuilder.CalculateConnectivity mb = true ->
  MeshBuilder.vectorTree mb !! p = Some index ->
  AddVertex mb p = (index, mb).
Proof.
  intros Hcc Hfind. unfold AddVertex, vectorTree.FindVector.
  by rewrite Hcc, Hfind.
Qed.

(** With deduplication, a point the index does not know is appended
    and recorded under its new index. *)
Lemma AddVertex_new_point (mb : MeshBuilder.t) (p : Point3D.t) :
  MeshBuilder.CalculateConnectivity mb = true ->
  MeshBuilder.vectorTree mb !! p = None ->
  let r := AddVertex mb p in
  Mesh.Vertices (MeshBuilder.Mesh (snd r))
  = Mesh.Vertices (MeshBuilder.Mesh mb) ++ [p]
  ∧ MeshBuilder.vectorTree (snd r) !! p = Some (fst r)
  ∧ MeshBuilder.CalculateConnectivity (snd r) = true.
Proof.
  intros Hcc Hfind. unfold AddVertex, vectorTree.FindVector, vectorTree.AddVector.
  rewrite Hcc, Hfind. simpl. by rewrite lookup_insert_eq.
Qed.

(** With deduplication, a second call with the same point returns the
    index of the first and changes nothing. *)
Lemma AddVertex_again (mb : MeshBuilder.t) (p : Point3D.t) :
  MeshBuilder.CalculateConnectivity mb = true ->
  AddVertex (snd (AddVertex mb p)) p
  = (fst (AddVertex mb p), snd (AddVertex mb p)).
Proof.
  intros Hcc. destruct (MeshBuilder.vectorTree mb !! p) as [index|] eqn:Hfind.
  - rewrite (AddVertex_known_point mb p index Hcc Hfind). simpl.
    apply (AddVertex_known_point mb p index Hcc Hfind).
  - destruct (AddVertex_new_point mb p Hcc Hfind) as (_ & Htree & Hcc').
    by apply AddVertex_known_point.
Qed.

(** Without deduplication every call appends. *)
Lemma AddVertex_appends (mb : MeshBuilder.t) (p : Point3D.t) :
  MeshBuilder.CalculateConnectivity mb = false ->
  AddVertex mb p
  = (uint32 (uint32 (Z.of_nat (length (Mesh.Vertices (MeshBuilder.Mesh mb))) + 1) - 1),
     MeshBuilder.mk false
       (Mesh.mk (Mesh.Vertices (MeshBuilder.Mesh mb) ++ [p])
          (Mesh.Triangles (MeshBuilder.Mesh mb)))
       (MeshBuilder.vectorTree mb)).
Proof.
  intros Hcc. unfold AddVertex. rewrite Hcc, length_app. simpl.
  by rewrite Nat2Z.inj_add.
Qed.

(** C9 as stated fails: a builder with deduplication that already
    holds the point, here the builder [NewMeshBuilder] makes after one
    call of [AddVertex] with the point, appends no vertex when
    [AddVertex] is called twice with that point: the mesh has one
    vertex before the two calls and one vertex after them. *)
Lemma known_point_twice_appends_no_vertex :
  let mb := snd (AddVertex (NewMeshBuilder Mesh.empty) point) in
  let r1 := AddVertex mb point in
  let r2 := AddVertex (snd r1) point in
  MeshBuilder.CalculateConnectivity mb = true
  ∧ Mesh.Vertices (MeshBuilder.Mesh mb) = [point]
  ∧ Mesh.Vertices (MeshBuilder.Mesh (snd r2)) = [point]
  ∧ length (Mesh.Vertices (MeshBuilder.Mesh (snd r2)))
    ≠ S (length (Mesh.Vertices (MeshBuilder.Mesh mb))).
Proof. cbn zeta. repeat split; [reflexivity..|discriminate]. Qed.

(** C9, amended. Two calls of [AddVertex] with the same point. With
    deduplication enabled they return the same index and the second
    call appends nothing. The first call appends the point, so that
    exactly one vertex is appended, when the point is new to the
    builder (its index holds no entry for it); when the builder already
    holds the point no vertex is appended: both calls return the index
    recorded for it and leave the builder as it was. With deduplication
    disabled the two calls append two vertices and return two distinct
    indices. *)
Theorem AddVertex_same_point_twice (mb : MeshBuilder.t) (p : Point3D.t) :
  let r1 := AddVertex mb p in
  let r2 := AddVertex (snd r1) p in
  (MeshBuilder.CalculateConnectivity mb = true ->
     fst r1 = fst r2
     ∧ MeshBuilder.Mesh (snd r2) = MeshBuilder.Mesh (snd r1)
     ∧ (MeshBuilder.vectorTree mb !! p = None ->
        Mesh.Vertices (MeshBuilder.Mesh (snd r2))
        = Mesh.Vertices (MeshBuilder.Mesh mb) ++ [p])
     ∧ (∀ index, MeshBuilder.vectorTree mb !! p = Some index ->
        fst r1 = index ∧ snd r2 = mb))
  ∧ (MeshBuilder.CalculateConnectivity mb = false ->
       fst r1 ≠ fst r2
       ∧ Mesh.Vertices (MeshBuilder.Mesh (snd r2))
         = Mesh.Vertices (MeshBuilder.Mesh mb) ++ [p; p]).
Proof.
  cbn zeta. split; intros Hcc.
  - rewrite (AddVertex_again mb p Hcc). simpl. split; [done|]. split; [done|].
    split.
    + intros Hfind. by destruct (AddVertex_new_point mb p Hcc Hfind) as (-> & _).
    + intros index Hfind. by rewrite (AddVertex_known_point mb p index Hcc Hfind).
  - rewrite (AddVertex_appends mb p Hcc).
    cbn [snd fst]. rewrite AddVertex_appends by done.
    cbn [snd fst MeshBuilder.Mesh Mesh.Vertices]. split.
    + rewrite length_app. simpl length. rewrite Nat2Z.inj_add.
      apply uint32_succ_ne.
    + by rewrite <- app_assoc.
Qed.

(** The statement on a builder fresh from [NewMeshBuilder] over the
    empty mesh, on that builder once it holds the point, and on a
    builder without deduplication. *)
Lemma AddVertex_same_point_twice_witness :
  let twice mb := (fst (AddVertex mb point),
                   fst (AddVertex (snd (AddVertex mb point)) point),
                   Mesh.Vertices
                     (MeshBuilder.Mesh
                        (snd (AddVertex (snd (AddVertex mb point)) point)))) in
  let dedup := NewMeshBuilder Mesh.empty in
  let known := snd (AddVertex dedup point) in
  let plain := MeshBuilder.mk false Mesh.empty ∅ in
  (twice dedup).1.1 = (twice dedup).1.2
  ∧ (twice dedup).2 = [point]
  ∧ (twice known).1.1 = 0
  ∧ snd (AddVertex (snd (AddVertex known point)) point) = known
  ∧ (twice plain).1.1 ≠ (twice plain).1.2
  ∧ (twice plain).2 = [point; point].
Proof.
  cbn zeta.
  destruct (AddVertex_same_point_twice (NewMeshBuilder Mesh.empty) point)
    as [Hdedup _].
  destruct (AddVertex_same_point_twice
              (snd (AddVertex (NewMeshBuilder Mesh.empty) point)) point)
    as [Hknown _].
  destruct (AddVertex_same_point_twice (MeshBuilder.mk false Mesh.empty ∅) point)
    as [_ Hplain].
  destruct (Hdedup eq_refl) as (Hsame & _ & Hone & _).
  destruct (Hknown eq_refl) as (_ & _ & _ & Hheld).
  destruct (Hheld 0 eq_refl) as [Hindex Hkept].
  destruct (Hplain eq_refl) as (Hdiff & Htwo).
  split; [exact Hsame|]. split; [exact (Hone eq_refl)|].
  split; [exact Hindex|]. split; [exact Hkept|].
  split; [exact Hdiff | exact Htwo].
Defined.

(** On a builder made by [NewMeshBuilder], over any mesh, adding a point
    twice adds one vertex; the test of the specification, on an empty
    mesh, in both modes. *)
Lemma NewMeshBuilder_same_point_twice (mesh : Mesh.t) (p : Point3D.t) :
  let r1 := AddVertex (NewMeshBuilder mesh) p in
  let r2 := AddVertex (snd r1) p in
  fst r1 = fst r2
  ∧ Mesh.Vertices (MeshBuilder.Mesh (snd r2)) = Mesh.Vertices mesh ++ [p].
Proof.
  cbn zeta.
  destruct (AddVertex_new_point (NewMeshBuilder mesh) p) as (Hv & Htree & Hcc);
    [done | apply lookup_empty |].
  rewrite (AddVertex_known_point _ p _ Hcc Htree). simpl. by rewrite Hv.
Qed.

Lemma AddVertex_same_point_twice_examples :
  let dedup := NewMeshBuilder Mesh.empty in
  let plain := MeshBuilder.mk false Mesh.empty ∅ in
  let twice mb := (fst (AddVertex mb point),
                   fst (AddVertex (snd (AddVertex mb point)) point),
                   Mesh.Vertices
                     (MeshBuilder.Mesh
                        (snd (AddVertex (snd (AddVertex mb point)) point)))) in
  twice dedup = (0, 0, [point]) ∧ twice plain = (0, 1, [point; point]).
Proof. split; reflexivity. Qed.

(** ** The mesh builder over a sequence of calls *)

Lemma uint32_len (n : Z) : 0 <= n < 2 ^ 32 -> uint32 (uint32 (n + 1) - 1) = n.
Proof.
  intros Hn. unfold uint32. change (2 ^ 32) with 4294967296 in *.
  Z.to_euclidean_division_equations. lia.
Qed.

(** X27. Without connectivity every call of [AddVertex] appends: adding
    k points to a mesh of n vertices returns the indices n, ..., n+k-1
    and leaves the mesh with the points appended in call order, as long
    as the mesh stays within 2^32 vertices; triangles and the spatial
    index are untouched. *)
Theorem AddVertices_without_connectivity (mb : MeshBuilder.t)
    (nodes : list Point3D.t) :
  let vertices := Mesh.Vertices (MeshBuilder.Mesh mb) in
  MeshBuilder.CalculateConnectivity mb = false ->
  Z.of_nat (length vertices) + Z.of_nat (length nodes) <= 2 ^ 32 ->
  AddVertices mb nodes
  = (seqZ (Z.of_nat (length vertices)) (Z.of_nat (length nodes)),
     MeshBuilder.mk false
       (Mesh.mk (vertices ++ nodes) (Mesh.Triangles (MeshBuilder.Mesh mb)))
       (MeshBuilder.vectorTree mb)).
Proof.
  cbn zeta. revert mb.
  induction nodes as [|node nodes IH]; intros mb Hcc Hfit.
  - simpl. rewrite app_nil_r. destruct mb as [cc [vs ts] tree].
    simpl in *. by subst.
  - simpl length in *. cbn [AddVertices].
    rewrite (AddVertex_appends mb node Hcc).
    rewrite IH; [|done|cbn; rewrite length_app; simpl; lia].
    cbn [MeshBuilder.Mesh Mesh.Vertices Mesh.Triangles MeshBuilder.vectorTree].
    rewrite uint32_len by lia.
    rewrite (seqZ_cons _ (Z.of_nat (S (length nodes)))) by lia.
    rewrite length_app, <- app_assoc. simpl.
    do 3 f_equal; lia.
Qed.

Lemma AddVertices_without_connectivity_witness :
  AddVertices (MeshBuilder.mk false Mesh.empty ∅) [point; point]
  = ([0; 1], MeshBuilder.mk false (Mesh.mk [point; point] []) ∅).
Proof.
  apply (AddVertices_without_connectivity (MeshBuilder.mk false Mesh.empty ∅)
           [point; point]).
  - reflexivity.
  - vm_compute. discriminate.
Defined.

Import Beamlattice.

(** ** Names of the enumerations *)

(** A key found in a map literal is one of the literal's keys. *)
Lemma lookup_literal `{Countable K} {V : Type} (l : list (K * V)) (k : K) (v : V) :
  (list_to_map l : gmap K V) !! k = Some v -> (k, v) ∈ l.
Proof. apply elem_of_list_to_map_2. Qed.

Ltac literal_cases H :=
  apply lookup_literal in H;
  repeat (apply elem_of_cons in H as [H|H]; [injection H as -> ->|]);
  [..|by apply elem_of_nil in H].

(** X28. The names of the units and of the object types round-trip:
    [newUnits] reads back the name [String] gives to each of the six
    units, [String] gives back every name [newUnits] accepts, and the
    same holds of [newObjectType] and the five object types. A value
    that is none of the constants has the empty name, which neither
    function accepts. *)
Theorem Units_ObjectType_names_round_trip :
  (∀ u, 0 <= u <= 5 -> newUnits (Units.String u) = (u, true))
  ∧ (∀ s u, newUnits s = (u, true) -> Units.String u = s ∧ 0 <= u <= 5)
  ∧ (∀ u, ¬ 0 <= u <= 5 -> Units.String u = "")
  ∧ newUnits "" = (0, false)
  ∧ (∀ o, 0 <= o <= 4 -> newObjectType (ObjectType.String o) = (o, true))
  ∧ (∀ s o, newObjectType s = (o, true) -> ObjectType.String o = s ∧ 0 <= o <= 4)
  ∧ (∀ o, ¬ 0 <= o <= 4 -> ObjectType.String o = "")
  ∧ newObjectType "" = (0, false).
Proof.
  split; [|split; [|split; [|split; [|split; [|split; [|split]]]]]].
  - intros u Hu.
    assert (u = 0 ∨ u = 1 ∨ u = 2 ∨ u = 3 ∨ u = 4 ∨ u = 5) as Hcases by lia.
    destruct Hcases as [->|[->|[->|[->|[->| ->]]]]]; reflexivity.
  - intros s u. unfold newUnits.
    destruct (_ !! s) as [u'|] eqn:Hs; [|done]. intros [= ->].
    literal_cases Hs; (split; [reflexivity|]); vm_compute; split; discriminate.
  - intros u Hu. unfold Units.String.
    destruct (Units.names !! u) as [s|] eqn:Hs; [|done].
    unfold Units.names in Hs. exfalso.
    literal_cases Hs; apply Hu; vm_compute; split; discriminate.
  - reflexivity.
  - intros o Ho.
    assert (o = 0 ∨ o = 1 ∨ o = 2 ∨ o = 3 ∨ o = 4) as Hcases by lia.
    destruct Hcases as [->|[->|[->|[->| ->]]]]; reflexivity.
  - intros s o. unfold newObjectType.
    destruct (_ !! s) as [o'|] eqn:Hs; [|done]. intros [= ->].
    literal_cases Hs; (split; [reflexivity|]); vm_compute; split; discriminate.
  - intros o Ho. unfold ObjectType.String.
    destruct (ObjectType.names !! o) as [s|] eqn:Hs; [|done].
    unfold ObjectType.names in Hs. exfalso.
    literal_cases Hs; apply Ho; vm_compute; split; discriminate.
  - reflexivity.
Qed.

(** X29. The names of the clipping modes and of the capping modes of
    the beam-lattice extension round-trip in the same way:
    [newClipMode] and [newCapMode] read back the names [String] gives
    to the three modes of each kind, and [String] gives back every
    name they accept; any other value has the empty name, which
    neither accepts. *)
Theorem ClipMode_CapMode_names_round_trip :
  (∀ c, 0 <= c <= 2 -> newClipMode (ClipMode.String c) = (c, true))
  ∧ (∀ s c, newClipMode s = (c, true) -> ClipMode.String c = s ∧ 0 <= c <= 2)
  ∧ (∀ c, ¬ 0 <= c <= 2 -> ClipMode.String c = "")
  ∧ newClipMode "" = (0, false)
  ∧ (∀ b, 0 <= b <= 2 -> newCapMode (CapMode.String b) = (b, true))
  ∧ (∀ s b, newCapMode s = (b, true) -> CapMode.String b = s ∧ 0 <= b <= 2)
  ∧ (∀ b, ¬ 0 <= b <= 2 -> CapMode.String b = "")
  ∧ newCapMode "" = (0, false).
Proof.
  split; [|split; [|split; [|split; [|split; [|split; [|split]]]]]].
  - intros c Hc. assert (c = 0 ∨ c = 1 ∨ c = 2) as Hcases by lia.
    destruct Hcases as [->|[->| ->]]; reflexivity.
  - intros s c. unfold newClipMode.
    destruct (_ !! s) as [c'|] eqn:Hs; [|done]. intros [= ->].
    literal_cases Hs; (split; [reflexivity|]); vm_compute; split; discriminate.
  - intros c Hc. unfold ClipMode.String.
    destruct (ClipMode.names !! c) as [s|] eqn:Hs; [|done].
    unfold ClipMode.names in Hs. exfalso.
    literal_cases Hs; apply Hc; vm_compute; split; discriminate.
  - reflexivity.
  - intros b Hb. assert (b = 0 ∨ b = 1 ∨ b = 2) as Hcases by lia.
    destruct Hcases as [->|[->| ->]]; reflexivity.
  - intros s b. unfold newCapMode.
    destruct (_ !! s) as [b'|] eqn:Hs; [|done]. intros [= ->].
    literal_cases Hs; (split; [reflexivity|]); vm_compute; split; discriminate.
  - intros b Hb. unfold CapMode.String.
    destruct (CapMode.names !! b) as [s|] eqn:Hs; [|done].
    unfold CapMode.names in Hs. exfalso.
    literal_cases Hs; apply Hb; vm_compute; split; discriminate.
  - reflexivity.
Qed.
